(** * tsh: a tiny shell with job control

    A shallow embedding of [tsh.c]: the command evaluator [eval], the three
    signal handlers [sigchld_handler], [sigint_handler], [sigtstp_handler],
    and the job list they share.

    The shell is one process.  Its state is split in three parts:
    - [process]: what the C code owns (signal mask, [errno], the job list)
      together with the chronological [trace] of the calls it made;
    - [kernel]: what the operating system keeps for the process (pending
      signals, children, status changes not yet waited for) and the
      [sched]ule of what the outside world does next;
    - [oracle]: the answers of system calls the model does not compute
      ([fork], [open], [execve], [write]).

    Handlers are written in the monad [H] (state, may block); the main
    line is written in [M], where every call is followed by a window in
    which the environment acts and deliverable signals run their handler.
    The two loops take fuel: [sigchld_handler] computes its own from the
    queue of status changes, the foreground wait of [eval] is given it. *)

From stdpp Require Import base numbers option list strings pretty.

Open Scope Z_scope.

(** ** Platform constants (Linux, x86-64) *)

Definition SIGINT  : Z := 2.
Definition SIGCHLD : Z := 17.
Definition SIGCONT : Z := 18.
Definition SIGTSTP : Z := 20.

Definition SIG_BLOCK   : Z := 0.
Definition SIG_UNBLOCK : Z := 1.
Definition SIG_SETMASK : Z := 2.

Definition ENOENT : Z := 2.
Definition ESRCH  : Z := 3.
Definition EINTR  : Z := 4.
Definition ECHILD : Z := 10.
Definition EAGAIN : Z := 11.
Definition EACCES : Z := 13.
Definition EISDIR : Z := 21.

Definition WNOHANG    : Z := 1.
Definition WUNTRACED  : Z := 2.
Definition WCONTINUED : Z := 8.

Definition O_RDONLY : Z := 0.
Definition O_WRONLY : Z := 1.
Definition O_CREAT  : Z := 64.
Definition O_TRUNC  : Z := 512.

Definition S_IRUSR : Z := 256.
Definition S_IWUSR : Z := 128.
Definition S_IXUSR : Z := 64.
Definition S_IRGRP : Z := 32.
Definition S_IWGRP : Z := 16.
Definition S_IXGRP : Z := 8.
Definition S_IROTH : Z := 4.
Definition S_IWOTH : Z := 2.
Definition S_IXOTH : Z := 1.
Definition S_IRWXG : Z := Z.lor (Z.lor S_IRGRP S_IWGRP) S_IXGRP.
Definition S_IRWXO : Z := Z.lor (Z.lor S_IROTH S_IWOTH) S_IXOTH.

Definition STDIN_FILENO  : Z := 0.
Definition STDOUT_FILENO : Z := 1.

(** [#define MODE S_IRUSR | S_IWUSR | S_IRGRP | S_IROTH], which [tsh.c]
    defines when [DEBUG] is not. *)
Definition MODE : Z := Z.lor (Z.lor (Z.lor S_IRUSR S_IWUSR) S_IRGRP) S_IROTH.

(** The newline character written [\n] in the C format strings. *)
Definition nl : string := String (Ascii.ascii_of_nat 10) EmptyString.

(** ** Signal sets

    A [sigset_t] is a 64-bit mask; signal [sig] is bit [sig - 1]. *)

Definition sigset := Z.

Definition sigismember (set : sigset) (sig : Z) : bool := Z.testbit set (sig - 1).

(** [sigfillset(&mask_all)] *)
Definition mask_all : sigset := Z.ones 64.

(** A mask blocks every signal when it contains all of [mask_all]. *)
Definition blocks_all (m : sigset) : Prop := Z.land m mask_all = mask_all.

#[global] Instance blocks_all_dec m : Decision (blocks_all m).
Proof. unfold blocks_all. apply _. Defined.

(** ** Child status, as [waitpid] reports it and the [WIF...] macros read it *)

Inductive wstatus :=
| W_EXITED (code : Z)
| W_SIGNALED (sig : Z)
| W_STOPPED (sig : Z)
| W_CONTINUED.

Definition WIFSTOPPED (s : wstatus) : bool :=
  match s with W_STOPPED _ => true | _ => false end.
Definition WIFSIGNALED (s : wstatus) : bool :=
  match s with W_SIGNALED _ => true | _ => false end.
Definition WIFCONTINUED (s : wstatus) : bool :=
  match s with W_CONTINUED => true | _ => false end.
Definition WIFEXITED (s : wstatus) : bool :=
  match s with W_EXITED _ => true | _ => false end.
Definition WSTOPSIG (s : wstatus) : Z :=
  match s with W_STOPPED n => n | _ => 0 end.
Definition WTERMSIG (s : wstatus) : Z :=
  match s with W_SIGNALED n => n | _ => 0 end.

(** ** The job list *)

(** Modelled from the spec: the state of a Job ([job_state] of
    [tsh_helper.h]): Undefined, Foreground, Background or Stopped. *)
Inductive job_state := UNDEF | FG | BG | ST.

#[global] Instance job_state_eq_dec : EqDecision job_state.
Proof. solve_decision. Defined.

(** Modelled from the spec: the job record of [tsh_helper.h], which is not
    part of the sources.  A Job has a process id, a state and the command
    line; its id is the position of its slot, counted from 1. *)
Record job := { j_pid : Z; j_state : job_state; j_cmdline : string }.

(** Modelled from the spec: an empty slot. *)
Definition empty_job : job :=
  {| j_pid := 0; j_state := UNDEF; j_cmdline := EmptyString |}.

Module JobTable.

(** The JobTable operations of [tsh_helper.c], which is not part of the
    sources, are modelled from the spec.  The table is a fixed number of
    slots; slot [i] holds the job with id [i + 1]; [UNDEF] marks a free
    slot; an absent result is the id (or pid) 0. *)

(** Modelled from the spec: the JobTable is a fixed-capacity collection,
    empty at first ([init_job_list] of [tsh_helper.c]). *)
Definition init_job_list (capacity : nat) : list job :=
  replicate capacity empty_job.

(** Modelled from the spec: the slot of the job id [jid], if [jid] is in
    range; ids are small positive integers. *)
Definition slot (jid : Z) (jl : list job) : option job :=
  if 1 <=? jid then jl !! Z.to_nat (jid - 1) else None.

(** Modelled from the spec: ids are assigned lowest first, so that the id
    of a job is its slot number plus one. *)
Definition id_of_slot (i : nat) : Z := Z.of_nat i + 1.

(** Modelled from the spec: [exists(id) -> bool]. *)
Definition job_exists (jid : Z) (jl : list job) : bool :=
  match slot jid jl with
  | Some j => bool_decide (j_state j ≠ UNDEF)
  | None => false
  end.

(** Modelled from the spec: [add] allocates the lowest free slot and
    fails with Capacity ([None]) if the table is full. *)
Definition add_job (pid : Z) (st : job_state) (cmd : string) (jl : list job)
  : option Z * list job :=
  match list_find (λ j, j_state j = UNDEF) jl with
  | Some (i, _) =>
      (Some (id_of_slot i),
       <[i := {| j_pid := pid; j_state := st; j_cmdline := cmd |}]> jl)
  | None => (None, jl)
  end.

(** Modelled from the spec: [remove(id)] frees the slot; no-op if not
    present. *)
Definition delete_job (jid : Z) (jl : list job) : list job :=
  if job_exists jid jl then <[Z.to_nat (jid - 1) := empty_job]> jl else jl.

(** Modelled from the spec: [setState(id, state)] is a silent no-op if
    [id] is not a live Job. *)
Definition job_set_state (jid : Z) (st : job_state) (jl : list job) : list job :=
  match slot jid jl with
  | Some j =>
      if bool_decide (j_state j ≠ UNDEF)
      then <[Z.to_nat (jid - 1) :=
               {| j_pid := j_pid j; j_state := st; j_cmdline := j_cmdline j |}]> jl
      else jl
  | None => jl
  end.

(** Modelled from the spec: [lookupByProcessId(processId) -> id | none]. *)
Definition job_from_pid (pid : Z) (jl : list job) : Z :=
  match list_find (λ j, j_state j ≠ UNDEF ∧ j_pid j = pid) jl with
  | Some (i, _) => id_of_slot i
  | None => 0
  end.

(** Modelled from the spec: [lookupByJobId(id) -> processId | none]. *)
Definition job_get_pid (jid : Z) (jl : list job) : Z :=
  match slot jid jl with
  | Some j => if bool_decide (j_state j ≠ UNDEF) then j_pid j else 0
  | None => 0
  end.

(** Modelled from the spec: the command line retained for reporting. *)
Definition job_get_cmdline (jid : Z) (jl : list job) : string :=
  match slot jid jl with
  | Some j => if bool_decide (j_state j ≠ UNDEF) then j_cmdline j else EmptyString
  | None => EmptyString
  end.

(** Modelled from the spec: [foregroundJobId() -> id | 0]. *)
Definition fg_job (jl : list job) : Z :=
  match list_find (λ j, j_state j = FG) jl with
  | Some (i, _) => id_of_slot i
  | None => 0
  end.

(** Modelled from the spec: the state word of a line of the listing. *)
Definition state_word (st : job_state) : string :=
  match st with
  | FG => "Foreground"
  | BG => "Background"
  | ST => "Stopped"
  | UNDEF => "Undefined"
  end.

(** Modelled from the spec: [enumerate] lists every live job as job id,
    pid, state word and command line. *)
Fixpoint listing_from (i : nat) (jl : list job) : string :=
  match jl with
  | [] => EmptyString
  | j :: jl' =>
      (if bool_decide (j_state j ≠ UNDEF)
       then "[" +:+ pretty (id_of_slot i) +:+ "] (" +:+ pretty (j_pid j) +:+ ") "
            +:+ state_word (j_state j) +:+ " " +:+ j_cmdline j +:+ nl
       else EmptyString)
      +:+ listing_from (S i) jl'
  end.

(** Modelled from the spec: the whole listing, as [list_jobs] writes it. *)
Definition listing (jl : list job) : string := listing_from 0 jl.

End JobTable.

(** ** Events of the trace *)

Inductive job_op :=
| J_add (pid : Z) (st : job_state) (cmd : string)
| J_delete (jid : Z)
| J_set_state (jid : Z) (st : job_state)
| J_from_pid (pid : Z)
| J_get_pid (jid : Z)
| J_get_cmdline (jid : Z)
| J_exists (jid : Z)
| J_fg_job
| J_list (fd : Z).

(** One event per call, in the order the calls are made.  A job-list access
    records the signal mask in force when it is made.  [E_signal sig body]
    is a signal delivery: [body] is what the handler did. *)
#[local] Unset Elimination Schemes.
Inductive event :=
| E_sigprocmask (how : Z) (set : sigset) (newmask : sigset)
| E_job (op : job_op) (mask_at : sigset)
| E_fork (ret : Z)
| E_waitpid (options ret : Z) (status : option wstatus)
| E_kill (pid sig : Z)
| E_print (text : string)
| E_sigsuspend (set : sigset)
| E_open (path : string) (flags mode ret : Z)
| E_dup2 (fd fd2 : Z)
| E_close (fd : Z)
| E_write (fd : Z) (text : string)
| E_setpgid (pid pgid : Z)
| E_execve (path : string) (argv : list string) (ret : Z)
| E_signal (sig : Z) (body : list event).
#[local] Set Elimination Schemes.

(** ** The world *)

(** What the environment does between two calls of the shell. *)
Inductive env_step :=
| Env_child (pid : positive) (st : wstatus)   (* a child changes state *)
| Env_signal (sig : Z)                 (* a signal is sent to the shell *)
| Env_tick.                            (* the shell runs on *)

Record process := {
  sigmask : sigset;
  errno : Z;
  job_list : list job;
  trace : list event
}.

(** Process ids of children are positive numbers. *)
Record kernel := {
  sigpend : sigset;
  children : list positive;
  wait_queue : list (positive * wstatus);
  sched : list env_step
}.

(** [fork_ret] is what [fork] returns in this process; [fs_open] gives a
    file descriptor or an error number; [fs_execve] gives the error number
    when the program cannot be run; [fs_write] tells whether writing to a
    descriptor succeeds. *)
Record oracle := {
  fork_ret : Z;
  fs_open : string → Z → Z → N + Z;
  fs_execve : string → list string → option Z;
  fs_write : Z → bool
}.

Record world := { proc : process; kern : kernel; os : oracle }.

Definition with_proc (f : process → process) (w : world) : world :=
  {| proc := f (proc w); kern := kern w; os := os w |}.
Definition with_kern (f : kernel → kernel) (w : world) : world :=
  {| proc := proc w; kern := f (kern w); os := os w |}.

Definition set_sigmask (m : sigset) (p : process) : process :=
  {| sigmask := m; errno := errno p; job_list := job_list p; trace := trace p |}.
Definition set_errno (e : Z) (p : process) : process :=
  {| sigmask := sigmask p; errno := e; job_list := job_list p; trace := trace p |}.
Definition set_job_list (jl : list job) (p : process) : process :=
  {| sigmask := sigmask p; errno := errno p; job_list := jl; trace := trace p |}.
Definition set_trace (tr : list event) (p : process) : process :=
  {| sigmask := sigmask p; errno := errno p; job_list := job_list p; trace := tr |}.
Definition log (e : event) (p : process) : process :=
  set_trace (trace p ++ [e]) p.

Definition set_sigpend (s : sigset) (k : kernel) : kernel :=
  {| sigpend := s; children := children k; wait_queue := wait_queue k; sched := sched k |}.
Definition set_children (c : list positive) (k : kernel) : kernel :=
  {| sigpend := sigpend k; children := c; wait_queue := wait_queue k; sched := sched k |}.
Definition set_wait_queue (q : list (positive * wstatus)) (k : kernel) : kernel :=
  {| sigpend := sigpend k; children := children k; wait_queue := q; sched := sched k |}.
Definition set_sched (s : list env_step) (k : kernel) : kernel :=
  {| sigpend := sigpend k; children := children k; wait_queue := wait_queue k; sched := s |}.

(** ** The monad of handler code: state, and [None] when a call blocks *)

Definition H (A : Type) : Type := world → option (A * world).

#[global] Instance H_ret : MRet H := λ A a w, Some (a, w).
#[global] Instance H_bind : MBind H := λ A B f m w,
  match m w with
  | Some (a, w') => f a w'
  | None => None
  end.

Definition emit (e : event) : H unit := λ w, Some (tt, with_proc (log e) w).

Definition get_errno : H Z := λ w, Some (errno (proc w), w).
Definition put_errno (e : Z) : H unit := λ w, Some (tt, with_proc (set_errno e) w).

(** [sigprocmask(how, &set, &old)]; the old mask is the result. *)
Definition sigprocmask (how : Z) (set : sigset) : H sigset := λ w,
  let old := sigmask (proc w) in
  let new := if how =? SIG_BLOCK then Z.lor old set
             else if how =? SIG_UNBLOCK then Z.land old (Z.lnot set)
             else set in
  Some (old, with_proc (λ p, log (E_sigprocmask how set new) (set_sigmask new p)) w).

(** Modelled from the spec: [sio_printf] of [csapp.c], which is not part
    of the sources, is the reentrant-safe output on [STDOUT_FILENO]; the
    argument is the formatted text. *)
Definition sio_printf (text : string) : H unit := emit (E_print text).

(** [kill(pid, sig)]: fails with [ESRCH] when no child process (group)
    answers to [pid]. *)
Definition kill (pid sig : Z) : H Z := λ w,
  if bool_decide (Z.abs pid ∈ Z.pos <$> children (kern w))
  then Some (0, with_proc (log (E_kill pid sig)) w)
  else Some (-1, with_proc (λ p, set_errno ESRCH (log (E_kill pid sig) p)) w).

(** Job-list calls: the table operation of [JobTable], logged with the
    mask in force when it is made. *)
Definition job_read {A} (op : job_op) (f : list job → A) : H A := λ w,
  Some (f (job_list (proc w)),
        with_proc (λ p, log (E_job op (sigmask p)) p) w).
Definition job_write (op : job_op) (f : list job → list job) : H unit := λ w,
  Some (tt, with_proc (λ p, log (E_job op (sigmask p)) (set_job_list (f (job_list p)) p)) w).

Definition add_job (pid : Z) (st : job_state) (cmd : string) : H (option Z) := λ w,
  let r := JobTable.add_job pid st cmd (job_list (proc w)) in
  Some (r.1, with_proc (λ p, log (E_job (J_add pid st cmd) (sigmask p))
                               (set_job_list r.2 p)) w).
Definition delete_job (jid : Z) : H unit :=
  job_write (J_delete jid) (JobTable.delete_job jid).
Definition job_set_state (jid : Z) (st : job_state) : H unit :=
  job_write (J_set_state jid st) (JobTable.job_set_state jid st).
Definition job_from_pid (pid : Z) : H Z :=
  job_read (J_from_pid pid) (JobTable.job_from_pid pid).
Definition job_get_pid (jid : Z) : H Z :=
  job_read (J_get_pid jid) (JobTable.job_get_pid jid).
Definition job_get_cmdline (jid : Z) : H string :=
  job_read (J_get_cmdline jid) (JobTable.job_get_cmdline jid).
Definition job_exists (jid : Z) : H bool :=
  job_read (J_exists jid) (JobTable.job_exists jid).
Definition fg_job : H Z :=
  job_read J_fg_job JobTable.fg_job.

(** *** [waitpid(-1, &status, options)] *)

(** Which status changes a call with these [options] reports. *)
Definition reportable (options : Z) (st : wstatus) : bool :=
  match st with
  | W_EXITED _ | W_SIGNALED _ => true
  | W_STOPPED _ => Z.testbit options 1     (* WUNTRACED *)
  | W_CONTINUED => Z.testbit options 3     (* WCONTINUED *)
  end.

(** The first reportable status change, and the queue without it. *)
Fixpoint take_status (options : Z) (q : list (positive * wstatus))
  : option (positive * wstatus * list (positive * wstatus)) :=
  match q with
  | [] => None
  | (p, st) :: q' =>
      if reportable options st then Some (p, st, q')
      else match take_status options q' with
           | Some (r, st', q'') => Some (r, st', (p, st) :: q'')
           | None => None
           end
  end.

(** A terminated child is gone once it has been waited for. *)
Definition reap (p : positive) (st : wstatus) (c : list positive) : list positive :=
  if WIFEXITED st || WIFSIGNALED st then filter (λ x, x ≠ p) c else c.

(** The result is the return value and the status written to [&status]
    ([W_EXITED 0] stands for the untouched variable when no child is
    reported).  A reportable status change is returned at once; with
    nothing to report the call fails with [ECHILD] when there is no child,
    returns 0 under [WNOHANG], and blocks otherwise. *)
Definition waitpid (options : Z) : H (Z * wstatus) := λ w,
  match take_status options (wait_queue (kern w)) with
  | Some (p, st, q) =>
      Some ((Z.pos p, st),
            with_kern (λ k, set_children (reap p st (children k)) (set_wait_queue q k))
              (with_proc (log (E_waitpid options (Z.pos p) (Some st))) w))
  | None =>
      match children (kern w) with
      | [] =>
          Some ((-1, W_EXITED 0),
                with_proc (λ p, set_errno ECHILD (log (E_waitpid options (-1) None) p)) w)
      | _ :: _ =>
          if Z.testbit options 0     (* WNOHANG *)
          then Some ((0, W_EXITED 0), with_proc (log (E_waitpid options 0 None)) w)
          else None
      end
  end.

(** ** Signal handlers *)

(** The body of the [while] loop of [sigchld_handler], for the child
    [pid] that [waitpid] reported with [status]. *)
Definition sigchld_body (pid : Z) (status : wstatus) : H unit :=
  prev_all ← sigprocmask SIG_BLOCK mask_all;
  jid ← job_from_pid pid;
  (if WIFSTOPPED status then
     job_set_state jid ST;;
     sio_printf ("Job [" +:+ pretty jid +:+ "] (" +:+ pretty pid
                 +:+ ") stopped by signal " +:+ pretty (WSTOPSIG status) +:+ nl)
   else if WIFSIGNALED status then
     sio_printf ("Job [" +:+ pretty jid +:+ "] (" +:+ pretty pid
                 +:+ ") terminated by signal " +:+ pretty (WTERMSIG status) +:+ nl);;
     delete_job jid
   else if WIFCONTINUED status then
     job_set_state jid FG
   else
     delete_job jid);;
  sigprocmask SIG_SETMASK prev_all;;
  mret tt.

(** The loop [while ((pid = waitpid(-1, &status, WNOHANG | WUNTRACED)) > 0)];
    it runs at most once per queued status change, and once more to see
    that nothing is left. *)
Fixpoint sigchld_loop (fuel : nat) : H unit :=
  match fuel with
  | O => λ _, None
  | S fuel' =>
      '(pid, status) ← waitpid (Z.lor WNOHANG WUNTRACED);
      if 0 <? pid then
        sigchld_body pid status;;
        sigchld_loop fuel'
      else mret tt
  end.

Definition sigchld_handler (sig : Z) : H unit :=
  olderrno ← get_errno;
  fuel ← (λ w, Some (S (length (wait_queue (kern w))), w));
  sigchld_loop fuel;;
  put_errno olderrno.

Definition sigint_handler (sig : Z) : H unit :=
  olderrno ← get_errno;
  prev_all ← sigprocmask SIG_BLOCK mask_all;
  jid ← fg_job;
  (if bool_decide (jid ≠ 0) then
     pid ← job_get_pid jid;
     kill (- pid) SIGINT;; mret tt
   else mret tt);;
  sigprocmask SIG_SETMASK prev_all;;
  put_errno olderrno.

Definition sigtstp_handler (sig : Z) : H unit :=
  olderrno ← get_errno;
  prev_all ← sigprocmask SIG_BLOCK mask_all;
  jid ← fg_job;
  (if bool_decide (jid ≠ 0) then
     pid ← job_get_pid jid;
     kill (- pid) SIGTSTP;; mret tt
   else mret tt);;
  sigprocmask SIG_SETMASK prev_all;;
  put_errno olderrno.

(** ** Signal delivery

    [main] installs the three handlers with [Signal]; a handler runs with
    its own signal added to the mask and the mask of the interrupted code
    is put back when it returns.  Handlers run to completion: a signal
    that arrives meanwhile stays pending. *)

Definition deliverable (sig : Z) (w : world) : bool :=
  sigismember (sigpend (kern w)) sig && negb (sigismember (sigmask (proc w)) sig).

Definition run_handler (sig : Z) (handler : Z → H unit) (w : world) : option world :=
  let p := proc w in
  let w0 := {| proc := set_trace [] (set_sigmask (Z.setbit (sigmask p) (sig - 1)) p);
               kern := set_sigpend (Z.clearbit (sigpend (kern w)) (sig - 1)) (kern w);
               os := os w |} in
  match handler sig w0 with
  | Some (_, w1) =>
      Some (with_proc (λ p1, set_trace (trace p ++ [E_signal sig (trace p1)])
                               (set_sigmask (sigmask p) p1)) w1)
  | None => None
  end.

Definition deliver_one (sig : Z) (handler : Z → H unit) (w : world) : option world :=
  if deliverable sig w then run_handler sig handler w else Some w.

(** Every pending signal that the mask lets through runs its handler. *)
Definition dispatch (w : world) : option world :=
  w1 ← deliver_one SIGINT sigint_handler w;
  w2 ← deliver_one SIGCHLD sigchld_handler w1;
  deliver_one SIGTSTP sigtstp_handler w2.

Definition env_apply (e : env_step) (k : kernel) : kernel :=
  match e with
  | Env_child p st =>
      if bool_decide (p ∈ children k)
      then set_sigpend (Z.setbit (sigpend k) (SIGCHLD - 1))
             (set_wait_queue (wait_queue k ++ [(p, st)]) k)
      else k
  | Env_signal sig => set_sigpend (Z.setbit (sigpend k) (sig - 1)) k
  | Env_tick => k
  end.

(** The environment acts until its next [Env_tick]. *)
Fixpoint window (s : list env_step) (w : world) : option world :=
  match s with
  | [] => Some (with_kern (set_sched []) w)
  | Env_tick :: s' => Some (with_kern (set_sched s') w)
  | e :: s' => w' ← dispatch (with_kern (env_apply e) w); window s' w'
  end.

(** What happens after each call of the main line. *)
Definition deliver (w : world) : option world :=
  w1 ← dispatch w; window (sched (kern w1)) w1.

Definition any_deliverable (w : world) : bool :=
  deliverable SIGINT w || deliverable SIGCHLD w || deliverable SIGTSTP w.

(** The process sleeps until a handler has run; [None]: it sleeps for ever. *)
Fixpoint suspended (s : list env_step) (w : world) : option world :=
  if any_deliverable w then
    w' ← dispatch w; Some (with_kern (set_sched s) w')
  else
    match s with
    | [] => None
    | e :: s' => suspended s' (with_kern (env_apply e) w)
    end.

(** ** The monad of the main line *)

Inductive outcome (A : Type) :=
| Done (a : A) (w : world)
| Exited (status : Z) (w : world)
| Execed (path : string) (argv : list string) (w : world)
| Blocked (w : world)
| OutOfFuel (w : world).
Arguments Done {A}.
Arguments Exited {A}.
Arguments Execed {A}.
Arguments Blocked {A}.
Arguments OutOfFuel {A}.

Definition final {A} (o : outcome A) : world :=
  match o with
  | Done _ w | Exited _ w | Execed _ _ w | Blocked w | OutOfFuel w => w
  end.

Definition M (A : Type) : Type := world → outcome A.

#[global] Instance M_ret : MRet M := λ A a w, Done a w.
#[global] Instance M_bind : MBind M := λ A B f m w,
  match m w with
  | Done a w' => f a w'
  | Exited s w' => Exited s w'
  | Execed p a w' => Execed p a w'
  | Blocked w' => Blocked w'
  | OutOfFuel w' => OutOfFuel w'
  end.

(** A call made by the main line, and the window that follows it. *)
Definition call {A} (h : H A) : M A := λ w,
  match h w with
  | Some (a, w1) =>
      match deliver w1 with
      | Some w2 => Done a w2
      | None => Blocked w1
      end
  | None => Blocked w
  end.

Definition read_errno : M Z := λ w, Done (errno (proc w)) w.

Definition _exit {A} (status : Z) : M A := λ w, Exited status w.

(** [sigsuspend(&set)]: install [set] and sleep, atomically; when a handler
    has returned, put the previous mask back and fail with [EINTR]. *)
Definition sigsuspend (set : sigset) : M Z := λ w,
  let old := sigmask (proc w) in
  let w0 := with_proc (λ p, set_sigmask set (log (E_sigsuspend set) p)) w in
  match suspended (sched (kern w0)) w0 with
  | Some w1 =>
      call (λ w2, Some (-1, with_proc (λ p, set_errno EINTR (set_sigmask old p)) w2)) w1
  | None => Blocked w0
  end.

Definition fork : H Z := λ w,
  let r := fork_ret (os w) in
  if r =? 0 then
    Some (0, with_kern (λ k, set_sigpend 0 (set_wait_queue [] (set_children [] k)))
               (with_proc (log (E_fork 0)) w))
  else if 0 <? r then
    Some (r, with_kern (λ k, set_children (children k ++ [Z.to_pos r]) k)
               (with_proc (log (E_fork r)) w))
  else
    Some (r, with_proc (λ p, set_errno EAGAIN (log (E_fork r) p)) w).

Definition sys_open (path : string) (flags mode : Z) : H Z := λ w,
  match fs_open (os w) path flags mode with
  | inl fd => Some (Z.of_N fd, with_proc (log (E_open path flags mode (Z.of_N fd))) w)
  | inr e => Some (-1, with_proc (λ p, set_errno e (log (E_open path flags mode (-1)) p)) w)
  end.

Definition dup2 (fd fd2 : Z) : H unit := emit (E_dup2 fd fd2).
Definition close (fd : Z) : H unit := emit (E_close fd).
Definition setpgid (pid pgid : Z) : H unit := emit (E_setpgid pid pgid).

(** [execve(path, argv, environ)] returns only when it fails. *)
Definition execve (path : string) (args : list string) : M Z := λ w,
  match fs_execve (os w) path args with
  | None => Execed path args (with_proc (log (E_execve path args 0)) w)
  | Some e =>
      call (λ w', Some (-1, with_proc (λ p, set_errno e (log (E_execve path args (-1)) p)) w')) w
  end.

(** Modelled from the spec: [list_jobs(fd)] of [tsh_helper.c] writes the
    listing of the live jobs to [fd] and reports whether the write
    succeeded. *)
Definition list_jobs (fd : Z) : H bool := λ w,
  if fs_write (os w) fd
  then Some (true, with_proc (λ p, log (E_write fd (JobTable.listing (job_list p)))
                                     (log (E_job (J_list fd) (sigmask p)) p)) w)
  else Some (false, with_proc (λ p, log (E_job (J_list fd) (sigmask p)) p) w).

(** ** [strtol(s, NULL, 10)] and the conversion of its result to [int] *)

Definition char_code (c : Ascii.ascii) : Z := Z.of_nat (Ascii.nat_of_ascii c).

Definition isdigit (c : Ascii.ascii) : bool := (48 <=? char_code c) && (char_code c <=? 57).
Definition isspace (c : Ascii.ascii) : bool :=
  (char_code c =? 32) || ((9 <=? char_code c) && (char_code c <=? 13)).

Definition LONG_MAX : Z := 2 ^ 63 - 1.
Definition LONG_MIN : Z := - 2 ^ 63.

Fixpoint skip_space (s : string) : string :=
  match s with
  | String c s' => if isspace c then skip_space s' else s
  | EmptyString => s
  end.

Fixpoint strtol_digits (acc : Z) (s : string) : Z :=
  match s with
  | String c s' => if isdigit c then strtol_digits (acc * 10 + (char_code c - 48)) s' else acc
  | EmptyString => acc
  end.

Definition strtol (s : string) : Z :=
  let s1 := skip_space s in
  let '(neg, s2) :=
    match s1 with
    | String c s' =>
        if char_code c =? 45 then (true, s')          (* '-' *)
        else if char_code c =? 43 then (false, s')    (* '+' *)
        else (false, s1)
    | EmptyString => (false, s1)
    end in
  let v := strtol_digits 0 s2 in
  Z.max LONG_MIN (Z.min LONG_MAX (if neg : bool then - v else v)).

(** Assigning a [long] to [jid_t] or [pid_t], which are [int]. *)
Definition int_of_long (v : Z) : Z := (v + 2 ^ 31) mod 2 ^ 32 - 2 ^ 31.

(** [s[0]]: the terminating zero for the empty string. *)
Definition first_char (s : string) : Ascii.ascii :=
  match s with String c _ => c | EmptyString => Ascii.zero end.
Definition rest (s : string) : string :=
  match s with String _ s' => s' | EmptyString => EmptyString end.

(** ** The command evaluator *)

(** Modelled from the spec: the result of [parseline] (declared in
    [tsh_helper.h], which is not part of the sources).  Tokenization is
    outside the core: [eval] is given the already-tokenized line. *)
Inductive parseline_return :=
| PARSELINE_FG | PARSELINE_BG | PARSELINE_EMPTY | PARSELINE_ERROR.

(** Modelled from the spec: which built-in command the line names, if
    any ([builtin_state] of [tsh_helper.h]). *)
Inductive builtin_state :=
| BUILTIN_NONE | BUILTIN_QUIT | BUILTIN_JOBS | BUILTIN_BG | BUILTIN_FG.

(** Modelled from the spec: the tokens of the line ([struct cmdline_tokens]
    of [tsh_helper.h]): the arguments and the two redirection files. *)
Record cmdline_tokens := {
  argc : Z;
  argv : list string;
  infile : option string;
  outfile : option string;
  builtin : builtin_state
}.

(** [token.argv[i]] *)
Definition argv_at (token : cmdline_tokens) (i : nat) : string :=
  default EmptyString (argv token !! i).

(** The two-way test on [errno] made after every failed [open] or
    [execve]:
    [if (errno == 2) sio_printf("%s: No such file or directory\n", name);
     else if (errno == 13) sio_printf("%s: Permission denied\n", name);] *)
Definition report_errno (name : string) : M unit :=
  e ← read_errno;
  if e =? 2 then call (sio_printf (name +:+ ": No such file or directory" +:+ nl))
  else if e =? 13 then call (sio_printf (name +:+ ": Permission denied" +:+ nl))
  else mret tt.

(** The loop [while ((fg_job() != 0) && (pid == job_get_pid(fg_job())))
    sigsuspend(&prev_all);] that follows a foreground launch and [fg]. *)
Fixpoint wait_fg (fuel : nat) (prev_all : sigset) (pid : Z) : M unit :=
  match fuel with
  | O => OutOfFuel
  | S fuel' =>
      j ← call fg_job;
      go_on ← (if bool_decide (j ≠ 0) then
                 j' ← call fg_job;
                 p ← call (job_get_pid j');
                 mret (bool_decide (pid = p))
               else mret false);
      if go_on : bool then sigsuspend prev_all;; wait_fg fuel' prev_all pid
      else mret tt
  end.

(** The child, first part: [// input redirection]. *)
Definition redirect_input (token : cmdline_tokens) : M unit :=
  match infile token with
  | Some name =>
      fd ← call (sys_open name O_RDONLY 0);
      if bool_decide (fd ≠ -1) then
        call (dup2 fd STDIN_FILENO);;
        call (close fd)
      else
        report_errno name;;
        _exit 0
  | None => mret tt
  end.

(** The child, second part: [// output redirection]. *)
Definition redirect_output (token : cmdline_tokens) : M unit :=
  match outfile token with
  | Some name =>
      fd ← call (sys_open name (Z.lor (Z.lor O_CREAT O_TRUNC) O_WRONLY) MODE);
      if bool_decide (fd ≠ -1) then
        call (dup2 fd STDOUT_FILENO);;
        call (close fd)
      else
        report_errno name;;
        _exit 0
  | None => mret tt
  end.

(** The body of [if ((pid = fork()) == 0) { ... }]: the child. *)
Definition eval_child (token : cmdline_tokens) (prev_all : sigset) : M unit :=
  redirect_input token;;
  redirect_output token;;
  call (sigprocmask SIG_SETMASK prev_all);;   (* unblock all signals *)
  call (setpgid 0 0);;
  r ← execve (argv_at token 0) (argv token);
  if r <? 0 then
    report_errno (argv_at token 0);;
    _exit 0
  else mret tt.

(** [token.builtin == BUILTIN_NONE]: an external command. *)
Definition eval_external (fuel : nat) (parse_result : parseline_return)
    (token : cmdline_tokens) (cmdline : string) : M unit :=
  prev_all ← call (sigprocmask SIG_BLOCK mask_all);   (* block four signals *)
  pid ← call fork;
  (if pid =? 0 then eval_child token prev_all else mret tt);;
  (* foreground job *)
  match parse_result with
  | PARSELINE_FG =>
      call (add_job pid FG cmdline);;
      wait_fg fuel prev_all pid;;
      call (sigprocmask SIG_SETMASK prev_all);;
      mret tt
  | _ => mret tt
  end;;
  (* background job *)
  match parse_result with
  | PARSELINE_BG =>
      call (sigprocmask SIG_BLOCK mask_all);;
      call (add_job pid BG cmdline);;
      jid ← call (job_from_pid pid);
      call (sigprocmask SIG_SETMASK prev_all);;
      call (sio_printf ("[" +:+ pretty jid +:+ "] (" +:+ pretty pid +:+ ") "
                        +:+ cmdline +:+ nl))
  | _ => mret tt
  end.

(** [token.builtin == BUILTIN_JOBS] *)
Definition eval_jobs (token : cmdline_tokens) : M unit :=
  prev_all ← call (sigprocmask SIG_BLOCK mask_all);
  match outfile token with
  | Some name =>
      fd ← call (sys_open name (Z.lor (Z.lor O_CREAT O_TRUNC) O_WRONLY) MODE);
      if bool_decide (fd ≠ -1) then
        ok ← call (list_jobs fd);
        (if ok : bool then mret tt
         else call (sio_printf ("Fails to write into job list." +:+ nl)));;
        call (close fd)
      else
        report_errno name
  | None =>
      ok ← call (list_jobs STDOUT_FILENO);
      if ok : bool then mret tt
      else call (sio_printf ("Fails to write into job list." +:+ nl))
  end;;
  call (sigprocmask SIG_SETMASK prev_all);;
  mret tt.

(** The part that the [bg] and [fg] blocks have in common, up to the
    resolution of the argument; [name] is ["bg"] or ["fg"].  [None] stands
    for the [return] of the three error paths. *)
Definition resolve_job (name : string) (token : cmdline_tokens) (prev_all : sigset)
  : M (option (Z * Z)) :=
  if argc token =? 1 then
    call (sio_printf (name +:+ " command requires PID or %jobid argument" +:+ nl));;
    call (sigprocmask SIG_SETMASK prev_all);;
    mret None
  else
    let arg := argv_at token 1 in
    if negb (char_code (first_char arg) =? 37) && negb (isdigit (first_char arg)) then
      call (sio_printf (name +:+ ": argument must be a PID or %jobid" +:+ nl));;
      call (sigprocmask SIG_SETMASK prev_all);;
      mret None
    else if char_code (first_char arg) =? 37 then
      let num := rest arg in
      let jid := int_of_long (strtol num) in
      found ← call (job_exists jid);
      if found : bool then
        pid ← call (job_get_pid jid);
        mret (Some (jid, pid))
      else
        call (sio_printf (arg +:+ ": No such job" +:+ nl));;
        call (sigprocmask SIG_SETMASK prev_all);;
        mret None
    else
      let num := arg in
      let pid := int_of_long (strtol num) in
      jid ← call (job_from_pid pid);
      found ← call (job_exists jid);
      if found : bool then mret (Some (jid, pid))
      else
        call (sio_printf (arg +:+ ": No such job" +:+ nl));;
        call (sigprocmask SIG_SETMASK prev_all);;
        mret None.

(** [token.builtin == BUILTIN_BG] *)
Definition eval_bg (token : cmdline_tokens) : M unit :=
  prev_all ← call (sigprocmask SIG_BLOCK mask_all);
  r ← resolve_job "bg" token prev_all;
  match r with
  | None => mret tt
  | Some (jid, pid) =>
      cmd ← call (job_get_cmdline jid);
      call (sio_printf ("[" +:+ pretty jid +:+ "] (" +:+ pretty pid +:+ ") " +:+ cmd +:+ nl));;
      call (kill (- pid) SIGCONT);;
      call (job_set_state jid BG);;
      call (sigprocmask SIG_SETMASK prev_all);;
      mret tt
  end.

(** [token.builtin == BUILTIN_FG] *)
Definition eval_fg (fuel : nat) (token : cmdline_tokens) : M unit :=
  prev_all ← call (sigprocmask SIG_BLOCK mask_all);
  r ← resolve_job "fg" token prev_all;
  match r with
  | None => mret tt
  | Some (jid, pid) =>
      call (kill (- pid) SIGCONT);;
      call (job_set_state jid FG);;
      wait_fg fuel prev_all pid;;
      call (sigprocmask SIG_SETMASK prev_all);;
      mret tt
  end.

(** [eval], after [parseline]: [parse_result] and [token] are what
    [parseline(cmdline, &token)] returned.  The blocks test [token.builtin]
    in turn and at most one of them runs. *)
Definition eval (fuel : nat) (parse_result : parseline_return)
    (token : cmdline_tokens) (cmdline : string) : M unit :=
  match parse_result with
  | PARSELINE_ERROR | PARSELINE_EMPTY => mret tt
  | _ =>
      match builtin token with
      | BUILTIN_NONE => eval_external fuel parse_result token cmdline
      | BUILTIN_QUIT => _exit 0
      | BUILTIN_JOBS => eval_jobs token
      | BUILTIN_BG => eval_bg token
      | BUILTIN_FG => eval_fg fuel token
      end
  end.

(** * What the code is expected to do

    Definitions used to state the properties: the events that a piece of
    code is expected to add to the trace, and the job list it is expected
    to leave. *)

Definition add_events (evs : list event) (p : process) : process :=
  set_trace (trace p ++ evs) p.

(** The options of the [waitpid] call in [sigchld_handler]. *)
Definition wait_options : Z := Z.lor WNOHANG WUNTRACED.

(** *** The interrupt and stop handlers *)

(** Forwarding [sig] to the foreground job, if there is one. *)
Definition forward_events (sig : Z) (p : process) : list event :=
  let m := Z.lor (sigmask p) mask_all in
  let jid := JobTable.fg_job (job_list p) in
  [E_sigprocmask SIG_BLOCK mask_all m; E_job J_fg_job m]
  ++ (if bool_decide (jid ≠ 0)
      then [E_job (J_get_pid jid) m; E_kill (- JobTable.job_get_pid jid (job_list p)) sig]
      else [])
  ++ [E_sigprocmask SIG_SETMASK (sigmask p) (sigmask p)].

(** *** The child-status handler *)

Definition stop_message (jid pid n : Z) : string :=
  "Job [" +:+ pretty jid +:+ "] (" +:+ pretty pid +:+ ") stopped by signal "
  +:+ pretty n +:+ nl.
Definition term_message (jid pid n : Z) : string :=
  "Job [" +:+ pretty jid +:+ "] (" +:+ pretty pid +:+ ") terminated by signal "
  +:+ pretty n +:+ nl.

(** The job list after the status change [st] of child [pid] was handled. *)
Definition reap_jobs (pid : Z) (st : wstatus) (jl : list job) : list job :=
  let jid := JobTable.job_from_pid pid jl in
  match st with
  | W_STOPPED _ => JobTable.job_set_state jid ST jl
  | W_SIGNALED _ | W_EXITED _ => JobTable.delete_job jid jl
  | W_CONTINUED => JobTable.job_set_state jid FG jl
  end.

(** What is printed for it. *)
Definition reap_message (pid : Z) (st : wstatus) (jl : list job) : list string :=
  let jid := JobTable.job_from_pid pid jl in
  match st with
  | W_STOPPED n => [stop_message jid pid n]
  | W_SIGNALED n => [term_message jid pid n]
  | W_EXITED _ | W_CONTINUED => []
  end.

(** The calls made for it. *)
Definition reap_events (pid : Z) (st : wstatus) (p : process) : list event :=
  let m := Z.lor (sigmask p) mask_all in
  let jid := JobTable.job_from_pid pid (job_list p) in
  [E_sigprocmask SIG_BLOCK mask_all m; E_job (J_from_pid pid) m]
  ++ match st with
     | W_STOPPED n => [E_job (J_set_state jid ST) m; E_print (stop_message jid pid n)]
     | W_SIGNALED n => [E_print (term_message jid pid n); E_job (J_delete jid) m]
     | W_EXITED _ => [E_job (J_delete jid) m]
     | W_CONTINUED => [E_job (J_set_state jid FG) m]
     end
  ++ [E_sigprocmask SIG_SETMASK (sigmask p) (sigmask p)].

Definition reap_one (pid : Z) (st : wstatus) (p : process) : process :=
  set_job_list (reap_jobs pid st (job_list p)) (add_events (reap_events pid st p) p).

(** Each status change in [rs] is waited for, then handled. *)
Fixpoint reap_all (rs : list (positive * wstatus)) (p : process) : process :=
  match rs with
  | [] => p
  | (pid, st) :: rs' =>
      reap_all rs'
        (reap_one (Z.pos pid) st (log (E_waitpid wait_options (Z.pos pid) (Some st)) p))
  end.

(** The queued status changes that [waitpid] reports with [wait_options],
    and those it leaves in the queue. *)
Definition reported (q : list (positive * wstatus)) : list (positive * wstatus) :=
  List.filter (λ r, reportable wait_options r.2) q.
Definition unreported (q : list (positive * wstatus)) : list (positive * wstatus) :=
  List.filter (λ r, negb (reportable wait_options r.2)) q.

Definition after_reaping (rs : list (positive * wstatus)) (c : list positive)
  : list positive :=
  foldl (λ c r, reap r.1 r.2 c) c rs.

(** The last call of [waitpid], which finds nothing to report. *)
Definition last_wait (c : list positive) (p : process) : process :=
  match c with
  | [] => set_errno ECHILD (log (E_waitpid wait_options (-1) None) p)
  | _ :: _ => log (E_waitpid wait_options 0 None) p
  end.

Definition sigchld_loop_result (w : world) : world :=
  let rs := reported (wait_queue (kern w)) in
  let c := after_reaping rs (children (kern w)) in
  {| proc := last_wait c (reap_all rs (proc w));
     kern := set_children c (set_wait_queue (unreported (wait_queue (kern w))) (kern w));
     os := os w |}.

(** The texts printed by a sequence of events. *)
Definition printed (tr : list event) : list string :=
  omap (λ e, match e with E_print s => Some s | _ => None end) tr.

(** The signals sent by a sequence of events. *)
Definition killed (tr : list event) : list (Z * Z) :=
  omap (λ e, match e with E_kill p s => Some (p, s) | _ => None end) tr.

(** A call of the body of a built-in: output, [kill], [sigprocmask], or a
    job-list access made with every signal blocked.  Neither a suspension
    nor a signal delivery. *)
Definition builtin_event (e : event) : Prop :=
  match e with
  | E_job _ m => blocks_all m
  | E_print _ | E_kill _ _ | E_sigprocmask _ _ _ => True
  | _ => False
  end.

(** A job-list access made with every signal blocked. *)
Definition access_blocked (e : event) : Prop :=
  match e with
  | E_job _ m => blocks_all m
  | _ => True
  end.

(** *** The foreground wait *)

(** The condition of the loop: [fg_job() != 0 && pid == job_get_pid(fg_job())]. *)
Definition waiting (pid : Z) (jl : list job) : bool :=
  bool_decide (JobTable.fg_job jl ≠ 0)
  && bool_decide (pid = JobTable.job_get_pid (JobTable.fg_job jl) jl).

Definition is_signal (e : event) : Prop :=
  match e with E_signal _ _ => True | _ => False end.

(** Among [tr] is a run of the child-status handler that reaped a stop, an
    exit or a termination by signal of [pid]. *)
Definition reaped_in (pid : Z) (tr : list event) : Prop :=
  ∃ body st,
    In (E_signal SIGCHLD body) tr
    ∧ In (E_waitpid wait_options pid (Some st)) body
    ∧ (WIFSTOPPED st || WIFEXITED st || WIFSIGNALED st = true).

(** The job list and the messages after a sequence of status changes. *)
Fixpoint reap_all_jobs (rs : list (positive * wstatus)) (jl : list job) : list job :=
  match rs with
  | [] => jl
  | (pid, st) :: rs' => reap_all_jobs rs' (reap_jobs (Z.pos pid) st jl)
  end.

Fixpoint reap_all_messages (rs : list (positive * wstatus)) (jl : list job)
  : list string :=
  match rs with
  | [] => []
  | (pid, st) :: rs' =>
      reap_message (Z.pos pid) st jl
      ++ reap_all_messages rs' (reap_jobs (Z.pos pid) st jl)
  end.

(** The status changes that a sequence of events waited for. *)
Definition waited (tr : list event) : list (Z * wstatus) :=
  omap (λ e, match e with E_waitpid _ p (Some st) => Some (p, st) | _ => None end) tr.

(** A handler that returns, with [errno] and the signal mask as it found
    them, and that touched the job list only with every signal blocked. *)
Definition well_behaved (handler : Z → H unit) : Prop :=
  ∀ sig w, ∃ w' new,
    handler sig w = Some (tt, w')
    ∧ errno (proc w') = errno (proc w)
    ∧ sigmask (proc w') = sigmask (proc w)
    ∧ trace (proc w') = trace (proc w) ++ new
    ∧ Forall access_blocked new.

(** What signal deliveries may change between [w] and [w']: the mask,
    [errno] and the oracle are untouched, the trace grows by deliveries
    only, and the loop condition of the foreground wait can only turn
    false through a reaped stop, exit or termination of that process. *)
Definition delivered (w w' : world) : Prop :=
  sigmask (proc w') = sigmask (proc w)
  ∧ errno (proc w') = errno (proc w)
  ∧ os w' = os w
  ∧ ∃ sigs, trace (proc w') = trace (proc w) ++ sigs
      ∧ Forall is_signal sigs
      ∧ ∀ pid, waiting pid (job_list (proc w)) = true →
               waiting pid (job_list (proc w')) = false →
               reaped_in pid sigs.

(** A computation of the main line that only adds to the trace. *)
Definition grows {A} (m : M A) : Prop :=
  ∀ w, ∃ new, trace (proc (final (m w))) = trace (proc w) ++ new.

Definition grows_H {A} (h : H A) : Prop :=
  ∀ w a w', h w = Some (a, w') → ∃ new, trace (proc w') = trace (proc w) ++ new.

(** The calls of the foreground wait: reads of the job list with every
    signal blocked, [sigsuspend] with the mask saved before blocking, and
    the signal deliveries that wake it up. *)
Definition wait_event (prev_all : sigset) (e : event) : Prop :=
  match e with
  | E_job J_fg_job m | E_job (J_get_pid _) m => blocks_all m
  | E_sigsuspend s => s = prev_all
  | E_signal _ _ => True
  | _ => False
  end.

(** The loop of the foreground wait ran from [w] and left at [w1]. *)
Definition returned_from_wait (prev_all : sigset) (pid : Z) (w w1 : world) : Prop :=
  sigmask (proc w1) = sigmask (proc w)
  ∧ waiting pid (job_list (proc w1)) = false
  ∧ ∃ new, trace (proc w1) = trace (proc w) ++ new
      ∧ Forall (wait_event prev_all) new
      ∧ (waiting pid (job_list (proc w)) = true →
         In (E_sigsuspend prev_all) new ∧ reaped_in pid new).

Definition wait_post (prev_all : sigset) (pid : Z) (w : world) (o : outcome unit) : Prop :=
  match o with
  | Done _ w1 => returned_from_wait prev_all pid w w1
  | _ => True
  end.

(** *** The [bg] and [fg] built-ins *)

Definition missing_argument (name : string) : string :=
  name +:+ " command requires PID or %jobid argument" +:+ nl.
Definition bad_argument (name : string) : string :=
  name +:+ ": argument must be a PID or %jobid" +:+ nl.
Definition no_such_job (arg : string) : string :=
  arg +:+ ": No such job" +:+ nl.

(** How the argument of [bg] or [fg] is resolved on the job list [jl]: to
    an error message, or to the job id and the process id of a live job. *)
Definition resolved (name : string) (token : cmdline_tokens) (jl : list job)
  : string + Z * Z :=
  if argc token =? 1 then inl (missing_argument name)
  else
    let arg := argv_at token 1 in
    if negb (char_code (first_char arg) =? 37) && negb (isdigit (first_char arg))
    then inl (bad_argument name)
    else
      let r :=
        if char_code (first_char arg) =? 37
        then let jid := int_of_long (strtol (rest arg)) in
             (jid, JobTable.job_get_pid jid jl)
        else let pid := int_of_long (strtol arg) in
             (JobTable.job_from_pid pid jl, pid) in
      if JobTable.job_exists r.1 jl then inr r else inl (no_such_job arg).

(** The line that [bg] prints for the job it resumes. *)
Definition job_line (jid pid : Z) (cmd : string) : string :=
  "[" +:+ pretty jid +:+ "] (" +:+ pretty pid +:+ ") " +:+ cmd +:+ nl.

(** The longest prefix of [s] made of decimal digits. *)
Fixpoint leading_digits (s : string) : string :=
  match s with
  | String c s' => if isdigit c then String c (leading_digits s') else EmptyString
  | EmptyString => EmptyString
  end.

(** A bare number: one or more decimal digits and nothing else. *)
Fixpoint all_digits (s : string) : bool :=
  match s with
  | String c s' => isdigit c && all_digits s'
  | EmptyString => true
  end.
Definition bare_number (s : string) : bool :=
  match s with
  | String _ _ => all_digits s
  | EmptyString => false
  end.

(** The shape that the specification asks of the argument: a bare number,
    or ['%'] followed by a bare number. *)
Definition number_or_percent_number (s : string) : bool :=
  bare_number s || ((char_code (first_char s) =? 37) && bare_number (rest s)).

(** *** Sample worlds *)

Definition quiet_oracle : oracle :=
  {| fork_ret := 100;
     fs_open := λ _ _ _, inl 3%N;
     fs_execve := λ _ _, None;
     fs_write := λ _, true |}.

Definition make_world (m : sigset) (jl : list job) (c : list positive)
    (q : list (positive * wstatus)) (pend : sigset) (s : list env_step) (o : oracle)
  : world :=
  {| proc := {| sigmask := m; errno := 0; job_list := jl; trace := [] |};
     kern := {| sigpend := pend; children := c; wait_queue := q; sched := s |};
     os := o |}.

Definition make_tokens (b : builtin_state) (args : list string)
    (i o : option string) : cmdline_tokens :=
  {| argc := Z.of_nat (length args); argv := args; infile := i; outfile := o;
     builtin := b |}.

(** One job, stopped, with process id 12, in a table of four slots. *)
Definition one_stopped_job : list job :=
  [{| j_pid := 12; j_state := ST; j_cmdline := "sleep 5" |};
   empty_job; empty_job; empty_job].

(** *** Launching in the child *)

(** What is printed for the error number [e] of a call on [name]. *)
Definition diagnostic (name : string) (e : Z) : list string :=
  if e =? 2 then [name +:+ ": No such file or directory" +:+ nl]
  else if e =? 13 then [name +:+ ": Permission denied" +:+ nl]
  else [].

Definition output_flags : Z := Z.lor (Z.lor O_CREAT O_TRUNC) O_WRONLY.

(** The shape shared by the two redirections of the child. *)
Definition redirect (file : option string) (flags mode target : Z) : M unit :=
  match file with
  | Some name =>
      fd ← call (sys_open name flags mode);
      if bool_decide (fd ≠ -1) then
        call (dup2 fd target);;
        call (close fd)
      else
        report_errno name;;
        _exit 0
  | None => mret tt
  end.

(** The file whose [open] fails, with the error number. *)
Definition open_failure (o : oracle) (file : option string) (flags mode : Z)
  : option (string * Z) :=
  match file with
  | Some name =>
      match fs_open o name flags mode with
      | inr e => Some (name, e)
      | inl _ => None
      end
  | None => None
  end.

Definition exec_failure (o : oracle) (token : cmdline_tokens) : option (string * Z) :=
  match fs_execve o (argv_at token 0) (argv token) with
  | Some e => Some (argv_at token 0, e)
  | None => None
  end.

(** The first of the three steps of the child that fails, if any. *)
Definition launch_failure (o : oracle) (token : cmdline_tokens) : option (string * Z) :=
  match open_failure o (infile token) O_RDONLY 0 with
  | Some f => Some f
  | None =>
      match open_failure o (outfile token) output_flags MODE with
      | Some f => Some f
      | None => exec_failure o token
      end
  end.

(** The child after its redirections. *)
Definition child_exec (token : cmdline_tokens) (prev_all : sigset) : M unit :=
  call (sigprocmask SIG_SETMASK prev_all);;
  call (setpgid 0 0);;
  r ← execve (argv_at token 0) (argv token);
  if r <? 0 then
    report_errno (argv_at token 0);;
    _exit 0
  else mret tt.

(** How the child ends: [Exited 0] after the diagnostic of the failure, or
    running the program. *)
Definition child_ends {A} (o : oracle) (token : cmdline_tokens) (w : world)
    (out : outcome A) : Prop :=
  match launch_failure o token with
  | Some (name, e) =>
      ∃ w' new, out = Exited 0 w'
                ∧ trace (proc w') = trace (proc w) ++ new
                ∧ printed new = diagnostic name e
  | None =>
      ∃ w' new, out = Execed (argv_at token 0) (argv token) w'
                ∧ trace (proc w') = trace (proc w) ++ new
                ∧ printed new = []
  end.

(** One foreground job with process id 100, every signal blocked, and a
    schedule in which that child exits. *)
Definition one_foreground_job : list job :=
  [{| j_pid := 100; j_state := FG; j_cmdline := "sleep 5" |};
   empty_job; empty_job; empty_job].

Definition waiting_world : world :=
  make_world mask_all one_foreground_job [100%positive] [] 0
    [Env_child 100 (W_EXITED 0)] quiet_oracle.

(** A stopped job whose process has just been continued. *)
Definition continued_world : world :=
  make_world 0 one_stopped_job [12%positive] [(12%positive, W_CONTINUED)]
    (Z.setbit 0 (SIGCHLD - 1)) [] quiet_oracle.

(** The shell at its prompt, with an empty table of four slots. *)
Definition idle_world (o : oracle) (s : list env_step) : world :=
  make_world 0 (JobTable.init_job_list 4) [] [] 0 s o.

(** A table of one slot, taken by a background job. *)
Definition full_table : list job :=
  [{| j_pid := 7; j_state := BG; j_cmdline := "sleep 9 &" |}].

Definition full_world : world :=
  make_world 0 full_table [7%positive] [] 0 [] quiet_oracle.

(** In the child; the input file is missing. *)
Definition missing_input_oracle : oracle :=
  {| fork_ret := 0;
     fs_open := λ _ _ _, inr ENOENT;
     fs_execve := λ _ _, None;
     fs_write := λ _, true |}.

(** In the child; every file opens. *)
Definition child_oracle : oracle :=
  {| fork_ret := 0;
     fs_open := λ _ _ _, inl 3%N;
     fs_execve := λ _ _, None;
     fs_write := λ _, true |}.

(** *** Fuel of the foreground wait *)

(** How many of the three handled signals are pending in [s]. *)
Definition pending_handled (s : sigset) : nat :=
  ((if sigismember s SIGINT then 1 else 0)
   + (if sigismember s SIGCHLD then 1 else 0)
   + (if sigismember s SIGTSTP then 1 else 0))%nat.

(** What can still wake the shell up: the steps of the schedule and the
    handled signals that are pending. *)
Definition wait_measure (w : world) : nat :=
  (length (sched (kern w)) + pending_handled (sigpend (kern w)))%nat.

(** A handler run clears its pending signal and leaves the schedule and
    the other pending signals alone. *)
Definition clears (sig : Z) (w w' : world) : Prop :=
  sigpend (kern w') = Z.clearbit (sigpend (kern w)) (sig - 1)
  ∧ sched (kern w') = sched (kern w)
  ∧ sigmask (proc w') = sigmask (proc w).
(** * What a command leaves behind

    Definitions used to state properties of the whole of [eval] and of the
    read/eval loop of [main]. *)

(** What a handler calls: [sigprocmask], [waitpid], [kill], [sio_printf],
    and the job list with every signal blocked. *)
Definition handler_event (e : event) : Prop :=
  match e with
  | E_job _ m => blocks_all m
  | E_sigprocmask _ _ _ | E_waitpid _ _ _ | E_kill _ _ | E_print _ => True
  | _ => False
  end.

(** A signal delivery whose handler made only such calls. *)
Definition handler_run (e : event) : Prop :=
  match e with
  | E_signal _ body => Forall handler_event body
  | _ => False
  end.

(** Every foreground job of [jl'] is the same job, in the same slot, of
    [jl]: no job was put in the foreground. *)
Definition no_new_fg (jl jl' : list job) : Prop :=
  ∀ i j, jl' !! i = Some j → j_state j = FG → jl !! i = Some j.

(** What the handlers that interrupt the main line between [w] and [w']
    may have changed. *)
Definition interrupted (w w' : world) : Prop :=
  sigmask (proc w') = sigmask (proc w)
  ∧ os w' = os w
  ∧ no_new_fg (job_list (proc w)) (job_list (proc w'))
  ∧ ∃ sigs, trace (proc w') = trace (proc w) ++ sigs ∧ Forall handler_run sigs.

(** The calls of the foreground wait, with what the handlers that wake it
    up may call. *)
Definition wait_step (prev_all : sigset) (e : event) : Prop :=
  match e with
  | E_job J_fg_job m | E_job (J_get_pid _) m => blocks_all m
  | E_sigsuspend s => s = prev_all
  | E_signal _ body => Forall handler_event body
  | _ => False
  end.

(** How the foreground wait, entered at [w], ends. *)
Definition wait_run (prev_all : sigset) (pid : Z) (w : world) (o : outcome unit) : Prop :=
  os (final o) = os w
  ∧ no_new_fg (job_list (proc w)) (job_list (proc (final o)))
  ∧ (∃ new, trace (proc (final o)) = trace (proc w) ++ new
       ∧ Forall (wait_step prev_all) new)
  ∧ match o with
    | Done _ w1 =>
        sigmask (proc w1) = sigmask (proc w)
        ∧ waiting pid (job_list (proc w1)) = false
    | Blocked _ | OutOfFuel _ => True
    | _ => False
    end.

(** *** Judgements on the main line *)

(** From [w] to [w'] the trace grew by events that satisfy [T]. *)
Definition appends (T : list event → Prop) (w w' : world) : Prop :=
  ∃ new, trace (proc w') = trace (proc w) ++ new ∧ T new.

(** Started with a signal mask that satisfies [P], the computation [m]
    adds to the trace events that satisfy [T], however it ends; and if it
    returns [a], the mask then satisfies [Q a]. *)
Definition run (T : list event → Prop) (P : sigset → Prop) {A} (m : M A)
    (Q : A → sigset → Prop) : Prop :=
  ∀ w, P (sigmask (proc w)) →
       appends T w (final (m w))
       ∧ ∀ a w', m w = Done a w' → Q a (sigmask (proc w')).

(** The calls of [bg], of [fg], of the foreground wait and of the parent
    after [fork]: the signal mask, the job list with every signal blocked,
    output, [kill] and [sigsuspend]. *)
Definition table_call (e : event) : Prop :=
  match e with
  | E_job _ m => blocks_all m
  | E_sigprocmask _ _ _ | E_print _ | E_kill _ _ | E_sigsuspend _ => True
  | _ => False
  end.

(** The file calls of [jobs]. *)
Definition listing_call (e : event) : Prop :=
  match e with
  | E_open _ _ _ _ | E_write _ _ | E_close _ => True
  | _ => False
  end.

(** The file calls of a redirection in the child. *)
Definition file_call (e : event) : Prop :=
  match e with
  | E_open _ _ _ _ | E_dup2 _ _ | E_close _ => True
  | _ => False
  end.

(** The last calls of the child: its process group, and the program. *)
Definition exec_call (e : event) : Prop :=
  match e with
  | E_setpgid _ _ | E_execve _ _ _ => True
  | _ => False
  end.

(** An access to the job list is made with every signal blocked, in the
    main line and in the handlers that interrupt it. *)
Definition guarded (e : event) : Prop :=
  match e with
  | E_job _ m => blocks_all m
  | E_signal _ body => Forall access_blocked body
  | _ => True
  end.

(** What is done in the shell process itself: no [fork], no [execve], no
    change of the standard descriptors or of the process group, in the main
    line or in a handler. *)
Definition in_process (e : event) : Prop :=
  match e with
  | E_fork _ | E_execve _ _ _ | E_dup2 _ _ | E_setpgid _ _ => False
  | E_signal _ body => Forall handler_event body
  | _ => True
  end.

(** A computation of the main line that puts no job in the foreground. *)
Definition calm {A} (m : M A) : Prop :=
  ∀ w, no_new_fg (job_list (proc w)) (job_list (proc (final (m w)))).

(** Every foreground job of [jl] is the job of process [pid]. *)
Definition only_fg (pid : Z) (jl : list job) : Prop :=
  ∀ i j, jl !! i = Some j → j_state j = FG → j_pid j = pid.

(** *** File descriptors *)

(** The descriptors that the [open] calls of a trace returned, and those
    that its [close] calls closed, in order. *)
Definition opened (tr : list event) : list Z :=
  omap (λ e, match e with
             | E_open _ _ _ ret => if bool_decide (ret = -1) then None else Some ret
             | _ => None
             end) tr.
Definition closed (tr : list event) : list Z :=
  omap (λ e, match e with E_close fd => Some fd | _ => None end) tr.

(** Every descriptor that was opened has been closed. *)
Definition balanced (tr : list event) : Prop := closed tr = opened tr.

(** No descriptor was opened or closed. *)
Definition no_descriptor (tr : list event) : Prop := closed tr = [] ∧ opened tr = [].

(** A call that neither opens nor closes. *)
Definition other_call (e : event) : Prop :=
  match e with
  | E_open _ _ _ _ | E_close _ | E_signal _ _ => False
  | _ => True
  end.

(** *** Launching *)

Definition is_suspend (e : event) : Prop :=
  match e with E_sigsuspend _ => True | _ => False end.

(** The calls of a redirection that succeeds, for the descriptor that the
    oracle gives. *)
Definition redirected (o : oracle) (file : option string) (flags mode target : Z)
  : list event :=
  match file with
  | Some name =>
      match fs_open o name flags mode with
      | inl fd => [E_open name flags mode (Z.of_N fd); E_dup2 (Z.of_N fd) target;
                   E_close (Z.of_N fd)]
      | inr _ => []
      end
  | None => []
  end.

(** *** The [jobs] built-in *)

(** What a sequence of events wrote, and to which descriptor. *)
Definition written (tr : list event) : list (Z * string) :=
  omap (λ e, match e with E_write fd s => Some (fd, s) | _ => None end) tr.

Definition write_failure : string := "Fails to write into job list." +:+ nl.

(** What [jobs] writes for the job list [jl], and what it prints on the
    standard output instead when it cannot: the listing goes to the
    redirection file if there is one and it opens, to the standard output
    if there is none. *)
Definition jobs_output (o : oracle) (token : cmdline_tokens) (jl : list job)
  : list (Z * string) * list string :=
  let list_to fd :=
    if fs_write o fd then ([(fd, JobTable.listing jl)], []) else ([], [write_failure]) in
  match outfile token with
  | Some name =>
      match fs_open o name output_flags MODE with
      | inl fd => list_to (Z.of_N fd)
      | inr e => ([], diagnostic name e)
      end
  | None => list_to STDOUT_FILENO
  end.

(** * The read/eval loop of [main]

    The loop [while (true) { ... }] that ends [main]: it prints the prompt,
    reads a line with [fgets], stops at the end of the input, and gives the
    line without its newline to [eval].  What [main] does before the loop
    (the options, the environment, the installation of the handlers) is
    not part of this model; the handlers are installed, as [deliver] has
    them. *)

Definition STDERR_FILENO : Z := 2.

(** [stdin]: the characters not read yet; the error number, if any, that a
    read past the last of them fails with instead of meeting the end of the
    file; and the two indicators that [feof] and [ferror] test. *)
Record stream := {
  unread : string;
  breaks : option Z;
  at_eof : bool;
  in_error : bool
}.

Definition feof (f : stream) : bool := at_eof f.
Definition ferror (f : stream) : bool := in_error f.

Definition is_newline (c : Ascii.ascii) : bool := char_code c =? 10.

(** What [fgets] takes from the input for a buffer with room for [n]
    characters: the characters up to and including the first newline, what
    is left unread, and whether the end of the input was met before a
    newline and before the buffer was full. *)
Fixpoint take_line (n : nat) (s : string) : string * string * bool :=
  match n with
  | O => (EmptyString, s, false)
  | S n' =>
      match s with
      | EmptyString => (EmptyString, EmptyString, true)
      | String c s' =>
          if is_newline c then (String c EmptyString, s', false)
          else let r := take_line n' s' in (String c r.1.1, r.1.2, r.2)
      end
  end.

(** [fgets(cmdline, size, stdin)].  The result tells whether the return
    value is not [NULL], and gives the buffer and the stream afterwards.
    At most [size - 1] characters are stored.  At the end of the input the
    end-of-file indicator is set, and [NULL] is returned if no character
    was read; on a read error the error indicator and [errno] are set and
    [NULL] is returned.  When [NULL] is returned the buffer is left as it
    was. *)
Definition fgets (cmdline : string) (size : nat) (f : stream)
  : H (bool * string * stream) := λ w,
  let r := take_line (size - 1) (unread f) in
  if r.2 then
    match breaks f with
    | Some e =>
        Some ((false, cmdline,
               {| unread := r.1.2; breaks := breaks f; at_eof := at_eof f;
                  in_error := true |}),
              with_proc (set_errno e) w)
    | None =>
        let f' := {| unread := r.1.2; breaks := breaks f; at_eof := true;
                     in_error := in_error f |} in
        match r.1.1 with
        | EmptyString => Some ((false, cmdline, f'), w)
        | String _ _ => Some ((true, r.1.1, f'), w)
        end
    end
  else
    Some ((true, r.1.1,
           {| unread := r.1.2; breaks := breaks f; at_eof := at_eof f;
              in_error := in_error f |}), w).

(** [printf] on [stdout], which [main] has made line buffered and flushes
    after the prompt: the text is written when the call is made. *)
Definition printf (text : string) : H unit := emit (E_print text).

(** [exit(status)]; the function that [main] registered with [atexit] is
    not part of this model. *)
Definition exit {A} (status : Z) : M A := λ w, Exited status w.

Definition is_nul (c : Ascii.ascii) : bool := char_code c =? 0.

(** The buffer [cmdline] is the characters that [fgets] stored, which may
    include zero bytes of the input; [fgets] ends them with a zero byte.
    The C string in a buffer is what comes before its first zero byte:
    that is what [strchr], [parseline] and [eval] see of it. *)
Fixpoint c_string (s : string) : string :=
  match s with
  | EmptyString => EmptyString
  | String c s' => if is_nul c then EmptyString else String c (c_string s')
  end.

(** [char *newline = strchr(cmdline, '\n'); if (newline != NULL) *newline = '\0';]
    [strchr] looks no further than the end of the C string. *)
Fixpoint remove_newline (s : string) : string :=
  match s with
  | EmptyString => EmptyString
  | String c s' =>
      if is_nul c then s
      else if is_newline c then String Ascii.zero s'
      else String c (remove_newline s')
  end.

Section Main.
(** [parseline], [prompt] and [MAXLINE_TSH] come from [tsh_helper.h] and
    [strerror] from the C library; the loop is modelled for any of them. *)
Variable parseline : string → parseline_return * cmdline_tokens.
Variable prompt : string.
Variable MAXLINE_TSH : nat.
Variable strerror : Z → string.

(** [perror(s)], on the standard error. *)
Definition perror (s : string) : H unit := λ w,
  emit (E_write STDERR_FILENO (s +:+ ": " +:+ strerror (errno (proc w)) +:+ nl)) w.

(** The loop, with [n] the number of iterations it may make; [cmdline] is
    the buffer and [emit_prompt] the flag that the option [-p] clears. *)
Fixpoint read_eval_loop (n fuel : nat) (emit_prompt : bool) (cmdline : string)
    (stdin : stream) : M Z :=
  match n with
  | O => OutOfFuel
  | S n' =>
      (if emit_prompt then call (printf prompt) else mret tt);;
      r ← call (fgets cmdline MAXLINE_TSH stdin);
      if negb r.1.1 && ferror r.2 then
        call (perror "fgets error");;
        exit 1
      else if feof r.2 then
        (* End of file (Ctrl-D) *)
        call (printf nl);;
        mret 0
      else
        (* Remove any trailing newline *)
        let cmdline := remove_newline r.1.2 in
        (* Evaluate the command line *)
        eval fuel (parseline (c_string cmdline)).1 (parseline (c_string cmdline)).2
          (c_string cmdline);;
        read_eval_loop n' fuel emit_prompt cmdline r.2
  end.

(** *** What the loop is expected to do with lines of input *)

(** The window of a read that returns. *)
Definition pause : H unit := mret tt.

(** The lines [ls] are evaluated in order; then the end of the input is
    met. *)
Fixpoint run_lines (fuel : nat) (emit_prompt : bool) (ls : list string) : M Z :=
  match ls with
  | [] =>
      (if emit_prompt then call (printf prompt) else mret tt);;
      call pause;;
      call (printf nl);;
      mret 0
  | l :: ls' =>
      (if emit_prompt then call (printf prompt) else mret tt);;
      call pause;;
      eval fuel (parseline l).1 (parseline l).2 l;;
      run_lines fuel emit_prompt ls'
  end.

(** A line that fits in the buffer with its newline. *)
Definition fits (l : string) : Prop :=
  (String.length l + 2 ≤ MAXLINE_TSH)%nat.
End Main.

Fixpoint has_newline (s : string) : bool :=
  match s with
  | EmptyString => false
  | String c s' => is_newline c || has_newline s'
  end.

(** The longest part of [s], from its start, that fills whole buffers of
    [k] characters. *)
Definition whole_chunks (k : nat) (s : string) : string :=
  String.substring 0 (k * Nat.div (String.length s) k) s.

(** The input made of the lines [ls], each ended by a newline. *)
Fixpoint lines_text (ls : list string) : string :=
  match ls with
  | [] => EmptyString
  | l :: ls' => l +:+ nl +:+ lines_text ls'
  end.

(** A stream on which nothing has been read yet. *)
Definition stream_of (text : string) : stream :=
  {| unread := text; breaks := None; at_eof := false; in_error := false |}.

(** *** Sample runs *)

(** The shell at its prompt; the child that it forks exits while the parent
    still has every signal blocked. *)
Definition launch_world : world :=
  idle_world quiet_oracle [Env_tick; Env_tick; Env_child 100 (W_EXITED 0)].

Definition sleep_tokens : cmdline_tokens :=
  make_tokens BUILTIN_NONE ["sleep"; "5"] None None.

(** In the child, with the signals 1 and 3 blocked before the launch. *)
Definition child_world : world :=
  make_world 5 (JobTable.init_job_list 4) [] [] 0 [] child_oracle.

Definition cat_tokens : cmdline_tokens :=
  make_tokens BUILTIN_NONE ["/bin/cat"] (Some "in") (Some "out").

(** A tokenizer that knows two commands. *)
Definition sample_parseline (s : string) : parseline_return * cmdline_tokens :=
  if bool_decide (s = "jobs") then (PARSELINE_FG, make_tokens BUILTIN_JOBS ["jobs"] None None)
  else if bool_decide (s = "quit")
       then (PARSELINE_FG, make_tokens BUILTIN_QUIT ["quit"] None None)
       else (PARSELINE_EMPTY, make_tokens BUILTIN_NONE [] None None).

Definition sample_strerror (e : Z) : string := "Input/output error".

(** *** The foreground job and its status change *)

(** The job in slot [i] is the job of [pid]; it is the only job in the
    foreground, and the one that [job_from_pid] finds for [pid]. *)
Definition sole_foreground (pid : Z) (i : nat) (jl : list job) : Prop :=
  (∃ j, jl !! i = Some j ∧ j_state j = FG ∧ j_pid j = pid)
  ∧ JobTable.job_from_pid pid jl = JobTable.id_of_slot i
  ∧ ∀ k j, jl !! k = Some j → j_state j = FG → k = i.

(** What the kernel holds for the process can only grow while every signal
    is blocked: pending signals and queued status changes. *)
Definition kern_grows (k k' : kernel) : Prop :=
  (∀ sig, sigismember (sigpend k) sig = true → sigismember (sigpend k') sig = true)
  ∧ (∀ x, In x (wait_queue k) → In x (wait_queue k')).

(** The foreground job 100 has exited while every signal was blocked: its
    status is queued and [SIGCHLD] is pending. *)
Definition exited_world : world :=
  make_world mask_all one_foreground_job [100%positive] [(100%positive, W_EXITED 0)]
    (Z.setbit 0 (SIGCHLD - 1)) [] quiet_oracle.

(** The foreground job 100 runs, and [SIGINT] is pending for the shell. *)
Definition interrupted_world : world :=
  make_world mask_all one_foreground_job [100%positive] [] (Z.setbit 0 (SIGINT - 1)) []
    quiet_oracle.

(** * Properties *)

(** ** Signal masks *)

Lemma blocks_all_lor m : blocks_all (Z.lor m mask_all).
Proof.
  unfold blocks_all. rewrite Z.land_lor_distr_l, Z.land_diag.
  apply Z.bits_inj'. intros n Hn. rewrite Z.lor_spec, Z.land_spec.
  destruct (Z.testbit mask_all n); [by rewrite orb_true_r | by rewrite andb_false_r].
Qed.

Lemma blocks_all_member m sig : blocks_all m → 1 ≤ sig ≤ 64 → sigismember m sig = true.
Proof.
  unfold blocks_all, sigismember, mask_all. intros Hm Hs.
  assert (Z.testbit (Z.land m (Z.ones 64)) (sig - 1) = true) as Hb.
  { rewrite Hm. apply Z.ones_spec_low. lia. }
  rewrite Z.land_spec in Hb. by apply andb_true_iff in Hb as [? _].
Qed.

(** ** The handlers, run from any state *)

Ltac run_H :=
  unfold sigint_handler, sigtstp_handler, sigchld_body,
    fg_job, job_get_pid, job_from_pid, job_set_state, delete_job, job_exists,
    job_get_cmdline, job_read, job_write, sio_printf, emit, put_errno, get_errno,
    sigprocmask, mbind, H_bind, mret, H_ret, add_events, with_proc, with_kern, log,
    set_trace, set_errno, set_sigmask, set_job_list;
  cbn.

Lemma sigint_handler_run sig w :
  sigint_handler sig w
  = Some (tt, with_proc (λ p, add_events (forward_events SIGINT p) p) w).
Proof.
  unfold forward_events. run_H.
  destruct (bool_decide _); cbn.
  - unfold kill; cbn. destruct (bool_decide _); cbn; rewrite <- !app_assoc; reflexivity.
  - rewrite <- !app_assoc; reflexivity.
Qed.

Lemma sigtstp_handler_run sig w :
  sigtstp_handler sig w
  = Some (tt, with_proc (λ p, add_events (forward_events SIGTSTP p) p) w).
Proof.
  unfold forward_events. run_H.
  destruct (bool_decide _); cbn.
  - unfold kill; cbn. destruct (bool_decide _); cbn; rewrite <- !app_assoc; reflexivity.
  - rewrite <- !app_assoc; reflexivity.
Qed.

Lemma sigchld_body_run pid st w :
  sigchld_body pid st w = Some (tt, with_proc (reap_one pid st) w).
Proof.
  unfold reap_one, reap_events, reap_jobs, stop_message, term_message. run_H.
  destruct st; cbn; rewrite <- !app_assoc; reflexivity.
Qed.

Lemma take_status_None q :
  take_status wait_options q = None → reported q = [] ∧ unreported q = q.
Proof.
  unfold reported, unreported.
  induction q as [|[p st] q IH]; cbn; [done|].
  destruct (reportable wait_options st) eqn:E; [done|].
  destruct (take_status wait_options q) as [[[? ?] ?]|]; [done|].
  intros _. destruct (IH eq_refl) as [-> ->]. done.
Qed.

Lemma take_status_Some q p st q' :
  take_status wait_options q = Some (p, st, q') →
  reported q = (p, st) :: reported q' ∧ unreported q = unreported q'
  ∧ (length q' < length q)%nat.
Proof.
  unfold reported, unreported.
  revert p st q'. induction q as [|[p0 st0] q IH]; cbn; [done|]. intros p st q'.
  destruct (reportable wait_options st0) eqn:E.
  - intros [= -> -> ->]. cbn. split_and!; [done|done|lia].
  - destruct (take_status wait_options q) as [[[p1 st1] q1]|] eqn:Et; [|done].
    intros [= -> -> <-]. destruct (IH _ _ _ eq_refl) as (Hr & Hu & Hl).
    cbn. rewrite E. cbn. rewrite Hr, Hu.
    split_and!; [done|done|lia].
Qed.

Lemma sigchld_loop_run fuel w :
  (length (wait_queue (kern w)) < fuel)%nat →
  sigchld_loop fuel w = Some (tt, sigchld_loop_result w).
Proof.
  revert w. induction fuel as [|fuel IH]; intros w Hlen; [lia|].
  cbn [sigchld_loop]. unfold mbind at 1, H_bind at 1. unfold waitpid. fold wait_options.
  destruct (take_status wait_options (wait_queue (kern w))) as [[[p st] q']|] eqn:Et.
  - apply take_status_Some in Et as (Hr & Hu & Hl). cbn.
    unfold mbind, H_bind. rewrite sigchld_body_run. rewrite IH by (cbn; lia).
    f_equal. f_equal. unfold sigchld_loop_result. cbn. rewrite Hr, Hu. cbn. reflexivity.
  - apply take_status_None in Et as (Hr & Hu).
    unfold sigchld_loop_result. rewrite Hr, Hu. cbn.
    destruct w as [p [sp c q s] o]; cbn in *.
    destruct c; cbn; reflexivity.
Qed.

Lemma sigchld_handler_run sig w :
  sigchld_handler sig w
  = Some (tt, with_proc (set_errno (errno (proc w))) (sigchld_loop_result w)).
Proof.
  unfold sigchld_handler. unfold mbind, H_bind, get_errno.
  rewrite sigchld_loop_run by lia. reflexivity.
Qed.

(** *** What [reap_all] leaves *)

Lemma reportable_not_continued st :
  reportable wait_options st = negb (WIFCONTINUED st).
Proof. by destruct st. Qed.

Lemma reported_filter q :
  reported q = List.filter (λ r, negb (WIFCONTINUED r.2)) q.
Proof.
  unfold reported. induction q as [|[p st] q IH]; cbn; [done|].
  by rewrite reportable_not_continued, IH.
Qed.

Lemma unreported_filter q :
  unreported q = List.filter (λ r, WIFCONTINUED r.2) q.
Proof.
  unfold unreported. induction q as [|[p st] q IH]; cbn; [done|].
  by rewrite reportable_not_continued, negb_involutive, IH.
Qed.

Lemma reap_events_blocked pid st p : Forall access_blocked (reap_events pid st p).
Proof.
  unfold reap_events. pose proof (blocks_all_lor (sigmask p)).
  destruct st; cbn; repeat constructor; done.
Qed.

Lemma printed_app tr1 tr2 : printed (tr1 ++ tr2) = printed tr1 ++ printed tr2.
Proof. apply omap_app. Qed.

Lemma waited_app tr1 tr2 : waited (tr1 ++ tr2) = waited tr1 ++ waited tr2.
Proof. apply omap_app. Qed.

Lemma reap_events_printed pid st p :
  printed (reap_events pid st p) = reap_message pid st (job_list p).
Proof. by destruct st. Qed.

Lemma reap_events_waited pid st p : waited (reap_events pid st p) = [].
Proof. by destruct st. Qed.

Lemma reap_one_spec pid st p :
  sigmask (reap_one pid st p) = sigmask p
  ∧ errno (reap_one pid st p) = errno p
  ∧ job_list (reap_one pid st p) = reap_jobs pid st (job_list p)
  ∧ trace (reap_one pid st p) = trace p ++ reap_events pid st p.
Proof. done. Qed.

Lemma reap_events_log pid st e p :
  reap_events pid st (log e p) = reap_events pid st p.
Proof. done. Qed.

Lemma reap_all_spec rs p :
  sigmask (reap_all rs p) = sigmask p
  ∧ errno (reap_all rs p) = errno p
  ∧ job_list (reap_all rs p) = reap_all_jobs rs (job_list p)
  ∧ ∃ evs, trace (reap_all rs p) = trace p ++ evs
      ∧ Forall access_blocked evs
      ∧ printed evs = reap_all_messages rs (job_list p)
      ∧ waited evs = (λ r, (Z.pos r.1, r.2)) <$> rs
      ∧ ∀ q st, In (q, st) rs → In (E_waitpid wait_options (Z.pos q) (Some st)) evs.
Proof.
  revert p. induction rs as [|[pid st] rs IH]; intros p; cbn [reap_all].
  - split_and!; try done. exists []. by rewrite app_nil_r.
  - set (e := E_waitpid wait_options (Z.pos pid) (Some st)).
    destruct (IH (reap_one (Z.pos pid) st (log e p)))
      as (Hm & He & Hj & evs & Ht & Hb & Hp & Hw & Hin).
    destruct (reap_one_spec (Z.pos pid) st (log e p)) as (Hm1 & He1 & Hj1 & Ht1).
    rewrite Hm, He, Hj, Ht, Hm1, He1, Hj1, Ht1, reap_events_log.
    split_and!; [done..|].
    exists ([e] ++ reap_events (Z.pos pid) st p ++ evs).
    split; [cbn [log set_trace trace]; by rewrite <- !app_assoc|].
    split_and!.
    + apply Forall_app_2; [by repeat constructor|].
      apply Forall_app_2; [apply reap_events_blocked | done].
    + rewrite !printed_app, reap_events_printed, Hp. done.
    + rewrite !waited_app, reap_events_waited, Hw. done.
    + intros q st' [[= -> ->]|Hq]; [by left|].
      apply in_or_app. right. apply in_or_app. right. by apply Hin.
Qed.

(** ** The three handlers *)

(** Claim C5.  The interrupt handler and the stop handler return; each
    leaves the job list as it found it; when there is a foreground job,
    each sends exactly one signal ([SIGINT], respectively [SIGTSTP]) to the
    negated process id of that job, that is to its process group; when
    there is none, neither sends any signal. *)
Theorem interrupt_and_stop_are_forwarded sig w :
  let jl := job_list (proc w) in
  let jid := JobTable.fg_job jl in
  ∃ w1 w2 new1 new2,
    sigint_handler sig w = Some (tt, w1)
    ∧ sigtstp_handler sig w = Some (tt, w2)
    ∧ job_list (proc w1) = jl
    ∧ job_list (proc w2) = jl
    ∧ trace (proc w1) = trace (proc w) ++ new1
    ∧ trace (proc w2) = trace (proc w) ++ new2
    ∧ killed new1
      = (if bool_decide (jid ≠ 0) then [(- JobTable.job_get_pid jid jl, SIGINT)] else [])
    ∧ killed new2
      = (if bool_decide (jid ≠ 0) then [(- JobTable.job_get_pid jid jl, SIGTSTP)] else []).
Proof.
  intros jl jid.
  exists (with_proc (λ p, add_events (forward_events SIGINT p) p) w),
         (with_proc (λ p, add_events (forward_events SIGTSTP p) p) w),
         (forward_events SIGINT (proc w)), (forward_events SIGTSTP (proc w)).
  rewrite sigint_handler_run, sigtstp_handler_run.
  split_and!; try done.
  - unfold forward_events. fold jl jid. by destruct (bool_decide (jid ≠ 0)).
  - unfold forward_events. fold jl jid. by destruct (bool_decide (jid ≠ 0)).
Qed.

Lemma forward_events_blocked sig p : Forall access_blocked (forward_events sig p).
Proof.
  unfold forward_events. pose proof (blocks_all_lor (sigmask p)).
  destruct (bool_decide _); cbn; repeat constructor; done.
Qed.

Lemma last_wait_spec c p :
  sigmask (last_wait c p) = sigmask p
  ∧ job_list (last_wait c p) = job_list p
  ∧ ∃ r, trace (last_wait c p) = trace p ++ [E_waitpid wait_options r None].
Proof. destruct c; cbn; eauto. Qed.

(** Claim C6.  Each of the three handlers returns with [errno] and the
    signal mask as they were on entry, and every access to the job list
    that it makes is made while the mask blocks all signals. *)
Theorem handlers_are_well_behaved :
  well_behaved sigchld_handler
  ∧ well_behaved sigint_handler
  ∧ well_behaved sigtstp_handler.
Proof.
  split_and!; intros sig w.
  - rewrite sigchld_handler_run.
    set (rs := reported (wait_queue (kern w))).
    set (c := after_reaping rs (children (kern w))).
    destruct (reap_all_spec rs (proc w)) as (Hm & He & Hj & evs & Ht & Hb & _).
    destruct (last_wait_spec c (reap_all rs (proc w))) as (Hm' & _ & r & Ht').
    eexists _, (evs ++ [E_waitpid wait_options r None]).
    split; [reflexivity|]. cbn. fold rs c.
    split_and!; [done | by rewrite Hm', Hm | by rewrite Ht', Ht, app_assoc |].
    apply Forall_app_2; [done | by repeat constructor].
  - rewrite sigint_handler_run. eexists _, _. split; [reflexivity|].
    split_and!; [done..|apply forward_events_blocked].
  - rewrite sigtstp_handler_run. eexists _, _. split; [reflexivity|].
    split_and!; [done..|apply forward_events_blocked].
Qed.

(** Claim C3.  The child-status handler always returns (its [waitpid] never
    blocks).  Every queued stop, exit or termination by signal has then
    been waited for, in order, and only "continued" changes are left in
    the queue.  For each of them, the job of that process was set to
    [ST] and the "stopped by signal" line printed (stop), the "terminated
    by signal" line printed and the job removed (termination by signal),
    or the job removed and nothing printed (exit): see [reap_jobs] and
    [reap_message]. *)
Theorem child_status_handler_reaps_all sig w :
  let q := wait_queue (kern w) in
  let rs := List.filter (λ r, negb (WIFCONTINUED r.2)) q in
  ∃ w' new,
    sigchld_handler sig w = Some (tt, w')
    ∧ wait_queue (kern w') = List.filter (λ r, WIFCONTINUED r.2) q
    ∧ trace (proc w') = trace (proc w) ++ new
    ∧ waited new = (λ r, (Z.pos r.1, r.2)) <$> rs
    ∧ job_list (proc w') = reap_all_jobs rs (job_list (proc w))
    ∧ printed new = reap_all_messages rs (job_list (proc w)).
Proof.
  intros q rs. rewrite sigchld_handler_run.
  assert (rs = reported q) as -> by (symmetry; apply reported_filter).
  set (c := after_reaping (reported q) (children (kern w))).
  destruct (reap_all_spec (reported q) (proc w)) as (Hm & He & Hj & evs & Ht & Hb & Hp & Hw & _).
  destruct (last_wait_spec c (reap_all (reported q) (proc w))) as (Hm' & Hj' & r & Ht').
  eexists _, (evs ++ [E_waitpid wait_options r None]).
  split; [reflexivity|]. cbn. fold q c.
  split_and!.
  - apply unreported_filter.
  - by rewrite Ht', Ht, app_assoc.
  - rewrite waited_app, Hw. cbn. by rewrite app_nil_r.
  - by rewrite Hj', Hj.
  - rewrite printed_app, Hp. cbn. by rewrite app_nil_r.
Qed.

(** ** The job list *)

Lemma slot_id_of_slot i jl : JobTable.slot (JobTable.id_of_slot i) jl = jl !! i.
Proof.
  unfold JobTable.slot, JobTable.id_of_slot.
  rewrite (proj2 (Z.leb_le _ _)) by lia. f_equal. lia.
Qed.

Lemma slot_zero jl : JobTable.slot 0 jl = None.
Proof. done. Qed.

Lemma id_of_slot_pos i : JobTable.id_of_slot i ≠ 0.
Proof. unfold JobTable.id_of_slot. lia. Qed.

Lemma index_of_id i : Z.to_nat (JobTable.id_of_slot i - 1) = i.
Proof. unfold JobTable.id_of_slot. lia. Qed.

(** The loop condition holds exactly when the first foreground slot
    belongs to [pid]. *)
Lemma waiting_find pid jl :
  waiting pid jl = true
  ↔ ∃ i j, list_find (λ j, j_state j = FG) jl = Some (i, j) ∧ j_pid j = pid.
Proof.
  unfold waiting, JobTable.fg_job, JobTable.job_get_pid.
  destruct (list_find _ jl) as [[i j]|] eqn:Ef.
  - rewrite slot_id_of_slot.
    apply list_find_Some in Ef as (Hi & Hs & _). rewrite Hi.
    rewrite (bool_decide_eq_true_2 (j_state j ≠ UNDEF)) by congruence.
    rewrite (bool_decide_eq_true_2 (JobTable.id_of_slot i ≠ 0)) by apply id_of_slot_pos.
    cbn. rewrite bool_decide_eq_true. split.
    + intros ->. eauto.
    + intros (? & ? & [= <- <-] & ?). done.
  - cbn. split; [done | by intros (? & ? & ? & _)].
Qed.

Lemma find_fg_insert_other (jl : list job) i j i' x :
  list_find (λ j, j_state j = FG) jl = Some (i, j) →
  i' ≠ i → j_state x ≠ FG →
  list_find (λ j, j_state j = FG) (<[i' := x]> jl) = Some (i, j).
Proof.
  intros (Hi & Hs & Hlt)%list_find_Some Hne Hx. apply list_find_Some.
  split_and!; [by rewrite list_lookup_insert_ne | done |].
  intros k y Hk Hki. destruct (decide (k = i')) as [->|Hk'].
  - apply list_lookup_insert_Some in Hk as [(_ & <- & _) | (? & _)]; done.
  - rewrite list_lookup_insert_ne in Hk by done. eauto.
Qed.

Lemma from_pid_cases p jl :
  JobTable.job_from_pid p jl = 0
  ∨ ∃ i j, JobTable.job_from_pid p jl = JobTable.id_of_slot i
           ∧ jl !! i = Some j ∧ j_state j ≠ UNDEF ∧ j_pid j = p.
Proof.
  unfold JobTable.job_from_pid.
  destruct (list_find _ jl) as [[i j]|] eqn:Ef; [|by left].
  apply list_find_Some in Ef as (Hi & [Hs Hp] & _). right. eauto 10.
Qed.

(** Handling a stop, an exit or a termination of another process leaves
    the loop condition true. *)
Lemma reap_jobs_keeps_waiting pid p st jl :
  waiting pid jl = true → p ≠ pid → WIFCONTINUED st = false →
  waiting pid (reap_jobs p st jl) = true.
Proof.
  intros Hw Hne Hst. pose proof Hw as (i & j & Hf & Hp)%waiting_find.
  apply waiting_find. exists i, j. split; [|done].
  pose proof Hf as (Hi & Hs & _)%list_find_Some.
  unfold reap_jobs.
  destruct (from_pid_cases p jl) as [-> | (i' & j' & -> & Hi' & Hs' & Hp')].
  { unfold JobTable.job_set_state, JobTable.delete_job, JobTable.job_exists.
    rewrite slot_zero. by destruct st. }
  assert (i' ≠ i) by (intros ->; congruence).
  unfold JobTable.job_set_state, JobTable.delete_job, JobTable.job_exists.
  rewrite slot_id_of_slot, Hi', index_of_id.
  rewrite (bool_decide_eq_true_2 (j_state j' ≠ UNDEF)) by done.
  destruct st; try done; by apply find_fg_insert_other.
Qed.

Lemma reap_all_jobs_waiting pid rs jl :
  waiting pid jl = true →
  waiting pid (reap_all_jobs rs jl) = false →
  Forall (λ r, WIFCONTINUED r.2 = false) rs →
  ∃ q st, In (q, st) rs ∧ Z.pos q = pid.
Proof.
  revert jl. induction rs as [|[q st] rs IH]; intros jl Hw Hn Hrs; cbn in *.
  - congruence.
  - apply Forall_cons in Hrs as [Hst Hrs]. cbn in Hst.
    destruct (decide (Z.pos q = pid)) as [<-|Hne]; [eauto|].
    destruct (IH (reap_jobs (Z.pos q) st jl)) as (q' & st' & Hin & Hq); eauto.
    by apply reap_jobs_keeps_waiting.
Qed.

(** ** Signal delivery *)

Lemma delivered_refl w : delivered w w.
Proof.
  split_and!; try done. exists []. rewrite app_nil_r.
  split_and!; [done | constructor | congruence].
Qed.

Lemma reaped_in_app_l pid tr1 tr2 : reaped_in pid tr1 → reaped_in pid (tr1 ++ tr2).
Proof.
  intros (b & st & H1 & H2 & H3). exists b, st.
  split_and!; [apply in_or_app; by left | done..].
Qed.

Lemma reaped_in_app_r pid tr1 tr2 : reaped_in pid tr2 → reaped_in pid (tr1 ++ tr2).
Proof.
  intros (b & st & H1 & H2 & H3). exists b, st.
  split_and!; [apply in_or_app; by right | done..].
Qed.

Lemma delivered_trans w1 w2 w3 : delivered w1 w2 → delivered w2 w3 → delivered w1 w3.
Proof.
  intros (Hm1 & He1 & Ho1 & s1 & Ht1 & Hs1 & Hr1) (Hm2 & He2 & Ho2 & s2 & Ht2 & Hs2 & Hr2).
  split_and!; [congruence..|].
  exists (s1 ++ s2). split_and!.
  - by rewrite Ht2, Ht1, app_assoc.
  - by apply Forall_app_2.
  - intros pid Hw Hn.
    destruct (waiting pid (job_list (proc w2))) eqn:Hw2.
    + apply reaped_in_app_r. by apply Hr2.
    + apply reaped_in_app_l. by apply Hr1.
Qed.

(** A change of the kernel's side alone. *)
Lemma delivered_kern w f : delivered w (with_kern f w).
Proof.
  split_and!; try done. exists []. cbn. rewrite app_nil_r.
  split_and!; [done | constructor | congruence].
Qed.

Lemma run_sigint_handler w :
  ∃ w', run_handler SIGINT sigint_handler w = Some w' ∧ delivered w w'.
Proof.
  unfold run_handler. rewrite sigint_handler_run. eexists. split; [reflexivity|].
  split_and!; try done. eexists. split; [reflexivity|].
  split; [by repeat constructor|]. cbn. congruence.
Qed.

Lemma run_sigtstp_handler w :
  ∃ w', run_handler SIGTSTP sigtstp_handler w = Some w' ∧ delivered w w'.
Proof.
  unfold run_handler. rewrite sigtstp_handler_run. eexists. split; [reflexivity|].
  split_and!; try done. eexists. split; [reflexivity|].
  split; [by repeat constructor|]. cbn. congruence.
Qed.

Lemma reported_not_continued q :
  Forall (λ r, WIFCONTINUED r.2 = false) (reported q).
Proof.
  rewrite reported_filter. apply Forall_forall. intros r Hr.
  apply list_elem_of_In, filter_In in Hr as [_ Hr]. by apply negb_true_iff.
Qed.

Lemma run_sigchld_handler w :
  ∃ w', run_handler SIGCHLD sigchld_handler w = Some w' ∧ delivered w w'.
Proof.
  unfold run_handler. rewrite sigchld_handler_run. eexists. split; [reflexivity|].
  unfold sigchld_loop_result. cbn [proc kern os with_proc wait_queue children set_sigpend].
  set (p0 := set_trace [] (set_sigmask (Z.setbit (sigmask (proc w)) (SIGCHLD - 1)) (proc w))).
  set (rs := reported (wait_queue (kern w))).
  set (c := after_reaping rs (children (kern w))).
  destruct (reap_all_spec rs p0) as (Hm & He & Hj & evs & Ht & Hb & Hp & Hw & Hin).
  destruct (last_wait_spec c (reap_all rs p0)) as (Hm' & Hj' & r & Ht').
  split_and!; try done. eexists. split; [reflexivity|].
  split; [by repeat constructor|].
  intros pid Hwt Hnw.
  unfold with_proc, set_trace, set_sigmask, set_errno in Hnw. cbn [proc job_list] in Hnw.
  rewrite Hj', Hj in Hnw.
  destruct (reap_all_jobs_waiting pid rs (job_list (proc w)) Hwt Hnw) as (q & st & Hq & <-).
  { apply reported_not_continued. }
  exists (trace (last_wait c (reap_all rs p0))), st. split_and!.
  - by left.
  - rewrite Ht', Ht. apply in_or_app. left. apply in_or_app. right. by apply Hin.
  - pose proof (reported_not_continued (wait_queue (kern w))) as Hall.
    rewrite Forall_forall in Hall. apply list_elem_of_In, Hall in Hq. cbn in Hq.
    by destruct st.
Qed.

Lemma deliver_one_total sig h w :
  (∀ w, ∃ w', run_handler sig h w = Some w' ∧ delivered w w') →
  ∃ w', deliver_one sig h w = Some w' ∧ delivered w w'.
Proof.
  intros Hh. unfold deliver_one. destruct (deliverable sig w); [apply Hh|].
  eexists. split; [done | apply delivered_refl].
Qed.

Lemma dispatch_total w : ∃ w', dispatch w = Some w' ∧ delivered w w'.
Proof.
  unfold dispatch.
  destruct (deliver_one_total SIGINT sigint_handler w run_sigint_handler) as (w1 & -> & H1).
  destruct (deliver_one_total SIGCHLD sigchld_handler w1 run_sigchld_handler) as (w2 & H2' & H2).
  destruct (deliver_one_total SIGTSTP sigtstp_handler w2 run_sigtstp_handler) as (w3 & H3' & H3).
  cbn. rewrite H2'. cbn. rewrite H3'. eexists. split; [done|].
  eapply delivered_trans; [|done]. by eapply delivered_trans.
Qed.

Lemma window_total s w : ∃ w', window s w = Some w' ∧ delivered w w'.
Proof.
  revert w. induction s as [|e s IH]; intros w; cbn.
  - eexists. split; [done | apply delivered_kern].
  - assert (∃ w', (dispatch (with_kern (env_apply e) w) ≫= window s) = Some w'
                  ∧ delivered w w') as Hgo.
    { destruct (dispatch_total (with_kern (env_apply e) w)) as (w1 & -> & H1). cbn.
      destruct (IH w1) as (w2 & -> & H2). eexists. split; [done|].
      eapply delivered_trans; [apply delivered_kern|]. by eapply delivered_trans. }
    destruct e; try done.
    eexists. split; [done | apply delivered_kern].
Qed.

Lemma deliver_total w : ∃ w', deliver w = Some w' ∧ delivered w w'.
Proof.
  unfold deliver. destruct (dispatch_total w) as (w1 & -> & H1). cbn.
  destruct (window_total (sched (kern w1)) w1) as (w2 & -> & H2).
  eexists. split; [done | by eapply delivered_trans].
Qed.

Lemma suspended_delivered s w w' : suspended s w = Some w' → delivered w w'.
Proof.
  revert w. induction s as [|e s IH]; intros w; cbn.
  - destruct (any_deliverable w); [|done].
    destruct (dispatch_total w) as (w1 & -> & H1). cbn. intros [= <-].
    eapply delivered_trans; [done | apply delivered_kern].
  - destruct (any_deliverable w).
    + destruct (dispatch_total w) as (w1 & -> & H1). cbn. intros [= <-].
      eapply delivered_trans; [done | apply delivered_kern].
    + intros H. eapply delivered_trans; [apply delivered_kern | by apply IH].
Qed.

(** *** With every signal blocked, nothing is delivered *)

Lemma deliverable_blocked sig w :
  blocks_all (sigmask (proc w)) → 1 ≤ sig ≤ 64 → deliverable sig w = false.
Proof.
  intros Hb Hs. unfold deliverable. rewrite (blocks_all_member _ _ Hb Hs).
  by rewrite andb_false_r.
Qed.

Lemma dispatch_blocked w : blocks_all (sigmask (proc w)) → dispatch w = Some w.
Proof.
  intros Hb. unfold dispatch, deliver_one.
  rewrite (deliverable_blocked SIGINT) by (done || (unfold SIGINT; lia)). cbn.
  rewrite (deliverable_blocked SIGCHLD) by (done || (unfold SIGCHLD; lia)). cbn.
  rewrite (deliverable_blocked SIGTSTP) by (done || (unfold SIGTSTP; lia)). done.
Qed.

Lemma window_blocked s w :
  blocks_all (sigmask (proc w)) →
  ∃ w', window s w = Some w' ∧ proc w' = proc w ∧ os w' = os w.
Proof.
  revert w. induction s as [|e s IH]; intros w Hb; cbn.
  - eauto.
  - assert (∃ w', (dispatch (with_kern (env_apply e) w) ≫= window s) = Some w'
                  ∧ proc w' = proc w ∧ os w' = os w) as Hgo.
    { rewrite dispatch_blocked by done. cbn.
      destruct (IH (with_kern (env_apply e) w) Hb) as (w' & -> & Hp & Ho). eauto. }
    destruct e; eauto.
Qed.

Lemma deliver_blocked w :
  blocks_all (sigmask (proc w)) →
  ∃ w', deliver w = Some w' ∧ proc w' = proc w ∧ os w' = os w.
Proof.
  intros Hb. unfold deliver. rewrite dispatch_blocked by done. cbn.
  by apply window_blocked.
Qed.

(** ** Calls of the main line *)

Lemma bind_Done {A B} (m : M A) (f : A → M B) w a w' :
  m w = Done a w' → (m ≫= f) w = f a w'.
Proof. unfold mbind, M_bind. by intros ->. Qed.

Lemma call_any {A} (h : H A) w a w1 :
  h w = Some (a, w1) →
  ∃ w2, call h w = Done a w2 ∧ deliver w1 = Some w2 ∧ delivered w1 w2.
Proof.
  intros Hh. unfold call. rewrite Hh.
  destruct (deliver_total w1) as (w2 & Hd & H2). rewrite Hd. eauto.
Qed.

Lemma call_blocked {A} (h : H A) w a w1 :
  h w = Some (a, w1) → blocks_all (sigmask (proc w1)) →
  ∃ w2, call h w = Done a w2 ∧ proc w2 = proc w1 ∧ os w2 = os w1.
Proof.
  intros Hh Hb. unfold call. rewrite Hh.
  destruct (deliver_blocked w1 Hb) as (w2 & -> & ? & ?). eauto.
Qed.

Lemma bind_call_blocked {A B} (h : H A) (f : A → M B) w a w1 :
  h w = Some (a, w1) → blocks_all (sigmask (proc w1)) →
  ∃ w2, (call h ≫= f) w = f a w2 ∧ proc w2 = proc w1 ∧ os w2 = os w1.
Proof.
  intros Hh Hb. destruct (call_blocked h w a w1 Hh Hb) as (w2 & Hc & ? & ?).
  exists w2. split; [by apply bind_Done | done].
Qed.

Lemma bind_call_any {A B} (h : H A) (f : A → M B) w a w1 :
  h w = Some (a, w1) →
  ∃ w2, (call h ≫= f) w = f a w2 ∧ deliver w1 = Some w2 ∧ delivered w1 w2.
Proof.
  intros Hh. destruct (call_any h w a w1 Hh) as (w2 & Hc & ? & ?).
  exists w2. split; [by apply bind_Done | done].
Qed.

(** *** The trace only grows *)

Lemma grows_ret {A} (a : A) : grows (mret a).
Proof. intros w. exists []. cbn. by rewrite app_nil_r. Qed.

Lemma grows_exit {A} s : grows (@_exit A s).
Proof. intros w. exists []. cbn. by rewrite app_nil_r. Qed.

Lemma grows_read_errno : grows read_errno.
Proof. intros w. exists []. cbn. by rewrite app_nil_r. Qed.

Lemma grows_bind {A B} (m : M A) (f : A → M B) :
  grows m → (∀ a, grows (f a)) → grows (m ≫= f).
Proof.
  intros Hm Hf w. unfold mbind, M_bind. destruct (Hm w) as (n1 & H1).
  destruct (m w) as [a w1| | | |]; cbn in *; eauto.
  destruct (Hf a w1) as (n2 & H2). exists (n1 ++ n2). by rewrite H2, H1, app_assoc.
Qed.

Lemma grows_call {A} (h : H A) : grows_H h → grows (call h).
Proof.
  intros Hh w. unfold call. destruct (h w) as [[a w1]|] eqn:E.
  - destruct (Hh _ _ _ E) as (n1 & H1).
    destruct (deliver_total w1) as (w2 & -> & _ & _ & _ & n2 & H2 & _). cbn.
    exists (n1 ++ n2). by rewrite H2, H1, app_assoc.
  - exists []. cbn. by rewrite app_nil_r.
Qed.

Ltac grows_prim :=
  intros w a w' Hh; cbv beta delta [with_proc with_kern log set_trace set_errno
    set_sigmask set_job_list] in Hh;
  repeat match type of Hh with
         | context [match ?x with _ => _ end] => destruct x
         end;
  try discriminate; injection Hh as <- <-; cbn; eauto.

Lemma grows_sigprocmask how set : grows_H (sigprocmask how set).
Proof. unfold sigprocmask. grows_prim. Qed.
Lemma grows_emit e : grows_H (emit e).
Proof. unfold emit. grows_prim. Qed.
Lemma grows_job_read {A} op (f : list job → A) : grows_H (job_read op f).
Proof. unfold job_read. grows_prim. Qed.
Lemma grows_job_write op f : grows_H (job_write op f).
Proof. unfold job_write. grows_prim. Qed.
Lemma grows_add_job pid st cmd : grows_H (add_job pid st cmd).
Proof. unfold add_job. grows_prim. Qed.
Lemma grows_kill pid sig : grows_H (kill pid sig).
Proof. unfold kill. grows_prim. Qed.
Lemma grows_fork : grows_H fork.
Proof. unfold fork. grows_prim. Qed.
Lemma grows_sys_open path flags mode : grows_H (sys_open path flags mode).
Proof. unfold sys_open. grows_prim. Qed.
Lemma grows_list_jobs fd : grows_H (list_jobs fd).
Proof. unfold list_jobs. grows_prim; rewrite <- app_assoc; eauto. Qed.

Lemma grows_sigsuspend set : grows (sigsuspend set).
Proof.
  intros w. unfold sigsuspend.
  set (w0 := with_proc (λ p, set_sigmask set (log (E_sigsuspend set) p)) w).
  destruct (suspended (sched (kern w0)) w0) as [w1|] eqn:Es.
  - apply suspended_delivered in Es as (_ & _ & _ & n1 & H1 & _).
    edestruct (call_any (λ w2, Some (-1, with_proc (λ p, set_errno EINTR (set_sigmask (sigmask (proc w)) p)) w2)) w1)
      as (w2 & -> & _ & _ & _ & _ & n2 & H2 & _); [done|].
    cbn in *. exists ([E_sigsuspend set] ++ n1 ++ n2).
    rewrite H2, H1. by rewrite <- !app_assoc.
  - cbn. eauto.
Qed.

Lemma grows_execve path args : grows (execve path args).
Proof.
  intros w. unfold execve. destruct (fs_execve (os w) path args) as [e|].
  - edestruct (call_any (λ w', Some (-1, with_proc (λ p, set_errno e (log (E_execve path args (-1)) p)) w')) w)
      as (w2 & -> & _ & _ & _ & _ & n2 & H2 & _); [done|].
    cbn in *. rewrite H2. rewrite <- app_assoc. eauto.
  - cbn. eauto.
Qed.

Create HintDb grows.
#[local] Hint Resolve grows_sigprocmask grows_emit grows_job_read grows_job_write
  grows_add_job grows_kill grows_fork grows_sys_open grows_list_jobs : grows.

Ltac solve_grows :=
  repeat first
    [ apply grows_ret | apply grows_exit | apply grows_read_errno
    | apply grows_sigsuspend | apply grows_execve
    | solve [auto]
    | apply grows_call;
      unfold sio_printf, dup2, close, setpgid, delete_job, job_set_state, job_from_pid,
        job_get_pid, job_get_cmdline, job_exists, fg_job; solve [auto with grows]
    | apply grows_bind; [|intros]
    | match goal with
      | |- grows (if ?c then _ else _) => destruct c
      | |- grows (match ?x with _ => _ end) => destruct x
      end ].

Lemma grows_report_errno name : grows (report_errno name).
Proof. unfold report_errno. solve_grows. Qed.

Lemma grows_wait_fg fuel prev_all pid : grows (wait_fg fuel prev_all pid).
Proof.
  induction fuel as [|fuel IH]; cbn [wait_fg].
  - intros w. exists []. cbn. by rewrite app_nil_r.
  - solve_grows.
Qed.

Lemma grows_eval_child token prev_all : grows (eval_child token prev_all).
Proof.
  unfold eval_child, redirect_input, redirect_output.
  pose proof grows_report_errno. solve_grows.
Qed.

Lemma grows_resolve_job name token prev_all : grows (resolve_job name token prev_all).
Proof. unfold resolve_job. solve_grows. Qed.

Lemma grows_eval fuel pr token cmdline : grows (eval fuel pr token cmdline).
Proof.
  pose proof grows_report_errno. pose proof grows_wait_fg.
  pose proof grows_eval_child. pose proof grows_resolve_job.
  unfold eval, eval_external, eval_jobs, eval_bg, eval_fg.
  destruct pr; try apply grows_ret; destruct (builtin token); solve_grows.
Qed.

(** ** Launching an external command *)

Lemma bind_assoc {A B C} (m : M A) (f : A → M B) (g : B → M C) w :
  ((m ≫= f) ≫= g) w = (m ≫= λ a, f a ≫= g) w.
Proof. unfold mbind, M_bind. by destruct (m w). Qed.

Lemma bind_ret {A B} (a : A) (f : A → M B) w : (mret a ≫= f) w = f a w.
Proof. done. Qed.

Ltac simpl_world :=
  cbn [proc kern os sigmask errno job_list trace with_proc with_kern log set_trace
       set_errno set_sigmask set_job_list fst snd].

Ltac norm_bind := repeat (rewrite bind_assoc || rewrite bind_ret); cbv beta.

(** One call made with every signal blocked: [Hp] and [Ho] describe the
    current world and are replaced by the description of the next one;
    [tac] computes the call. *)
Ltac step_blocked_by tac Hp Ho :=
  norm_bind;
  lazymatch goal with
  | |- context [(call ?h ≫= ?f) ?w] =>
      let w2 := fresh "w" in
      let Hc := fresh "Hc" in
      let Hp2 := fresh "Hp" in
      let Ho2 := fresh "Ho" in
      edestruct (bind_call_blocked h f w) as (w2 & Hc & Hp2 & Ho2);
      [ tac
      | simpl_world; rewrite ?Hp; simpl_world; try apply blocks_all_lor
      | rewrite Hc; clear Hc; cbv beta;
        cbn in Hp2, Ho2; rewrite ?Hp in Hp2; rewrite ?Ho in Hp2; rewrite ?Ho in Ho2;
        cbn in Hp2;
        rewrite ?Hp, ?Ho; simpl_world;
        clear Hp Ho; rename Hp2 into Hp; rename Ho2 into Ho ]
  end.

Ltac step_blocked Hp Ho := step_blocked_by ltac:(reflexivity) Hp Ho.

Lemma fork_parent w :
  fork_ret (os w) ≠ 0 →
  ∃ e c, fork w = Some (fork_ret (os w),
                        {| proc := set_errno e (log (E_fork (fork_ret (os w))) (proc w));
                           kern := set_children c (kern w); os := os w |}).
Proof.
  intros Hr. unfold fork. rewrite (proj2 (Z.eqb_neq _ _)) by done.
  destruct (0 <? fork_ret (os w)).
  - exists (errno (proc w)), (children (kern w) ++ [Z.to_pos (fork_ret (os w))]).
    by destruct w as [[] ? ?].
  - exists EAGAIN, (children (kern w)). by destruct w as [? [] ?].
Qed.

Lemma bind_fork_blocked {B} (f : Z → M B) w :
  fork_ret (os w) ≠ 0 → blocks_all (sigmask (proc w)) →
  ∃ e w2, (call fork ≫= f) w = f (fork_ret (os w)) w2
          ∧ proc w2 = set_errno e (log (E_fork (fork_ret (os w))) (proc w))
          ∧ os w2 = os w.
Proof.
  intros Hr Hb. destruct (fork_parent w Hr) as (e & c & Hf).
  edestruct (bind_call_blocked fork f w) as (w2 & Hc & Hp & Ho); [exact Hf | done |].
  exists e, w2. done.
Qed.

Ltac step_fork Hp Ho :=
  norm_bind;
  lazymatch goal with
  | |- context [(call fork ≫= ?f) ?w] =>
      let e := fresh "e" in
      let w2 := fresh "w" in
      let Hc := fresh "Hc" in
      let Hp2 := fresh "Hp" in
      let Ho2 := fresh "Ho" in
      edestruct (bind_fork_blocked f w) as (e & w2 & Hc & Hp2 & Ho2);
      [ rewrite ?Ho; done
      | rewrite ?Hp; simpl_world; try apply blocks_all_lor
      | rewrite Hc; clear Hc; cbv beta;
        rewrite ?Hp in Hp2; rewrite ?Ho in Hp2; rewrite ?Ho in Ho2; cbn in Hp2;
        rewrite ?Hp, ?Ho; simpl_world;
        clear Hp Ho; rename Hp2 into Hp; rename Ho2 into Ho ]
  end.

Lemma lor_mask_all_twice m : Z.lor (Z.lor m mask_all) mask_all = Z.lor m mask_all.
Proof. by rewrite <- Z.lor_assoc, Z.lor_diag. Qed.

Lemma add_job_registers pid st cmd (jl : list job) i j :
  list_find (λ j, j_state j = UNDEF) jl = Some (i, j) →
  (JobTable.add_job pid st cmd jl).2 !! i
  = Some {| j_pid := pid; j_state := st; j_cmdline := cmd |}.
Proof.
  intros Hf. unfold JobTable.add_job. rewrite Hf. cbn.
  apply list_find_Some in Hf as (Hi & _). apply list_lookup_insert_eq.
  by eapply lookup_lt_Some.
Qed.

(** Claim C1, as amended.  For an external command, in the parent, the
    run of [eval] begins with these calls and nothing else: [sigprocmask]
    blocks every signal; [fork]; for a background command [sigprocmask]
    once more; [add_job] with the state [FG] for a foreground command and
    [BG] for a background command.  In each of the states between these
    calls every signal is blocked and the job list is the one on entry, and
    no handler has run when [add_job] returns.  [add_job] registers the
    child whenever the job list has a free slot (it is rejected when there
    is none).  All the rest of [eval], the foreground wait or the
    announcement of the background job and the call that unblocks, starts
    from the state that [add_job] leaves. *)
Theorem job_registered_before_unblocking fuel pr token cmdline w :
  builtin token = BUILTIN_NONE →
  pr = PARSELINE_FG ∨ pr = PARSELINE_BG →
  fork_ret (os w) ≠ 0 →
  let pid := fork_ret (os w) in
  let st := match pr with PARSELINE_FG => FG | _ => BG end in
  let prev_all := sigmask (proc w) in
  let full := Z.lor prev_all mask_all in
  let jl := job_list (proc w) in
  ∃ w1 w2 w3 w_reg r,
    blocks_all full
    ∧ call (sigprocmask SIG_BLOCK mask_all) w = Done prev_all w1
    ∧ call fork w1 = Done pid w2
    ∧ match pr with
      | PARSELINE_FG => w3 = w2
      | _ => call (sigprocmask SIG_BLOCK mask_all) w2 = Done full w3
      end
    ∧ call (add_job pid st cmdline) w3 = Done r w_reg
    ∧ eval fuel pr token cmdline w
      = match pr with
        | PARSELINE_FG =>
            (wait_fg fuel prev_all pid;;
             call (sigprocmask SIG_SETMASK prev_all);;
             mret tt) w_reg
        | _ =>
            (jid ← call (job_from_pid pid);
             call (sigprocmask SIG_SETMASK prev_all);;
             call (sio_printf ("[" +:+ pretty jid +:+ "] (" +:+ pretty pid +:+ ") "
                               +:+ cmdline +:+ nl))) w_reg
        end
    ∧ Forall (λ x, sigmask (proc x) = full) [w1; w2; w3; w_reg]
    ∧ Forall (λ x, job_list (proc x) = jl) [w1; w2; w3]
    ∧ trace (proc w_reg)
      = trace (proc w)
        ++ [E_sigprocmask SIG_BLOCK mask_all full; E_fork pid]
        ++ match pr with
           | PARSELINE_FG => []
           | _ => [E_sigprocmask SIG_BLOCK mask_all full]
           end
        ++ [E_job (J_add pid st cmdline) full]
    ∧ (r, job_list (proc w_reg)) = JobTable.add_job pid st cmdline jl
    ∧ (∀ i j, list_find (λ j, j_state j = UNDEF) jl = Some (i, j) →
              r = Some (JobTable.id_of_slot i)
              ∧ job_list (proc w_reg) !! i
                = Some {| j_pid := pid; j_state := st; j_cmdline := cmdline |}).
Proof.
  intros Hb Hpr Hr pid st prev_all full jl.
  pose proof (blocks_all_lor (sigmask (proc w))) as Hfull. fold prev_all full in Hfull.
  edestruct (call_blocked (sigprocmask SIG_BLOCK mask_all) w) as (w1 & Hc1 & Hp1 & Ho1);
    [reflexivity | exact Hfull |].
  cbn in Hp1, Ho1. fold prev_all full in Hp1, Hc1.
  destruct (fork_parent w1) as (e & c & Hf); [by rewrite Ho1|].
  rewrite Ho1 in Hf. fold pid in Hf.
  edestruct (call_blocked fork w1) as (w2 & Hc2 & Hp2 & Ho2);
    [exact Hf | by rewrite Hp1 |].
  cbn in Hp2, Ho2. rewrite Hp1 in Hp2. cbn in Hp2.
  assert (∃ w3, match pr with
                | PARSELINE_FG => w3 = w2
                | _ => call (sigprocmask SIG_BLOCK mask_all) w2 = Done full w3
                end
                ∧ sigmask (proc w3) = full ∧ job_list (proc w3) = jl
                ∧ errno (proc w3) = e ∧ os w3 = os w
                ∧ trace (proc w3)
                  = trace (proc w)
                    ++ [E_sigprocmask SIG_BLOCK mask_all full; E_fork pid]
                    ++ match pr with
                       | PARSELINE_FG => []
                       | _ => [E_sigprocmask SIG_BLOCK mask_all full]
                       end) as (w3 & Hc3 & Hm3 & Hj3 & He3 & Ho3 & Ht3).
  { destruct Hpr as [-> | ->].
    - exists w2. rewrite Hp2. cbn. split_and!; try done. by rewrite <- app_assoc.
    - edestruct (call_blocked (sigprocmask SIG_BLOCK mask_all) w2) as (w3 & Hc3 & Hp3 & Ho3);
        [reflexivity
        | cbn; rewrite Hp2; cbn; unfold full; rewrite lor_mask_all_twice; exact Hfull |].
      cbn in Hp3, Ho3. rewrite Hp2 in Hp3, Hc3. cbn in Hp3, Hc3.
      unfold full in Hp3. rewrite lor_mask_all_twice in Hp3. fold full in Hp3.
      exists w3. rewrite Hp3. cbn. split_and!; try done; [congruence|].
      by rewrite <- !app_assoc. }
  edestruct (call_blocked (add_job pid st cmdline) w3) as (w4 & Hc4 & Hp4 & Ho4);
    [reflexivity | cbn; by rewrite Hm3 |].
  cbn in Hp4, Ho4. unfold log, set_job_list, set_trace in Hp4. cbn in Hp4.
  rewrite Hj3, Hm3, Ht3 in Hp4.
  rewrite Hj3 in Hc4.
  exists w1, w2, w3, w4, (JobTable.add_job pid st cmdline jl).1.
  split; [done|]. split; [done|]. split; [done|]. split; [done|]. split; [done|].
  split.
  { unfold eval. rewrite Hb. unfold eval_external.
    destruct Hpr as [-> | ->].
    - norm_bind. rewrite (bind_Done _ _ _ _ _ Hc1). cbv beta.
      norm_bind. rewrite (bind_Done _ _ _ _ _ Hc2). cbv beta.
      rewrite (proj2 (Z.eqb_neq pid 0)) by done. norm_bind.
      subst w3. rewrite (bind_Done _ _ _ _ _ Hc4). cbv beta.
      norm_bind. unfold mbind, M_bind.
      destruct (wait_fg fuel prev_all pid w4); try done.
      by destruct (call (sigprocmask SIG_SETMASK prev_all) w0).
    - norm_bind. rewrite (bind_Done _ _ _ _ _ Hc1). cbv beta.
      norm_bind. rewrite (bind_Done _ _ _ _ _ Hc2). cbv beta.
      rewrite (proj2 (Z.eqb_neq pid 0)) by done. norm_bind.
      rewrite (bind_Done _ _ _ _ _ Hc3). cbv beta.
      norm_bind. rewrite (bind_Done _ _ _ _ _ Hc4). cbv beta.
      reflexivity. }
  split.
  { repeat (apply Forall_cons_2; [|]); try apply Forall_nil_2;
      rewrite ?Hp1, ?Hp2, ?Hp4; try done. }
  split.
  { repeat (apply Forall_cons_2; [|]); try apply Forall_nil_2;
      rewrite ?Hp1, ?Hp2; try done. }
  split; [rewrite Hp4; cbn; by rewrite <- !app_assoc|].
  split; [rewrite Hp4; cbn; by destruct (JobTable.add_job pid st cmdline jl)|].
  intros i j Hfree. rewrite Hp4. cbn. split.
  - unfold JobTable.add_job. by rewrite Hfree.
  - by eapply add_job_registers.
Qed.

(** Claim C1, as stated, fails when the job list is full.  [add_job] is
    rejected and its result is not looked at: the background launch
    announces the job with the id 0, the foreground launch finds no
    foreground job, and both unblock the signals and return with the job
    list as it was, without a job for the child 100, which runs. *)
Lemma launch_into_full_table_registers_no_job :
  ∃ w_bg w_fg,
    eval 3 PARSELINE_BG (make_tokens BUILTIN_NONE ["sleep"; "5"] None None)
      "sleep 5 &" full_world = Done tt w_bg
    ∧ eval 3 PARSELINE_FG (make_tokens BUILTIN_NONE ["sleep"; "5"] None None)
        "sleep 5" full_world = Done tt w_fg
    ∧ trace (proc w_bg)
      = [E_sigprocmask SIG_BLOCK mask_all mask_all; E_fork 100;
         E_sigprocmask SIG_BLOCK mask_all mask_all;
         E_job (J_add 100 BG "sleep 5 &") mask_all;
         E_job (J_from_pid 100) mask_all;
         E_sigprocmask SIG_SETMASK 0 0;
         E_print ("[0] (100) sleep 5 &" +:+ nl)]
    ∧ trace (proc w_fg)
      = [E_sigprocmask SIG_BLOCK mask_all mask_all; E_fork 100;
         E_job (J_add 100 FG "sleep 5") mask_all;
         E_job J_fg_job mask_all;
         E_sigprocmask SIG_SETMASK 0 0]
    ∧ JobTable.add_job 100 BG "sleep 5 &" full_table = (None, full_table)
    ∧ JobTable.add_job 100 FG "sleep 5" full_table = (None, full_table)
    ∧ job_list (proc w_bg) = full_table
    ∧ job_list (proc w_fg) = full_table
    ∧ JobTable.job_from_pid 100 full_table = 0
    ∧ sigmask (proc w_bg) = 0
    ∧ sigmask (proc w_fg) = 0
    ∧ In 100%positive (children (kern w_bg))
    ∧ In 100%positive (children (kern w_fg)).
Proof.
  eexists _, _. split; [vm_compute; reflexivity|]. split; [vm_compute; reflexivity|].
  cbn. split_and!; try done; tauto.
Qed.

(** ** The foreground wait *)

Lemma sigsuspend_Done set w r w' :
  sigsuspend set w = Done r w' → blocks_all (sigmask (proc w)) →
  ∃ wa, delivered (with_proc (λ p, set_sigmask set (log (E_sigsuspend set) p)) w) wa
        ∧ proc w' = set_errno EINTR (set_sigmask (sigmask (proc w)) (proc wa)).
Proof.
  unfold sigsuspend. intros Hs Hb.
  set (w0 := with_proc (λ p, set_sigmask set (log (E_sigsuspend set) p)) w) in *.
  destruct (suspended (sched (kern w0)) w0) as [wa|] eqn:Es; [|done].
  exists wa. split; [by eapply suspended_delivered|].
  edestruct (call_blocked (λ w2, Some (-1, with_proc (λ p, set_errno EINTR (set_sigmask (sigmask (proc w)) p)) w2)) wa)
    as (w2 & Hc & Hp & _); [done | done |].
  rewrite Hc in Hs. injection Hs as _ <-. done.
Qed.

Ltac solve_Forall :=
  repeat (apply Forall_cons_2; [cbn; done|]); apply Forall_nil_2.

Lemma wait_fg_post fuel prev_all pid w :
  blocks_all (sigmask (proc w)) →
  wait_post prev_all pid w (wait_fg fuel prev_all pid w).
Proof.
  revert w. induction fuel as [|fuel IH]; intros w Hb; [done|].
  cbn [wait_fg].
  pose proof (eq_refl (proc w)) as Hp. pose proof (eq_refl (os w)) as Ho.
  step_blocked Hp Ho; [done|].
  destruct (bool_decide (JobTable.fg_job (job_list (proc w)) ≠ 0)) eqn:Efg.
  2:{ norm_bind. unfold wait_post, returned_from_wait, waiting. cbn. split_and!; [by rewrite Hp | by rewrite Hp; cbn; rewrite Efg |].
      eexists. split; [by rewrite Hp|]. split; [solve_Forall | by rewrite Efg]. }
  step_blocked Hp Ho; [done|]. step_blocked Hp Ho; [done|]. norm_bind.
  destruct (bool_decide (pid = _)) eqn:Epid.
  2:{ unfold wait_post, returned_from_wait, waiting. cbn.
      split_and!; [by rewrite Hp | by rewrite Hp; cbn; rewrite Efg, Epid |].
      eexists. split; [rewrite Hp; cbn; by rewrite <- !app_assoc|].
      split; [solve_Forall | by rewrite Efg, Epid]. }
  destruct (sigsuspend prev_all w2) as [r wb| | | |] eqn:Es;
    try (unfold mbind, M_bind; rewrite Es; done).
  rewrite (bind_Done _ _ _ _ _ Es).
  apply sigsuspend_Done in Es as (wa & Hd & Hpb); [|by rewrite Hp].
  destruct Hd as (Hma & Hea & Hoa & sigs & Hta & Hsa & Hra).
  unfold with_proc in Hma, Hta, Hra. cbn [proc] in Hma, Hta, Hra.
  rewrite Hp in Hta, Hra, Hpb. cbn in Hta, Hpb.
  cbn [job_list set_sigmask log set_trace] in Hra.
  assert (blocks_all (sigmask (proc wb))) as Hbb by (by rewrite Hpb).
  specialize (IH wb Hbb).
  destruct (wait_fg fuel prev_all pid wb) as [[] w'| | | |]; try done.
  destruct IH as (Hm' & Hw' & new & Ht' & Hn' & Hr').
  unfold waiting in Hr', Hra.
  rewrite Hpb in Hm', Ht', Hr'. cbn in Hm', Ht', Hr'.
  split_and!; [done | done |].
  exists ([E_job J_fg_job (sigmask (proc w)); E_job J_fg_job (sigmask (proc w));
           E_job (J_get_pid (JobTable.fg_job (job_list (proc w)))) (sigmask (proc w));
           E_sigsuspend prev_all] ++ sigs ++ new).
  split; [rewrite Ht', Hta; by rewrite <- !app_assoc|].
  split.
  - apply Forall_app_2; [solve_Forall|].
    apply Forall_app_2; [|done].
    eapply Forall_impl; [exact Hsa|]. by intros [].
  - intros _. split; [do 3 right; by left|].
    apply reaped_in_app_r.
    destruct (bool_decide (JobTable.fg_job (job_list (proc wa)) ≠ 0)
              && bool_decide (pid = JobTable.job_get_pid (JobTable.fg_job (job_list (proc wa)))
                                      (job_list (proc wa)))) eqn:Ewa.
    + apply reaped_in_app_r. by apply Hr'.
    + apply reaped_in_app_l. apply Hra; [|done]. by rewrite Efg, Epid.
Qed.

(** Claim C2, as amended.  The foreground wait is entered with every
    signal blocked and with [pid] as the foreground job.  If the wait and the
    [sigprocmask] that follows it return, then: the loop was left with the
    loop condition false; while it ran, the main line only read the job
    list (with every signal blocked) and called [sigsuspend] with the mask
    saved before blocking, and signals were handled only inside these
    calls; it did suspend, and a run of the child-status handler reaped a
    stop, an exit or a termination by signal of [pid] before the loop was
    left; the mask in force afterwards is the saved one. *)
Theorem foreground_wait_returns_after_status_change fuel prev_all pid w r w' :
  blocks_all (sigmask (proc w)) →
  waiting pid (job_list (proc w)) = true →
  (wait_fg fuel prev_all pid ≫= λ _, call (sigprocmask SIG_SETMASK prev_all)) w
  = Done r w' →
  ∃ w1 new,
    wait_fg fuel prev_all pid w = Done tt w1
    ∧ waiting pid (job_list (proc w1)) = false
    ∧ trace (proc w1) = trace (proc w) ++ new
    ∧ Forall (wait_event prev_all) new
    ∧ In (E_sigsuspend prev_all) new
    ∧ reaped_in pid new
    ∧ sigmask (proc w') = prev_all.
Proof.
  intros Hb Hw Hrun. pose proof (wait_fg_post fuel prev_all pid w Hb) as Hpost.
  unfold mbind, M_bind in Hrun.
  destruct (wait_fg fuel prev_all pid w) as [[] w1| | | |]; try done.
  destruct Hpost as (Hm & Hw1 & new & Ht & Hn & Hr).
  destruct (Hr Hw) as [Hs Hre].
  exists w1, new. split_and!; try done.
  edestruct (call_any (sigprocmask SIG_SETMASK prev_all) w1) as (w2 & Hc & _ & Hd);
    [reflexivity|].
  rewrite Hc in Hrun. injection Hrun as _ <-.
  destruct Hd as (-> & _). done.
Qed.

(** ** Entering the foreground wait

    With no foreground job before, the process that [eval] has just
    registered or resumed is the one the loop waits for. *)

Lemma fg_job_none (jl : list job) :
  JobTable.fg_job jl = 0 → list_find (λ j, j_state j = FG) jl = None.
Proof.
  unfold JobTable.fg_job. destruct (list_find _ jl) as [[i j]|]; [|done].
  intros H. by apply id_of_slot_pos in H.
Qed.

Lemma waiting_after_insert (jl : list job) i x :
  list_find (λ j, j_state j = FG) jl = None →
  (i < length jl)%nat → j_state x = FG →
  waiting (j_pid x) (<[i := x]> jl) = true.
Proof.
  intros Hnone Hi Hx. apply waiting_find. exists i, x. split; [|done].
  apply list_find_Some. split_and!; [by apply list_lookup_insert_eq | done |].
  intros k y Hk Hki Hy. rewrite list_lookup_insert_ne in Hk by lia.
  rewrite list_find_None, Forall_forall in Hnone.
  apply (Hnone y); [|done]. by eapply list_elem_of_lookup_2.
Qed.

Lemma launch_enters_wait_as_foreground pid cmd (jl : list job) i j :
  JobTable.fg_job jl = 0 →
  list_find (λ j, j_state j = UNDEF) jl = Some (i, j) →
  waiting pid (JobTable.add_job pid FG cmd jl).2 = true.
Proof.
  intros Hfg%fg_job_none Hfree. unfold JobTable.add_job. rewrite Hfree. cbn.
  apply list_find_Some in Hfree as (Hi & _).
  apply (waiting_after_insert jl i {| j_pid := pid; j_state := FG; j_cmdline := cmd |});
    [done | by eapply lookup_lt_Some | done].
Qed.

Lemma fg_enters_wait_as_foreground jid (jl : list job) :
  JobTable.fg_job jl = 0 →
  JobTable.job_exists jid jl = true →
  waiting (JobTable.job_get_pid jid jl) (JobTable.job_set_state jid FG jl) = true.
Proof.
  intros Hfg%fg_job_none. unfold JobTable.job_exists, JobTable.job_get_pid,
    JobTable.job_set_state.
  destruct (JobTable.slot jid jl) as [j|] eqn:Es; [|done]. intros ->.
  unfold JobTable.slot in Es. destruct (1 <=? jid); [|done].
  apply (waiting_after_insert jl (Z.to_nat (jid - 1))
           {| j_pid := j_pid j; j_state := FG; j_cmdline := j_cmdline j |});
    [done | by eapply lookup_lt_Some | done].
Qed.

(** Claim C2, as stated, fails for a foreground launch when the job list
    is full.  [add_job] is rejected and no job is in the foreground: the
    launch leaves the loop at its first test, without suspending, and
    [eval] returns while the child 100 still runs, no status change of it
    having been waited for. *)
Lemma launch_into_full_table_does_not_wait :
  ∃ w',
    eval 3 PARSELINE_FG (make_tokens BUILTIN_NONE ["sleep"; "5"] None None)
      "sleep 5" full_world = Done tt w'
    ∧ job_list (proc w') = full_table
    ∧ In 100%positive (children (kern w'))
    ∧ wait_queue (kern w') = []
    ∧ waited (trace (proc w')) = []
    ∧ ∀ m, ¬ In (E_sigsuspend m) (trace (proc w')).
Proof.
  eexists. split; [vm_compute; reflexivity|]. cbn.
  split_and!; [done | tauto | done | done |].
  intros m H. repeat (destruct H as [H|H]; [discriminate H|]). destruct H.
Qed.

(** ** The fuel of the foreground wait is enough

    Each turn of the loop uses up a step of the schedule or a pending
    signal, so that the loop never runs out of fuel when it is given more
    than [wait_measure]: it returns, or it sleeps for ever. *)

Lemma testbit_setbit a i j :
  Z.testbit (Z.setbit a i) j = (Z.testbit a j || ((0 <=? i) && (i =? j))).
Proof.
  destruct (Z.leb_spec 0 i) as [Hi|Hi]; cbn.
  - destruct (Z.eqb_spec i j) as [->|Hne].
    + rewrite Z.setbit_eq by done. by rewrite orb_true_r.
    + rewrite Z.setbit_neq by done. by rewrite orb_false_r.
  - rewrite orb_false_r. unfold Z.setbit. rewrite Z.shiftl_1_l.
    rewrite Z.pow_neg_r by done. by rewrite Z.lor_0_r.
Qed.

Lemma pending_setbit s i :
  (pending_handled (Z.setbit s i) ≤ S (pending_handled s))%nat.
Proof.
  unfold pending_handled, sigismember, SIGINT, SIGCHLD, SIGTSTP.
  rewrite !testbit_setbit.
  destruct (Z.leb_spec 0 i); cbn [andb];
    destruct (Z.eqb_spec i (2 - 1)), (Z.eqb_spec i (17 - 1)), (Z.eqb_spec i (20 - 1));
    try lia;
    destruct (Z.testbit s (2 - 1)), (Z.testbit s (17 - 1)), (Z.testbit s (20 - 1));
    cbn; lia.
Qed.

Lemma pending_clearbit s sig :
  sig = SIGINT ∨ sig = SIGCHLD ∨ sig = SIGTSTP →
  sigismember s sig = true →
  S (pending_handled (Z.clearbit s (sig - 1))) = pending_handled s.
Proof.
  unfold pending_handled, sigismember, SIGINT, SIGCHLD, SIGTSTP.
  intros [-> | [-> | ->]] Hs; rewrite Hs;
    rewrite Z.clearbit_eq by lia; rewrite !Z.clearbit_neq by lia;
    destruct (Z.testbit s _), (Z.testbit s _); cbn; lia.
Qed.

Lemma env_apply_pending e k :
  (pending_handled (sigpend (env_apply e k)) ≤ S (pending_handled (sigpend k)))%nat.
Proof.
  destruct e; cbn; [destruct (bool_decide _); cbn|..];
    try apply pending_setbit; lia.
Qed.

Lemma sigint_handler_kern sig w u w1 :
  sigint_handler sig w = Some (u, w1) → kern w1 = kern w.
Proof. rewrite sigint_handler_run. by intros [= <- <-]. Qed.

Lemma sigtstp_handler_kern sig w u w1 :
  sigtstp_handler sig w = Some (u, w1) → kern w1 = kern w.
Proof. rewrite sigtstp_handler_run. by intros [= <- <-]. Qed.

Lemma sigchld_handler_kern sig w u w1 :
  sigchld_handler sig w = Some (u, w1) →
  sigpend (kern w1) = sigpend (kern w) ∧ sched (kern w1) = sched (kern w).
Proof. rewrite sigchld_handler_run. by intros [= <- <-]. Qed.


Lemma run_handler_clears sig h w w' :
  (∀ w0 u w1, h sig w0 = Some (u, w1) →
              sigpend (kern w1) = sigpend (kern w0) ∧ sched (kern w1) = sched (kern w0)) →
  run_handler sig h w = Some w' →
  clears sig w w'.
Proof.
  unfold run_handler. intros Hk.
  destruct (h sig _) as [[u w1]|] eqn:E; [|done]. intros [= <-].
  destruct (Hk _ _ _ E) as [Hs Hc]. cbn in *. done.
Qed.

Lemma deliver_one_measure sig h w w' :
  sig = SIGINT ∨ sig = SIGCHLD ∨ sig = SIGTSTP →
  (∀ w0 u w1, h sig w0 = Some (u, w1) →
              sigpend (kern w1) = sigpend (kern w0) ∧ sched (kern w1) = sched (kern w0)) →
  deliver_one sig h w = Some w' →
  sched (kern w') = sched (kern w)
  ∧ if deliverable sig w
    then S (pending_handled (sigpend (kern w'))) = pending_handled (sigpend (kern w))
    else w' = w.
Proof.
  intros Hsig Hk. unfold deliver_one.
  destruct (deliverable sig w) eqn:Ed; [|by intros [= <-]].
  intros (Hp & Hs & _)%run_handler_clears; [|done]. split; [done|].
  rewrite Hp. apply pending_clearbit; [done|].
  unfold deliverable in Ed. by apply andb_true_iff in Ed as [? _].
Qed.

Lemma dispatch_measure w w' :
  dispatch w = Some w' →
  sched (kern w') = sched (kern w)
  ∧ (pending_handled (sigpend (kern w')) ≤ pending_handled (sigpend (kern w)))%nat
  ∧ (any_deliverable w = true →
     (pending_handled (sigpend (kern w')) < pending_handled (sigpend (kern w)))%nat).
Proof.
  unfold dispatch, any_deliverable.
  destruct (deliver_one SIGINT sigint_handler w) as [w1|] eqn:E1; [|done]. cbn.
  destruct (deliver_one SIGCHLD sigchld_handler w1) as [w2|] eqn:E2; [|done]. cbn.
  intros E3.
  apply deliver_one_measure in E1 as [Hs1 H1]; [|by left|].
  2:{ intros ??? ->%sigint_handler_kern. done. }
  apply deliver_one_measure in E2 as [Hs2 H2]; [|by right; left|].
  2:{ intros ???. apply sigchld_handler_kern. }
  apply deliver_one_measure in E3 as [Hs3 H3]; [|by right; right|].
  2:{ intros ??? ->%sigtstp_handler_kern. done. }
  split; [congruence|].
  destruct (deliverable SIGINT w); [|subst w1];
    (destruct (deliverable SIGCHLD _); [|subst w2]);
    (destruct (deliverable SIGTSTP _); [|subst w']);
    cbn; split; try lia; done.
Qed.

Lemma suspended_measure s w w' :
  suspended s w = Some w' →
  (length (sched (kern w')) + pending_handled (sigpend (kern w'))
   < length s + pending_handled (sigpend (kern w)))%nat.
Proof.
  revert w. induction s as [|e s IH]; intros w; cbn [suspended].
  - destruct (any_deliverable w) eqn:Ea; [|done].
    destruct (dispatch w) as [w1|] eqn:Ed; [|done]. cbn. intros [= <-].
    apply dispatch_measure in Ed as (_ & _ & Hlt). specialize (Hlt Ea). cbn. lia.
  - destruct (any_deliverable w) eqn:Ea.
    + destruct (dispatch w) as [w1|] eqn:Ed; [|done]. cbn. intros [= <-].
      apply dispatch_measure in Ed as (_ & _ & Hlt). specialize (Hlt Ea). cbn in *. lia.
    + intros H%IH. pose proof (env_apply_pending e (kern w)). cbn in *. lia.
Qed.

Lemma window_blocked_measure s w w' :
  blocks_all (sigmask (proc w)) →
  window s w = Some w' →
  (length (sched (kern w')) + pending_handled (sigpend (kern w'))
   ≤ length s + pending_handled (sigpend (kern w)))%nat.
Proof.
  revert w. induction s as [|e s IH]; intros w Hb; cbn [window].
  - intros [= <-]. cbn. lia.
  - assert ((dispatch (with_kern (env_apply e) w) ≫= window s) = Some w' →
            (length (sched (kern w')) + pending_handled (sigpend (kern w'))
             ≤ length (e :: s) + pending_handled (sigpend (kern w)))%nat) as Hgo.
    { rewrite dispatch_blocked by done. cbn. intros H%IH; [|done].
      pose proof (env_apply_pending e (kern w)). cbn in *. lia. }
    destruct e; try done. intros [= <-]. cbn. lia.
Qed.

Lemma deliver_blocked_measure w w' :
  blocks_all (sigmask (proc w)) →
  deliver w = Some w' →
  (wait_measure w' ≤ wait_measure w)%nat.
Proof.
  intros Hb. unfold deliver. rewrite dispatch_blocked by done. cbn.
  by apply window_blocked_measure.
Qed.

(** A read of the job list in the loop. *)
Lemma bind_job_read_fuel {A B} op (g : list job → A) (f : A → M B) w :
  blocks_all (sigmask (proc w)) →
  ∃ w2, (call (job_read op g) ≫= f) w = f (g (job_list (proc w))) w2
        ∧ sigmask (proc w2) = sigmask (proc w)
        ∧ job_list (proc w2) = job_list (proc w)
        ∧ (wait_measure w2 ≤ wait_measure w)%nat.
Proof.
  intros Hb.
  set (w1 := with_proc (λ p, log (E_job op (sigmask p)) p) w).
  destruct (deliver_blocked w1 Hb) as (w2 & Hd & Hp & _).
  exists w2. split_and!.
  - apply bind_Done. unfold call, job_read. fold w1. by rewrite Hd.
  - by rewrite Hp.
  - by rewrite Hp.
  - by apply (deliver_blocked_measure w1).
Qed.

Lemma sigsuspend_fuel set w :
  blocks_all (sigmask (proc w)) →
  match sigsuspend set w with
  | Done _ w' =>
      sigmask (proc w') = sigmask (proc w) ∧ (wait_measure w' < wait_measure w)%nat
  | Blocked _ => True
  | _ => False
  end.
Proof.
  intros Hb. unfold sigsuspend.
  set (w0 := with_proc (λ p, set_sigmask set (log (E_sigsuspend set) p)) w).
  destruct (suspended (sched (kern w0)) w0) as [wa|] eqn:Es; [|done].
  apply suspended_measure in Es.
  set (wr := with_proc (λ p, set_errno EINTR (set_sigmask (sigmask (proc w)) p)) wa).
  destruct (deliver_blocked wr Hb) as (w2 & Hd & Hp & _).
  unfold call. fold wr. rewrite Hd. split; [by rewrite Hp|].
  pose proof (deliver_blocked_measure wr w2 Hb Hd) as Hle.
  unfold wait_measure in *. cbn in *. lia.
Qed.

Ltac step_read Hm Hf :=
  repeat (rewrite bind_assoc || rewrite bind_ret);
  lazymatch goal with
  | |- context [(call (job_read ?op ?g) ≫= ?f) ?w] =>
      let w2 := fresh "w" in
      let Hc := fresh "Hc" in
      let Hj := fresh "Hj" in
      destruct (bind_job_read_fuel op g f w) as (w2 & Hc & Hm & Hj & Hf);
      [ | rewrite Hc; clear Hc; cbv beta ]
  end.

(** Given more fuel than [wait_measure], the foreground wait never runs
    out of it. *)
Lemma wait_fg_has_enough_fuel fuel prev_all pid w :
  blocks_all (sigmask (proc w)) →
  (wait_measure w < fuel)%nat →
  ∀ w', wait_fg fuel prev_all pid w ≠ OutOfFuel w'.
Proof.
  revert w. induction fuel as [|fuel IH]; intros w Hb Hfuel w'; [lia|].
  cbn [wait_fg]. unfold fg_job, job_get_pid.
  assert (∀ go_on w2,
            blocks_all (sigmask (proc w2)) → (wait_measure w2 ≤ wait_measure w)%nat →
            (if go_on : bool then sigsuspend prev_all ≫= λ _, wait_fg fuel prev_all pid
             else mret ()) w2 ≠ OutOfFuel w') as Hrest.
  { intros [] w2 Hb2 Hf2; [|done].
    pose proof (sigsuspend_fuel prev_all w2 Hb2) as Hs.
    unfold mbind, M_bind.
    destruct (sigsuspend prev_all w2) as [r w3| | | |]; try done.
    destruct Hs as [Hm3 Hf3]. apply IH; [by rewrite Hm3 | lia]. }
  step_read Hm1 Hf1; [done|].
  destruct (bool_decide _).
  - step_read Hm2 Hf2; [by rewrite Hm1|].
    step_read Hm3 Hf3; [by rewrite Hm2, Hm1|].
    rewrite ?bind_ret. apply Hrest; [by rewrite Hm3, Hm2, Hm1 | lia].
  - rewrite ?bind_ret. apply (Hrest false); [by rewrite Hm1 | lia].
Qed.

(** ** The [bg] and [fg] built-ins *)

Lemma kill_run pid sig w :
  ∃ r e, kill pid sig w
         = Some (r, {| proc := set_errno e (log (E_kill pid sig) (proc w));
                       kern := kern w; os := os w |}).
Proof.
  unfold kill. destruct (bool_decide _).
  - exists 0, (errno (proc w)). by destruct w as [[] ? ?].
  - by exists (-1), ESRCH.
Qed.

Lemma bind_kill_blocked {B} pid sig (f : Z → M B) w :
  blocks_all (sigmask (proc w)) →
  ∃ r e w2, (call (kill pid sig) ≫= f) w = f r w2
            ∧ proc w2 = set_errno e (log (E_kill pid sig) (proc w))
            ∧ os w2 = os w.
Proof.
  intros Hb. destruct (kill_run pid sig w) as (r & e & Hk).
  edestruct (bind_call_blocked (kill pid sig) f w) as (w2 & Hc & Hp & Ho); [exact Hk | done |].
  exists r, e, w2. done.
Qed.

Ltac step_kill Hp Ho :=
  norm_bind;
  lazymatch goal with
  | |- context [(call (kill ?pid ?sig) ≫= ?f) ?w] =>
      let r := fresh "r" in
      let e := fresh "e" in
      let w2 := fresh "w" in
      let Hc := fresh "Hc" in
      let Hp2 := fresh "Hp" in
      let Ho2 := fresh "Ho" in
      edestruct (bind_kill_blocked pid sig f w) as (r & e & w2 & Hc & Hp2 & Ho2);
      [ rewrite ?Hp; simpl_world; try apply blocks_all_lor
      | rewrite Hc; clear Hc; cbv beta;
        rewrite ?Hp in Hp2; rewrite ?Ho in Hp2; rewrite ?Ho in Ho2; cbn in Hp2;
        rewrite ?Hp, ?Ho; simpl_world;
        clear Hp Ho; rename Hp2 into Hp; rename Ho2 into Ho ]
  end.

(** The last call of a path, which unblocks: [w1] is the world when the
    call is made and [w'] the world after the window that follows. *)
Lemma last_call {A B} (h : H A) (b : B) w a w1 :
  h w = Some (a, w1) →
  ∃ w', (call h ≫= λ _, mret b) w = Done b w' ∧ deliver w1 = Some w'.
Proof.
  intros Hh. destruct (call_any h w a w1 Hh) as (w' & Hc & Hd & _).
  exists w'. split; [|done]. by rewrite (bind_Done _ _ _ _ _ Hc).
Qed.

(** An error path of [resolve_job]: the message, the unblocking call and
    the [return]. *)
Lemma error_path (msg : string) prev_all w :
  blocks_all (sigmask (proc w)) →
  ∃ w1 w',
    (call (sio_printf msg)
     ≫= λ _, call (sigprocmask SIG_SETMASK prev_all) ≫= λ _, mret (@None (Z * Z))) w
    = Done None w'
    ∧ deliver w1 = Some w'
    ∧ proc w1 = log (E_sigprocmask SIG_SETMASK prev_all prev_all)
                  (set_sigmask prev_all (log (E_print msg) (proc w)))
    ∧ os w1 = os w.
Proof.
  intros Hb.
  pose proof (eq_refl (proc w)) as Hp. pose proof (eq_refl (os w)) as Ho.
  step_blocked Hp Ho; [done|].
  edestruct (last_call (sigprocmask SIG_SETMASK prev_all) (@None (Z * Z)) w0)
    as (w' & Hc & Hd); [reflexivity|].
  lazymatch type of Hd with deliver ?w1 = _ => exists w1 end.
  exists w'. split_and!; [done | done | cbn; by rewrite Hp | done].
Qed.

Lemma resolve_job_run name token prev_all w :
  blocks_all (sigmask (proc w)) →
  ∃ w1 new,
    trace (proc w1) = trace (proc w) ++ new
    ∧ job_list (proc w1) = job_list (proc w)
    ∧ os w1 = os w
    ∧ Forall builtin_event new
    ∧ killed new = []
    ∧ match resolved name token (job_list (proc w)) with
      | inl msg =>
          printed new = [msg] ∧ sigmask (proc w1) = prev_all
          ∧ ∃ w', resolve_job name token prev_all w = Done None w'
                  ∧ deliver w1 = Some w'
      | inr r =>
          printed new = [] ∧ sigmask (proc w1) = sigmask (proc w)
          ∧ resolve_job name token prev_all w = Done (Some r) w1
      end.
Proof.
  intros Hb. unfold resolve_job, resolved.
  pose proof (eq_refl (proc w)) as Hp. pose proof (eq_refl (os w)) as Ho.
  destruct (argc token =? 1).
  { destruct (error_path (missing_argument name) prev_all w Hb) as (w1 & w' & Hr & Hd & Hp1 & Ho1).
    exists w1. eexists. rewrite Hp1. simpl_world.
    split_and!; [by rewrite <- app_assoc | done | done | solve_Forall | done..| eauto]. }
  destruct (negb _ && negb _).
  { destruct (error_path (bad_argument name) prev_all w Hb) as (w1 & w' & Hr & Hd & Hp1 & Ho1).
    exists w1. eexists. rewrite Hp1. simpl_world.
    split_and!; [by rewrite <- app_assoc | done | done | solve_Forall | done..| eauto]. }
  destruct (char_code (first_char (argv_at token 1)) =? 37).
  - step_blocked Hp Ho; [done|]. cbn [fst snd].
    destruct (JobTable.job_exists _ _) eqn:Ex.
    + step_blocked Hp Ho; [done|]. norm_bind.
      exists w1. eexists. rewrite Hp. simpl_world.
      split_and!; [by rewrite <- app_assoc | done | done | solve_Forall | done..].
    + destruct (error_path (no_such_job (argv_at token 1)) prev_all w0)
        as (w1 & w' & Hr & Hd & Hp1 & Ho1); [by rewrite Hp|].
      exists w1. eexists. rewrite Hp1, Hp. simpl_world.
      split_and!; [by rewrite <- !app_assoc | done | congruence | solve_Forall | done..| eauto].
  - step_blocked Hp Ho; [done|]. step_blocked Hp Ho; [done|]. cbn [fst snd].
    destruct (JobTable.job_exists _ _) eqn:Ex.
    + norm_bind. exists w1. eexists. rewrite Hp. simpl_world.
      split_and!; [by rewrite <- app_assoc | done | done | solve_Forall | done..].
    + destruct (error_path (no_such_job (argv_at token 1)) prev_all w1)
        as (w2 & w' & Hr & Hd & Hp1 & Ho1); [by rewrite Hp|].
      exists w2. eexists. rewrite Hp1, Hp. simpl_world.
      split_and!; [by rewrite <- !app_assoc | done | congruence | solve_Forall | done..| eauto].
Qed.

(** Claim C7, as amended.  [bg] and [fg] block every signal and resolve
    their argument as [resolved] says: a missing argument, or an argument
    whose first character is neither ['%'] nor a digit, or one that
    resolves to no live job, gives the error message, no signal and no
    change of the job list; otherwise [SIGCONT] is sent to minus the
    process id of the job and the job is set to [BG] by [bg], which prints
    its line and unblocks, and to [FG] by [fg], which goes on with the
    foreground wait for that process, signals still blocked.  Up to that
    point the command neither suspends nor is interrupted by a handler
    ([builtin_event]). *)
Theorem bg_and_fg_built_ins fuel token w :
  let jl := job_list (proc w) in
  let prev_all := sigmask (proc w) in
  (∃ w1 w' new,
     eval_bg token w = Done tt w' ∧ deliver w1 = Some w'
     ∧ trace (proc w1) = trace (proc w) ++ new
     ∧ sigmask (proc w1) = prev_all
     ∧ Forall builtin_event new
     ∧ match resolved "bg" token jl with
       | inl msg => printed new = [msg] ∧ killed new = [] ∧ job_list (proc w1) = jl
       | inr (jid, pid) =>
           printed new = [job_line jid pid (JobTable.job_get_cmdline jid jl)]
           ∧ killed new = [(- pid, SIGCONT)]
           ∧ job_list (proc w1) = JobTable.job_set_state jid BG jl
       end)
  ∧ match resolved "fg" token jl with
    | inl msg =>
        ∃ w1 w' new,
          eval_fg fuel token w = Done tt w' ∧ deliver w1 = Some w'
          ∧ trace (proc w1) = trace (proc w) ++ new
          ∧ sigmask (proc w1) = prev_all
          ∧ Forall builtin_event new
          ∧ printed new = [msg] ∧ killed new = [] ∧ job_list (proc w1) = jl
    | inr (jid, pid) =>
        ∃ w1 new,
          eval_fg fuel token w
          = (wait_fg fuel prev_all pid
             ≫= λ _, call (sigprocmask SIG_SETMASK prev_all) ≫= λ _, mret tt) w1
          ∧ trace (proc w1) = trace (proc w) ++ new
          ∧ blocks_all (sigmask (proc w1))
          ∧ Forall builtin_event new
          ∧ printed new = [] ∧ killed new = [(- pid, SIGCONT)]
          ∧ job_list (proc w1) = JobTable.job_set_state jid FG jl
    end.
Proof.
  intros jl prev_all. pose proof (blocks_all_lor (sigmask (proc w))) as Hfull. split.
  - unfold eval_bg.
    pose proof (eq_refl (proc w)) as Hp. pose proof (eq_refl (os w)) as Ho.
    step_blocked Hp Ho.
    destruct (resolve_job_run "bg" token prev_all w0) as (w1 & new & Ht & Hj & Ho1 & Hn & Hk & Hres);
      [by rewrite Hp|].
    rewrite Hp in Ht, Hj, Hres. cbn in Ht, Hj, Hres. fold jl prev_all in Ht, Hj, Hres |- *.
    destruct (resolved "bg" token jl) as [msg|[jid pid]].
    + destruct Hres as (Hpr & Hm & w' & Hr & Hd).
      rewrite (bind_Done _ _ _ _ _ Hr).
      exists w1, w'. eexists. split_and!; [done | done | rewrite Ht; by rewrite <- app_assoc | done | ..].
      * apply Forall_cons_2; [done|]. done.
      * cbn. unfold printed in Hpr. by rewrite Hpr.
      * cbn. unfold killed in Hk. by rewrite Hk.
      * done.
    + destruct Hres as (Hpr & Hm & Hr).
      rewrite (bind_Done _ _ _ _ _ Hr). clear Hp Ho.
      pose proof (eq_refl (proc w1)) as Hp. pose proof (eq_refl (os w1)) as Ho.
      step_blocked Hp Ho; [by rewrite Hm|].
      step_blocked Hp Ho; [by rewrite Hm|].
      step_kill Hp Ho; [by rewrite Hm|].
      step_blocked Hp Ho; [by rewrite Hm|].
      edestruct (last_call (sigprocmask SIG_SETMASK prev_all) tt w5) as (w' & Hc & Hd); [reflexivity|].
      rewrite Hc.
      lazymatch type of Hd with deliver ?w6 = _ => exists w6 end.
      exists w'. eexists. cbn. rewrite Hp. cbn. rewrite Ht, Hj, Hm. cbn.
      split_and!; [done | done | rewrite <- !app_assoc; reflexivity | done | ..].
      * apply Forall_cons_2; [done|]. apply Forall_app_2; [done|]. solve_Forall.
      * unfold printed in *. cbn. rewrite omap_app, Hpr. done.
      * unfold killed in *. cbn. rewrite omap_app, Hk. done.
      * done.
  - unfold eval_fg.
    pose proof (eq_refl (proc w)) as Hp. pose proof (eq_refl (os w)) as Ho.
    step_blocked Hp Ho.
    destruct (resolve_job_run "fg" token prev_all w0) as (w1 & new & Ht & Hj & Ho1 & Hn & Hk & Hres);
      [by rewrite Hp|].
    rewrite Hp in Ht, Hj, Hres. cbn in Ht, Hj, Hres. fold jl prev_all in Ht, Hj, Hres |- *.
    destruct (resolved "fg" token jl) as [msg|[jid pid]].
    + destruct Hres as (Hpr & Hm & w' & Hr & Hd).
      rewrite (bind_Done _ _ _ _ _ Hr).
      exists w1, w'. eexists. split_and!; [done | done | rewrite Ht; by rewrite <- app_assoc | done | ..].
      * apply Forall_cons_2; [done|]. done.
      * cbn. unfold printed in Hpr. by rewrite Hpr.
      * cbn. unfold killed in Hk. by rewrite Hk.
      * done.
    + destruct Hres as (Hpr & Hm & Hr).
      rewrite (bind_Done _ _ _ _ _ Hr). clear Hp Ho.
      pose proof (eq_refl (proc w1)) as Hp. pose proof (eq_refl (os w1)) as Ho.
      step_kill Hp Ho; [by rewrite Hm|].
      step_blocked Hp Ho; [by rewrite Hm|].
      exists w3. eexists. rewrite Hp. cbn. rewrite Ht, Hj, Hm.
      split_and!; [done | rewrite <- !app_assoc; reflexivity | done | ..].
      * apply Forall_cons_2; [done|]. apply Forall_app_2; [done|]. solve_Forall.
      * unfold printed in *. cbn. rewrite omap_app, Hpr. done.
      * unfold killed in *. cbn. rewrite omap_app, Hk. done.
      * done.
Qed.

(** The argument ["12abc"] is neither a bare number nor a ['%']-prefixed
    number, yet [bg 12abc] prints no error: it sends [SIGCONT] to the
    process group 12 and sets job 1 to [BG]. *)
Lemma bg_accepts_malformed_argument :
  let w := make_world 0 one_stopped_job [12%positive] [] 0 [] quiet_oracle in
  let w' := final (eval_bg (make_tokens BUILTIN_BG ["bg"; "12abc"] None None) w) in
  number_or_percent_number "12abc" = false
  ∧ killed (trace (proc w')) = [(-12, SIGCONT)]
  ∧ job_list (proc w') !! 0%nat
    = Some {| j_pid := 12; j_state := BG; j_cmdline := "sleep 5" |}
  ∧ job_list (proc w') ≠ job_list (proc w)
  ∧ printed (trace (proc w')) = [job_line 1 12 "sleep 5"].
Proof. vm_compute. split_and!; done. Qed.

(** ** Reading the number of the argument *)

Lemma strtol_digits_leading s acc :
  strtol_digits acc s = strtol_digits acc (leading_digits s).
Proof.
  revert acc. induction s as [|c s IH]; intros acc; cbn; [done|].
  destruct (isdigit c) eqn:E; cbn; [|done]. by rewrite E.
Qed.

Lemma strtol_digits_nonneg s acc : 0 ≤ acc → 0 ≤ strtol_digits acc s.
Proof.
  revert acc. induction s as [|c s IH]; intros acc Hacc; cbn; [done|].
  unfold isdigit. destruct (48 <=? char_code c) eqn:E1; cbn; [|done].
  destruct (char_code c <=? 57); [|done]. apply IH. lia.
Qed.

Lemma strtol_leading_digits s :
  isdigit (first_char s) = true →
  strtol s = Z.min LONG_MAX (strtol_digits 0 (leading_digits s)).
Proof.
  destruct s as [|c s]; [done|]. cbn [first_char]. intros Hd.
  pose proof Hd as Hd'. unfold isdigit in Hd'. apply andb_true_iff in Hd' as [H1 H2].
  apply Z.leb_le in H1, H2.
  unfold strtol. cbn [skip_space]. unfold isspace.
  rewrite (proj2 (Z.eqb_neq _ 32)) by lia.
  rewrite (proj2 (Z.leb_gt _ 13)) by lia. rewrite andb_false_r. cbn [orb].
  rewrite (proj2 (Z.eqb_neq _ 45)) by lia. rewrite (proj2 (Z.eqb_neq _ 43)) by lia.
  rewrite <- strtol_digits_leading.
  pose proof (strtol_digits_nonneg (String c s) 0 ltac:(done)).
  unfold LONG_MIN, LONG_MAX. lia.
Qed.

Lemma printed_signals sigs : Forall is_signal sigs → printed sigs = [].
Proof.
  induction 1 as [|e sigs He _ IH]; [done|]. destruct e; try done.
Qed.

Lemma deliver_delivered w w' : deliver w = Some w' → delivered w w'.
Proof. intros Hd. destruct (deliver_total w) as (w2 & Hd2 & H2). congruence. Qed.

(** Claim C10.  With an argument, the only test of its shape is on its
    first character.  If that is a digit, the process id is the number
    written by the leading digits of the argument, whatever follows them;
    if it is ['%'], the job id is what [strtol] reads after it, which is
    the number written by the leading digits when a digit comes first.
    In both cases nothing is printed unless there is no such live job,
    and then it is the "No such job" line. *)
Theorem argument_is_read_by_its_leading_number name token prev_all w :
  blocks_all (sigmask (proc w)) →
  argc token ≠ 1 →
  let arg := argv_at token 1 in
  let jl := job_list (proc w) in
  (isdigit (first_char arg) = true →
   let pid := int_of_long (Z.min LONG_MAX (strtol_digits 0 (leading_digits arg))) in
   let jid := JobTable.job_from_pid pid jl in
   ∃ w' new,
     resolve_job name token prev_all w
     = Done (if JobTable.job_exists jid jl then Some (jid, pid) else None) w'
     ∧ trace (proc w') = trace (proc w) ++ new
     ∧ printed new = (if JobTable.job_exists jid jl then [] else [no_such_job arg]))
  ∧ (char_code (first_char arg) = 37 →
     let jid := int_of_long (strtol (rest arg)) in
     let pid := JobTable.job_get_pid jid jl in
     (isdigit (first_char (rest arg)) = true →
      jid = int_of_long (Z.min LONG_MAX (strtol_digits 0 (leading_digits (rest arg)))))
     ∧ ∃ w' new,
         resolve_job name token prev_all w
         = Done (if JobTable.job_exists jid jl then Some (jid, pid) else None) w'
         ∧ trace (proc w') = trace (proc w) ++ new
         ∧ printed new = (if JobTable.job_exists jid jl then [] else [no_such_job arg])).
Proof.
  intros Hb Hargc arg jl.
  destruct (resolve_job_run name token prev_all w Hb)
    as (w1 & new & Ht & Hj & Ho & Hn & Hk & Hres).
  fold jl in Hres. unfold resolved in Hres.
  rewrite (proj2 (Z.eqb_neq _ _) Hargc) in Hres. fold arg in Hres.
  assert (∀ r : Z * Z,
    match (if JobTable.job_exists r.1 jl then inr r else inl (no_such_job arg)) with
    | inl msg => printed new = [msg] ∧ sigmask (proc w1) = prev_all
                 ∧ ∃ w', resolve_job name token prev_all w = Done None w'
                         ∧ deliver w1 = Some w'
    | inr r => printed new = [] ∧ sigmask (proc w1) = sigmask (proc w)
               ∧ resolve_job name token prev_all w = Done (Some r) w1
    end →
    ∃ w' new',
      resolve_job name token prev_all w
      = Done (if JobTable.job_exists r.1 jl then Some r else None) w'
      ∧ trace (proc w') = trace (proc w) ++ new'
      ∧ printed new' = (if JobTable.job_exists r.1 jl then [] else [no_such_job arg]))
    as Hcase.
  { intros r Hr. destruct (JobTable.job_exists r.1 jl).
    - destruct Hr as (Hp & _ & Hrun). by exists w1, new.
    - destruct Hr as (Hp & _ & w' & Hrun & Hd).
      apply deliver_delivered in Hd as (_ & _ & _ & sigs & Hts & Hs & _).
      exists w', (new ++ sigs). split_and!; [done | by rewrite Hts, Ht, app_assoc |].
      by rewrite printed_app, Hp, printed_signals, app_nil_r. }
  split.
  - intros Hd pid jid.
    assert ((char_code (first_char arg) =? 37) = false) as E37.
    { unfold isdigit in Hd. apply andb_true_iff in Hd as [H1 H2].
      apply Z.leb_le in H1, H2. apply Z.eqb_neq. lia. }
    rewrite Hd, E37 in Hres. cbn [negb andb] in Hres.
    rewrite strtol_leading_digits in Hres by done.
    apply (Hcase (jid, pid)), Hres.
  - intros H37 jid pid.
    split; [intros Hd; unfold jid; by rewrite strtol_leading_digits|].
    rewrite (proj2 (Z.eqb_eq _ _) H37) in Hres. cbn [negb andb] in Hres.
    apply (Hcase (jid, pid)), Hres.
Qed.

(** ** The child *)

Lemma bind_Exited {A B} (m : M A) (f : A → M B) w s w' :
  m w = Exited s w' → (m ≫= f) w = Exited s w'.
Proof. unfold mbind, M_bind. by intros ->. Qed.

Lemma bind_Execed {A B} (m : M A) (f : A → M B) w p a w' :
  m w = Execed p a w' → (m ≫= f) w = Execed p a w'.
Proof. unfold mbind, M_bind. by intros ->. Qed.

(** A call made with signals possibly unblocked. *)
Lemma bind_call_open {A B} (h : H A) (f : A → M B) w a w1 :
  h w = Some (a, w1) →
  ∃ w2 sigs,
    (call h ≫= f) w = f a w2
    ∧ sigmask (proc w2) = sigmask (proc w1)
    ∧ errno (proc w2) = errno (proc w1)
    ∧ os w2 = os w1
    ∧ trace (proc w2) = trace (proc w1) ++ sigs
    ∧ printed sigs = [].
Proof.
  intros Hh.
  destruct (bind_call_any h f w a w1 Hh) as (w2 & Hc & _ & Hm & He & Ho & sigs & Ht & Hs & _).
  exists w2, sigs. split_and!; try done. by apply printed_signals.
Qed.

Lemma report_errno_run name w :
  ∃ w1 new,
    report_errno name w = Done tt w1
    ∧ trace (proc w1) = trace (proc w) ++ new
    ∧ printed new = diagnostic name (errno (proc w))
    ∧ sigmask (proc w1) = sigmask (proc w)
    ∧ os w1 = os w.
Proof.
  unfold report_errno, diagnostic.
  rewrite (bind_Done read_errno _ w (errno (proc w)) w eq_refl).
  destruct (errno (proc w) =? 2); [|destruct (errno (proc w) =? 13)].
  - edestruct (call_any (sio_printf (name +:+ ": No such file or directory" +:+ nl)) w)
      as (w1 & Hc & _ & Hm & _ & Ho & sigs & Ht & Hs & _); [reflexivity|].
    rewrite Hc. eexists _, _. split; [done|]. cbn in Ht.
    split_and!; [by rewrite Ht, <- app_assoc | | done | done].
    rewrite printed_app, (printed_signals _ Hs). done.
  - edestruct (call_any (sio_printf (name +:+ ": Permission denied" +:+ nl)) w)
      as (w1 & Hc & _ & Hm & _ & Ho & sigs & Ht & Hs & _); [reflexivity|].
    rewrite Hc. eexists _, _. split; [done|]. cbn in Ht.
    split_and!; [by rewrite Ht, <- app_assoc | | done | done].
    rewrite printed_app, (printed_signals _ Hs). done.
  - exists w, []. split_and!; try done. by rewrite app_nil_r.
Qed.

Lemma redirect_run file flags mode target w :
  blocks_all (sigmask (proc w)) →
  match open_failure (os w) file flags mode with
  | Some (name, e) =>
      ∃ w' new, redirect file flags mode target w = Exited 0 w'
                ∧ trace (proc w') = trace (proc w) ++ new
                ∧ printed new = diagnostic name e
                ∧ In (E_open name flags mode (-1)) new
  | None =>
      ∃ w1 new, redirect file flags mode target w = Done tt w1
                ∧ trace (proc w1) = trace (proc w) ++ new
                ∧ printed new = []
                ∧ sigmask (proc w1) = sigmask (proc w)
                ∧ os w1 = os w
                ∧ ∀ name, file = Some name → ∃ ret, In (E_open name flags mode ret) new
  end.
Proof.
  intros Hb. unfold redirect, open_failure. destruct file as [name|].
  2:{ exists w, []. split_and!; try done. by rewrite app_nil_r. }
  pose proof (eq_refl (proc w)) as Hp. pose proof (eq_refl (os w)) as Ho.
  destruct (fs_open (os w) name flags mode) as [fd|e] eqn:Eo.
  - step_blocked_by ltac:(unfold sys_open; rewrite Eo; reflexivity) Hp Ho; [done|].
    rewrite bool_decide_eq_true_2 by lia.
    step_blocked Hp Ho; [done|].
    edestruct (call_blocked (close (Z.of_N fd)) w1) as (w2 & Hc & Hp2 & Ho2);
      [reflexivity | cbn; by rewrite Hp |].
    rewrite Hc. exists w2. eexists. split; [done|]. rewrite Hp2. cbn. rewrite Hp. cbn.
    split_and!; [by rewrite <- !app_assoc | done | done | cbn in Ho2; congruence |].
    intros ? [= <-]. eexists. by left.
  - step_blocked_by ltac:(unfold sys_open; rewrite Eo; reflexivity) Hp Ho; [done|].
    rewrite bool_decide_eq_false_2 by lia.
    destruct (report_errno_run name w0) as (w2 & new & Hr & Ht & Hpr & _).
    rewrite (bind_Done _ _ _ _ _ Hr). exists w2. eexists. split; [done|].
    rewrite Hp in Ht, Hpr. cbn in Ht, Hpr.
    split; [rewrite Ht; by rewrite <- app_assoc|].
    split; [by rewrite printed_app | by left].
Qed.

Lemma bind_execve_fails {B} path args (f : Z → M B) w e :
  fs_execve (os w) path args = Some e →
  ∃ w2 sigs,
    (execve path args ≫= f) w = f (-1) w2
    ∧ errno (proc w2) = e
    ∧ os w2 = os w
    ∧ trace (proc w2) = trace (proc w) ++ [E_execve path args (-1)] ++ sigs
    ∧ printed sigs = [].
Proof.
  intros He.
  edestruct (call_any (λ w', Some (-1, with_proc (λ p, set_errno e (log (E_execve path args (-1)) p)) w')) w)
    as (w2 & Hc & _ & _ & Her & Ho & sigs & Ht & Hs & _); [reflexivity|].
  exists w2, sigs. split_and!; try done.
  - apply bind_Done. unfold execve. by rewrite He.
  - cbn in Ht. by rewrite Ht, <- app_assoc.
  - by apply printed_signals.
Qed.

Ltac step_open :=
  norm_bind;
  lazymatch goal with
  | |- context [(call ?h ≫= ?f) ?w] =>
      let w2 := fresh "w" in
      let sigs := fresh "sigs" in
      let Hc := fresh "Hc" in
      let Ho := fresh "Ho" in
      let Ht := fresh "Ht" in
      let Hs := fresh "Hs" in
      edestruct (bind_call_open h f w) as (w2 & sigs & Hc & _ & _ & Ho & Ht & Hs);
      [ reflexivity | rewrite Hc; clear Hc; cbv beta; cbn in Ho, Ht ]
  end.

Lemma child_exec_run token prev_all w :
  match exec_failure (os w) token with
  | Some (name, e) =>
      ∃ w' new, child_exec token prev_all w = Exited 0 w'
                ∧ trace (proc w') = trace (proc w) ++ new
                ∧ printed new = diagnostic name e
  | None =>
      ∃ w' new, child_exec token prev_all w = Execed (argv_at token 0) (argv token) w'
                ∧ trace (proc w') = trace (proc w) ++ new
                ∧ printed new = []
  end.
Proof.
  unfold child_exec, exec_failure.
  step_open. step_open.
  assert (os w1 = os w) as Ho1 by congruence. rewrite <- Ho1.
  destruct (fs_execve (os w1) (argv_at token 0) (argv token)) as [e|] eqn:Ex.
  - destruct (bind_execve_fails (argv_at token 0) (argv token)
                (λ r, if r <? 0 then report_errno (argv_at token 0) ≫= λ _, _exit 0 else mret ())
                w1 e Ex) as (w3 & s3 & -> & He3 & Ho3 & Ht3 & Hs3).
    cbn [Z.ltb Z.compare].
    destruct (report_errno_run (argv_at token 0) w3) as (w4 & new & Hr & Ht4 & Hp4 & _).
    rewrite (bind_Done _ _ _ _ _ Hr). exists w4. eexists. split; [done|].
    split; [rewrite Ht4, Ht3, Ht0, Ht; rewrite <- !app_assoc; reflexivity|].
    rewrite !printed_app, Hs, Hs0, Hs3, Hp4, He3. done.
  - eexists. eexists. split.
    { apply bind_Execed. unfold execve. rewrite Ex. reflexivity. }
    cbn. split; [rewrite Ht0, Ht; rewrite <- !app_assoc; reflexivity|].
    rewrite !printed_app, Hs, Hs0. done.
Qed.

Lemma eval_child_redirects token prev_all :
  eval_child token prev_all
  = (redirect (infile token) O_RDONLY 0 STDIN_FILENO
     ≫= λ _, redirect (outfile token) output_flags MODE STDOUT_FILENO
     ≫= λ _, child_exec token prev_all).
Proof. reflexivity. Qed.

Lemma grows_child_exec token prev_all : grows (child_exec token prev_all).
Proof. unfold child_exec. pose proof grows_report_errno. solve_grows. Qed.

Lemma eval_child_run token prev_all w :
  blocks_all (sigmask (proc w)) →
  child_ends (os w) token w (eval_child token prev_all w)
  ∧ (open_failure (os w) (infile token) O_RDONLY 0 = None →
     ∀ name, outfile token = Some name →
     ∃ ret, In (E_open name output_flags MODE ret)
               (trace (proc (final (eval_child token prev_all w))))).
Proof.
  intros Hb. rewrite eval_child_redirects. unfold child_ends, launch_failure.
  pose proof (redirect_run (infile token) O_RDONLY 0 STDIN_FILENO w Hb) as Hin.
  destruct (open_failure (os w) (infile token) O_RDONLY 0) as [[name e]|].
  { destruct Hin as (w' & new & Hr & Ht & Hp & _). split; [|done].
    exists w', new. split; [by apply bind_Exited | done]. }
  destruct Hin as (w1 & new1 & Hr1 & Ht1 & Hp1 & Hm1 & Ho1 & _).
  rewrite (bind_Done _ _ _ _ _ Hr1).
  pose proof (redirect_run (outfile token) output_flags MODE STDOUT_FILENO w1) as Hout.
  rewrite Hm1, Ho1 in Hout. specialize (Hout Hb).
  unfold open_failure in Hout |- * at 1.
  destruct (outfile token) as [oname|] eqn:Eout.
  - destruct (fs_open (os w) oname output_flags MODE) as [fd|e].
    + destruct Hout as (w2 & new2 & Hr2 & Ht2 & Hp2 & Hm2 & Ho2 & Hopen).
      rewrite (bind_Done _ _ _ _ _ Hr2).
      pose proof (child_exec_run token prev_all w2) as Hex. rewrite Ho2 in Hex.
      destruct (Hopen oname eq_refl) as (ret & Hret).
      split.
      * destruct (exec_failure (os w) token) as [[name e]|];
          destruct Hex as (w' & new & -> & Ht & Hp); exists w'; eexists;
          (split; [done|]);
          (split; [rewrite Ht, Ht2, Ht1; rewrite <- !app_assoc; reflexivity|]);
          by rewrite !printed_app, Hp1, Hp2, Hp.
      * intros _ ? [= <-]. exists ret.
        destruct (grows_child_exec token prev_all w2) as (rest & ->).
        rewrite Ht2, Ht1, !in_app_iff. tauto.
    + destruct Hout as (w' & new & Hr & Ht & Hp & Hopen).
      rewrite (bind_Exited _ _ _ _ _ Hr). split.
      * exists w'. eexists. split; [done|].
        split; [rewrite Ht, Ht1; by rewrite <- app_assoc|].
        by rewrite printed_app, Hp1, Hp.
      * intros _ ? [= <-]. exists (-1). cbn. rewrite Ht, Ht1, !in_app_iff. tauto.
  - destruct Hout as (w2 & new2 & Hr2 & Ht2 & Hp2 & Hm2 & Ho2 & _).
    rewrite (bind_Done _ _ _ _ _ Hr2).
    pose proof (child_exec_run token prev_all w2) as Hex. rewrite Ho2 in Hex.
    split; [|done].
    destruct (exec_failure (os w) token) as [[name e]|];
      destruct Hex as (w' & new & -> & Ht & Hp); exists w'; eexists;
      (split; [done|]);
      (split; [rewrite Ht, Ht2, Ht1; rewrite <- !app_assoc; reflexivity|]);
      by rewrite !printed_app, Hp1, Hp2, Hp.
Qed.

Lemma fork_child w :
  fork_ret (os w) = 0 →
  fork w = Some (0, with_kern (λ k, set_sigpend 0 (set_wait_queue [] (set_children [] k)))
                      (with_proc (log (E_fork 0)) w)).
Proof. intros Hr. unfold fork. by rewrite Hr. Qed.

(** [eval] in the child, up to the body of the [if]. *)
Lemma eval_in_child fuel pr token cmdline w :
  builtin token = BUILTIN_NONE →
  pr = PARSELINE_FG ∨ pr = PARSELINE_BG →
  fork_ret (os w) = 0 →
  ∃ w1 k,
    eval fuel pr token cmdline w = (eval_child token (sigmask (proc w)) ≫= k) w1
    ∧ proc w1 = log (E_fork 0)
                  (log (E_sigprocmask SIG_BLOCK mask_all (Z.lor (sigmask (proc w)) mask_all))
                     (set_sigmask (Z.lor (sigmask (proc w)) mask_all) (proc w)))
    ∧ os w1 = os w.
Proof.
  intros Hb Hpr Hr.
  assert (eval fuel pr token cmdline w = eval_external fuel pr token cmdline w) as ->.
  { unfold eval. rewrite Hb. by destruct Hpr as [-> | ->]. }
  unfold eval_external.
  pose proof (eq_refl (proc w)) as Hp. pose proof (eq_refl (os w)) as Ho.
  step_blocked Hp Ho.
  step_blocked_by ltac:(apply fork_child; by rewrite Ho) Hp Ho.
  change (0 =? 0) with true. cbv iota.
  eexists w1, _. split; [reflexivity | done].
Qed.

(** Claim C9, as amended.  In the child, the first of the three steps that
    fails (opening the input file, opening the output file, running the
    program) is reported with ["No such file or directory"] when the
    error number is 2, with ["Permission denied"] when it is 13, and with
    nothing for any other error number; the child then exits with status 0
    and the program is not run.  When no step fails, the program runs. *)
Theorem launch_failure_is_reported_for_two_errors fuel pr token cmdline w :
  builtin token = BUILTIN_NONE →
  pr = PARSELINE_FG ∨ pr = PARSELINE_BG →
  fork_ret (os w) = 0 →
  match launch_failure (os w) token with
  | Some (name, e) =>
      ∃ w' new,
        eval fuel pr token cmdline w = Exited 0 w'
        ∧ trace (proc w') = trace (proc w) ++ new
        ∧ printed new = diagnostic name e
  | None =>
      ∃ w' new,
        eval fuel pr token cmdline w = Execed (argv_at token 0) (argv token) w'
        ∧ trace (proc w') = trace (proc w) ++ new
        ∧ printed new = []
  end.
Proof.
  intros Hb Hpr Hr.
  destruct (eval_in_child fuel pr token cmdline w Hb Hpr Hr) as (w1 & k & -> & Hp & Ho).
  destruct (eval_child_run token (sigmask (proc w)) w1) as [Hends _].
  { rewrite Hp. apply blocks_all_lor. }
  unfold child_ends in Hends. rewrite Ho in Hends.
  destruct (launch_failure (os w) token) as [[name e]|];
    destruct Hends as (w' & new & Hrun & Ht & Hpr'); exists w'; eexists.
  - split; [by apply bind_Exited|]. rewrite Ht, Hp. cbn.
    split; [rewrite <- !app_assoc; reflexivity|]. done.
  - split; [by apply bind_Execed|]. rewrite Ht, Hp. cbn.
    split; [rewrite <- !app_assoc; reflexivity|]. done.
Qed.

(** Opening a directory for writing fails with [EISDIR]: the child prints
    nothing at all and exits with status 0. *)
Lemma launch_failure_can_be_silent :
  let o := {| fork_ret := 0;
              fs_open := λ _ _ _, inr EISDIR;
              fs_execve := λ _ _, None;
              fs_write := λ _, true |} in
  let w := make_world 0 (JobTable.init_job_list 4) [] [] 0 [] o in
  let token := make_tokens BUILTIN_NONE ["/bin/ls"] None (Some "dir") in
  ∃ w', eval 1 PARSELINE_FG token "/bin/ls > dir" w = Exited 0 w'
        ∧ printed (trace (proc w')) = []
        ∧ In (E_open "dir" output_flags MODE (-1)) (trace (proc w')).
Proof.
  eexists. vm_compute.
  split_and!; [reflexivity | reflexivity | repeat (first [by left | right])].
Qed.

(** ** Output redirection *)

Lemma eval_jobs_opens token w name :
  outfile token = Some name →
  ∃ ret, In (E_open name output_flags MODE ret) (trace (proc (final (eval_jobs token w)))).
Proof.
  intros Hout. unfold eval_jobs. rewrite Hout.
  pose proof (eq_refl (proc w)) as Hp. pose proof (eq_refl (os w)) as Ho.
  pose proof grows_report_errno.
  step_blocked Hp Ho. fold output_flags.
  destruct (fs_open (os w) name output_flags MODE) as [fd|e] eqn:Eo.
  - step_blocked_by ltac:(unfold sys_open; rewrite Ho, Eo; reflexivity) Hp Ho.
    lazymatch goal with
    | |- context [final (?m ?w')] =>
        assert (grows m) as Hg by solve_grows; destruct (Hg w') as (rest & ->)
    end.
    exists (Z.of_N fd). rewrite Hp. cbn. rewrite !in_app_iff. cbn. tauto.
  - step_blocked_by ltac:(unfold sys_open; rewrite Ho, Eo; reflexivity) Hp Ho.
    lazymatch goal with
    | |- context [final (?m ?w')] =>
        assert (grows m) as Hg by solve_grows; destruct (Hg w') as (rest & ->)
    end.
    exists (-1). rewrite Hp. cbn. rewrite !in_app_iff. cbn. tauto.
Qed.

(** Claim C8, as amended.  Output redirection, in the child of an external
    command and in [jobs], opens the file with [O_CREAT | O_TRUNC |
    O_WRONLY] and the permission bits [MODE], which is octal 644: read and
    write for the owner, read alone for the group and for others, and no
    write or execute permission for the group or for others. *)
Theorem output_redirection_mode :
  MODE = 420
  ∧ Z.land MODE (Z.lor (Z.lor S_IRUSR S_IWUSR) S_IXUSR) = Z.lor S_IRUSR S_IWUSR
  ∧ Z.land MODE S_IRWXG = S_IRGRP
  ∧ Z.land MODE S_IRWXO = S_IROTH
  ∧ (∀ token w name,
       outfile token = Some name →
       ∃ ret, In (E_open name output_flags MODE ret)
                 (trace (proc (final (eval_jobs token w)))))
  ∧ (∀ fuel pr token cmdline w name,
       builtin token = BUILTIN_NONE →
       pr = PARSELINE_FG ∨ pr = PARSELINE_BG →
       fork_ret (os w) = 0 →
       open_failure (os w) (infile token) O_RDONLY 0 = None →
       outfile token = Some name →
       ∃ ret, In (E_open name output_flags MODE ret)
                 (trace (proc (final (eval fuel pr token cmdline w))))).
Proof.
  split_and!; [done..| apply eval_jobs_opens |].
  intros fuel pr token cmdline w name Hb Hpr Hr Hin Hout.
  destruct (eval_in_child fuel pr token cmdline w Hb Hpr Hr) as (w1 & k & -> & Hp & Ho).
  destruct (eval_child_run token (sigmask (proc w)) w1) as [Hends Hopen].
  { rewrite Hp. apply blocks_all_lor. }
  rewrite Ho in Hopen. destruct (Hopen Hin name Hout) as (ret & Hret). exists ret.
  unfold child_ends in Hends.
  destruct (launch_failure (os w1) token) as [[? ?]|];
    destruct Hends as (w' & new & Hrun & _).
  - rewrite (bind_Exited _ _ _ _ _ Hrun). by rewrite Hrun in Hret.
  - rewrite (bind_Execed _ _ _ _ _ _ Hrun). by rewrite Hrun in Hret.
Qed.

(** The file that output redirection creates is readable by the group and
    by others. *)
Lemma output_file_is_readable_by_all :
  let o := {| fork_ret := 0;
              fs_open := λ _ _ _, inl 3%N;
              fs_execve := λ _ _, None;
              fs_write := λ _, true |} in
  let w := make_world 0 (JobTable.init_job_list 4) [] [] 0 [] o in
  let token := make_tokens BUILTIN_NONE ["/bin/ls"] None (Some "out") in
  ∃ mode,
    In (E_open "out" output_flags mode 3)
       (trace (proc (final (eval 1 PARSELINE_FG token "/bin/ls > out" w))))
    ∧ Z.land mode S_IRGRP ≠ 0
    ∧ Z.land mode S_IROTH ≠ 0.
Proof.
  exists MODE. vm_compute.
  split_and!; [repeat (first [by left | right]) | done | done].
Qed.

(** ** The continued status *)

(** For every run of the child-status handler: no "continued" status is
    ever waited for. *)
Lemma continued_is_never_waited_for sig w w' new p :
  sigchld_handler sig w = Some (tt, w') →
  trace (proc w') = trace (proc w) ++ new →
  ¬ In (p, W_CONTINUED) (waited new).
Proof.
  rewrite sigchld_handler_run. intros [= <-]. unfold sigchld_loop_result.
  set (rs := reported (wait_queue (kern w))).
  set (c := after_reaping rs (children (kern w))).
  destruct (reap_all_spec rs (proc w)) as (_ & _ & _ & evs & Ht & _ & _ & Hw & _).
  destruct (last_wait_spec c (reap_all rs (proc w))) as (_ & _ & r & Ht').
  unfold with_proc, set_errno. cbn [proc trace].
  intros Heq. rewrite Ht', Ht, <- app_assoc in Heq. apply app_inv_head in Heq as <-.
  rewrite waited_app, Hw. cbn. rewrite app_nil_r.
  intros Hin. apply list_elem_of_In, list_elem_of_fmap in Hin as ([q st] & Heq & Hin).
  cbn in Heq. injection Heq as -> <-.
  pose proof (reported_not_continued (wait_queue (kern w))) as Hall.
  rewrite Forall_forall in Hall. by apply Hall in Hin.
Qed.

(** Claim C4, on the code.  Job 1 is stopped and its process 12 has been
    continued.  The child-status handler returns without having waited for
    any status: the job is still [ST], not [FG], and the "continued"
    status is still in the queue.  Had the status been reported, the body
    of the loop would have set the job to [FG]. *)
Theorem continued_child_is_not_reaped :
  ∃ w',
    sigchld_handler SIGCHLD continued_world = Some (tt, w')
    ∧ waited (trace (proc w')) = []
    ∧ job_list (proc w') = one_stopped_job
    ∧ wait_queue (kern w') = [(12%positive, W_CONTINUED)]
    ∧ reap_jobs 12 W_CONTINUED one_stopped_job !! 0%nat
      = Some {| j_pid := 12; j_state := FG; j_cmdline := "sleep 5" |}.
Proof. eexists. vm_compute. split_and!; reflexivity. Qed.

(** ** The properties at work on sample runs *)

Lemma job_registered_before_unblocking_witness :
  ∃ w_reg,
    eval 3 PARSELINE_FG (make_tokens BUILTIN_NONE ["sleep"; "5"] None None) "sleep 5"
      (idle_world quiet_oracle [Env_child 100 (W_EXITED 0)])
    = (wait_fg 3 0 100;; call (sigprocmask SIG_SETMASK 0);; mret tt) w_reg
    ∧ blocks_all (sigmask (proc w_reg))
    ∧ job_list (proc w_reg) !! 0%nat
      = Some {| j_pid := 100; j_state := FG; j_cmdline := "sleep 5" |}.
Proof.
  destruct (job_registered_before_unblocking 3 PARSELINE_FG
              (make_tokens BUILTIN_NONE ["sleep"; "5"] None None) "sleep 5"
              (idle_world quiet_oracle [Env_child 100 (W_EXITED 0)]))
    as (w1 & w2 & w3 & w_reg & r & Hfull & _ & _ & _ & _ & He & Hm & _ & _ & _ & Hreg);
    [reflexivity | left; reflexivity | cbn; lia |].
  exists w_reg. split; [exact He|]. split.
  - apply Forall_cons in Hm as [_ Hm]. apply Forall_cons in Hm as [_ Hm].
    apply Forall_cons in Hm as [_ Hm]. apply Forall_cons in Hm as [Hm _].
    rewrite Hm. exact Hfull.
  - apply (Hreg 0%nat empty_job). reflexivity.
Defined.

Lemma foreground_wait_returns_after_status_change_witness :
  ∃ w1 new,
    wait_fg 3 0 100 waiting_world = Done tt w1
    ∧ waiting 100 (job_list (proc w1)) = false
    ∧ trace (proc w1) = trace (proc waiting_world) ++ new
    ∧ Forall (wait_event 0) new
    ∧ In (E_sigsuspend 0) new
    ∧ reaped_in 100 new
    ∧ sigmask (proc (final ((wait_fg 3 0 100
                             ≫= λ _, call (sigprocmask SIG_SETMASK 0)) waiting_world)))
      = 0.
Proof.
  apply (foreground_wait_returns_after_status_change 3 0 100 waiting_world mask_all);
    [vm_compute; reflexivity | reflexivity | vm_compute; reflexivity].
Defined.

Lemma launch_failure_is_reported_for_two_errors_witness :
  ∃ w' new,
    eval 1 PARSELINE_FG (make_tokens BUILTIN_NONE ["/bin/cat"] (Some "missing") None)
      "/bin/cat < missing" (idle_world missing_input_oracle [])
    = Exited 0 w'
    ∧ trace (proc w') = trace (proc (idle_world missing_input_oracle [])) ++ new
    ∧ printed new = ["missing: No such file or directory" +:+ nl].
Proof.
  apply (launch_failure_is_reported_for_two_errors 1 PARSELINE_FG
           (make_tokens BUILTIN_NONE ["/bin/cat"] (Some "missing") None)
           "/bin/cat < missing" (idle_world missing_input_oracle []));
    [reflexivity | left; reflexivity | reflexivity].
Defined.

Lemma output_redirection_mode_witness :
  ∃ ret,
    In (E_open "out" output_flags MODE ret)
       (trace (proc (final (eval 1 PARSELINE_BG
                              (make_tokens BUILTIN_NONE ["/bin/ls"; "&"] None (Some "out"))
                              "/bin/ls > out &" (idle_world child_oracle []))))).
Proof.
  destruct output_redirection_mode as (_ & _ & _ & _ & _ & Hchild).
  apply Hchild; [reflexivity | right; reflexivity | reflexivity | reflexivity | reflexivity].
Defined.

Lemma argument_is_read_by_its_leading_number_witness :
  ∃ w' new,
    resolve_job "bg" (make_tokens BUILTIN_BG ["bg"; "12abc"] None None) 0
      (make_world mask_all one_stopped_job [12%positive] [] 0 [] quiet_oracle)
    = Done (Some (1, 12)) w'
    ∧ trace (proc w') = [] ++ new
    ∧ printed new = [].
Proof.
  destruct (argument_is_read_by_its_leading_number "bg"
              (make_tokens BUILTIN_BG ["bg"; "12abc"] None None) 0
              (make_world mask_all one_stopped_job [12%positive] [] 0 [] quiet_oracle))
    as [Hdigit _]; [vm_compute; reflexivity | cbn; lia |].
  apply (Hdigit eq_refl).
Defined.
(** * The whole of [eval] *)

(** ** Handlers that interrupt the main line *)

Lemma no_new_fg_refl jl : no_new_fg jl jl.
Proof. by intros i j. Qed.

Lemma no_new_fg_trans jl1 jl2 jl3 :
  no_new_fg jl1 jl2 → no_new_fg jl2 jl3 → no_new_fg jl1 jl3.
Proof. intros H1 H2 i j Hi Hj. apply H1; [|done]. by apply H2. Qed.

Lemma no_new_fg_insert (jl : list job) i x :
  j_state x ≠ FG → no_new_fg jl (<[i := x]> jl).
Proof.
  intros Hx k j Hk Hj.
  apply list_lookup_insert_Some in Hk as [(-> & -> & _) | (_ & Hk)]; done.
Qed.

Lemma no_new_fg_delete jid jl : no_new_fg jl (JobTable.delete_job jid jl).
Proof.
  unfold JobTable.delete_job. destruct (JobTable.job_exists jid jl);
    [by apply no_new_fg_insert | apply no_new_fg_refl].
Qed.

Lemma no_new_fg_set_state jid st jl :
  st ≠ FG → no_new_fg jl (JobTable.job_set_state jid st jl).
Proof.
  intros Hst. unfold JobTable.job_set_state.
  destruct (JobTable.slot jid jl); [|apply no_new_fg_refl].
  destruct (bool_decide _); [by apply no_new_fg_insert | apply no_new_fg_refl].
Qed.

Lemma no_new_fg_add pid st cmd jl :
  st ≠ FG → no_new_fg jl (JobTable.add_job pid st cmd jl).2.
Proof.
  intros Hst. unfold JobTable.add_job.
  destruct (list_find _ jl) as [[i j]|]; [by apply no_new_fg_insert | apply no_new_fg_refl].
Qed.

Lemma no_new_fg_reap pid st jl :
  WIFCONTINUED st = false → no_new_fg jl (reap_jobs pid st jl).
Proof.
  intros Hst. unfold reap_jobs.
  destruct st; try done;
    [apply no_new_fg_delete | apply no_new_fg_delete | by apply no_new_fg_set_state].
Qed.

Lemma no_new_fg_reap_all rs jl :
  Forall (λ r, WIFCONTINUED r.2 = false) rs → no_new_fg jl (reap_all_jobs rs jl).
Proof.
  revert jl. induction rs as [|[pid st] rs IH]; intros jl Hrs; cbn.
  - apply no_new_fg_refl.
  - apply Forall_cons in Hrs as [Hst Hrs].
    eapply no_new_fg_trans; [by apply no_new_fg_reap | by apply IH].
Qed.

Lemma forward_events_handler sig p : Forall handler_event (forward_events sig p).
Proof.
  unfold forward_events. pose proof (blocks_all_lor (sigmask p)).
  destruct (bool_decide _); cbn; repeat constructor; done.
Qed.

Lemma reap_events_handler pid st p : Forall handler_event (reap_events pid st p).
Proof.
  unfold reap_events. pose proof (blocks_all_lor (sigmask p)).
  destruct st; cbn; repeat constructor; done.
Qed.

Lemma reap_all_handler rs p :
  ∃ evs, trace (reap_all rs p) = trace p ++ evs ∧ Forall handler_event evs.
Proof.
  revert p. induction rs as [|[pid st] rs IH]; intros p; cbn [reap_all].
  - exists []. by rewrite app_nil_r.
  - set (e := E_waitpid wait_options (Z.pos pid) (Some st)).
    destruct (IH (reap_one (Z.pos pid) st (log e p))) as (evs & Ht & Hevs).
    destruct (reap_one_spec (Z.pos pid) st (log e p)) as (_ & _ & _ & Ht1).
    rewrite Ht, Ht1, reap_events_log.
    exists ([e] ++ reap_events (Z.pos pid) st p ++ evs).
    split; [cbn [log set_trace trace]; by rewrite <- !app_assoc|].
    apply Forall_app_2; [by repeat constructor|].
    apply Forall_app_2; [apply reap_events_handler | done].
Qed.

Lemma interrupted_refl w : interrupted w w.
Proof.
  split_and!; [done | done | apply no_new_fg_refl |].
  exists []. by rewrite app_nil_r.
Qed.

Lemma interrupted_trans w1 w2 w3 :
  interrupted w1 w2 → interrupted w2 w3 → interrupted w1 w3.
Proof.
  intros (Hm1 & Ho1 & Hj1 & s1 & Ht1 & Hs1) (Hm2 & Ho2 & Hj2 & s2 & Ht2 & Hs2).
  split_and!; [congruence | congruence | by eapply no_new_fg_trans |].
  exists (s1 ++ s2). split; [by rewrite Ht2, Ht1, app_assoc | by apply Forall_app_2].
Qed.

Lemma interrupted_kern w f : interrupted w (with_kern f w).
Proof.
  split_and!; [done | done | apply no_new_fg_refl |].
  exists []. cbn. by rewrite app_nil_r.
Qed.

Lemma run_sigint_interrupted w w' :
  run_handler SIGINT sigint_handler w = Some w' → interrupted w w'.
Proof.
  unfold run_handler. rewrite sigint_handler_run. intros [= <-].
  split_and!; [done | done | apply no_new_fg_refl |].
  eexists. split; [reflexivity|].
  apply Forall_cons_2; [|apply Forall_nil_2]. apply forward_events_handler.
Qed.

Lemma run_sigtstp_interrupted w w' :
  run_handler SIGTSTP sigtstp_handler w = Some w' → interrupted w w'.
Proof.
  unfold run_handler. rewrite sigtstp_handler_run. intros [= <-].
  split_and!; [done | done | apply no_new_fg_refl |].
  eexists. split; [reflexivity|].
  apply Forall_cons_2; [|apply Forall_nil_2]. apply forward_events_handler.
Qed.

Lemma run_sigchld_interrupted w w' :
  run_handler SIGCHLD sigchld_handler w = Some w' → interrupted w w'.
Proof.
  unfold run_handler. rewrite sigchld_handler_run. intros [= <-].
  unfold sigchld_loop_result. cbn [proc kern os with_proc wait_queue children set_sigpend].
  set (p0 := set_trace [] (set_sigmask (Z.setbit (sigmask (proc w)) (SIGCHLD - 1)) (proc w))).
  set (rs := reported (wait_queue (kern w))).
  set (c := after_reaping rs (children (kern w))).
  destruct (reap_all_spec rs p0) as (Hm & He & Hj & _).
  destruct (reap_all_handler rs p0) as (evs & Ht & Hevs).
  destruct (last_wait_spec c (reap_all rs p0)) as (Hm' & Hj' & r & Ht').
  split_and!; [done | done | |].
  - cbn. rewrite Hj', Hj.
    apply no_new_fg_reap_all, reported_not_continued.
  - eexists. split; [reflexivity|].
    apply Forall_cons_2; [|apply Forall_nil_2]. cbn. rewrite Ht', Ht. cbn.
    apply Forall_app_2; [done | by repeat constructor].
Qed.

Lemma deliver_one_interrupted sig h w w' :
  (∀ w w', run_handler sig h w = Some w' → interrupted w w') →
  deliver_one sig h w = Some w' → interrupted w w'.
Proof.
  intros Hh. unfold deliver_one. destruct (deliverable sig w); [apply Hh|].
  intros [= <-]. apply interrupted_refl.
Qed.

Lemma dispatch_interrupted w w' : dispatch w = Some w' → interrupted w w'.
Proof.
  unfold dispatch. intros H.
  destruct (deliver_one SIGINT sigint_handler w) as [w1|] eqn:E1; [|done].
  cbn in H. destruct (deliver_one SIGCHLD sigchld_handler w1) as [w2|] eqn:E2; [|done].
  cbn in H.
  apply (deliver_one_interrupted _ _ _ _ run_sigint_interrupted) in E1.
  apply (deliver_one_interrupted _ _ _ _ run_sigchld_interrupted) in E2.
  apply (deliver_one_interrupted _ _ _ _ run_sigtstp_interrupted) in H.
  eapply interrupted_trans; [|done]. by eapply interrupted_trans.
Qed.

Lemma window_interrupted s w w' : window s w = Some w' → interrupted w w'.
Proof.
  revert w. induction s as [|e s IH]; intros w; cbn.
  - intros [= <-]. apply interrupted_kern.
  - assert ((dispatch (with_kern (env_apply e) w) ≫= window s) = Some w' →
            interrupted w w') as Hgo.
    { destruct (dispatch (with_kern (env_apply e) w)) as [w1|] eqn:E1; [|done]. cbn.
      intros H2%IH. apply dispatch_interrupted in E1.
      eapply interrupted_trans; [apply interrupted_kern|]. by eapply interrupted_trans. }
    destruct e; try done.
    intros [= <-]. apply interrupted_kern.
Qed.

Lemma deliver_interrupted w w' : deliver w = Some w' → interrupted w w'.
Proof.
  unfold deliver. destruct (dispatch w) as [w1|] eqn:E1; [|done]. cbn.
  intros H2%window_interrupted. apply dispatch_interrupted in E1.
  by eapply interrupted_trans.
Qed.

Lemma suspended_interrupted s w w' : suspended s w = Some w' → interrupted w w'.
Proof.
  revert w. induction s as [|e s IH]; intros w; cbn.
  - destruct (any_deliverable w); [|done].
    destruct (dispatch w) as [w1|] eqn:E1; [|done]. cbn. intros [= <-].
    apply dispatch_interrupted in E1.
    eapply interrupted_trans; [done | apply interrupted_kern].
  - destruct (any_deliverable w).
    + destruct (dispatch w) as [w1|] eqn:E1; [|done]. cbn. intros [= <-].
      apply dispatch_interrupted in E1.
      eapply interrupted_trans; [done | apply interrupted_kern].
    + intros H. eapply interrupted_trans; [apply interrupted_kern | by apply IH].
Qed.

(** ** Calls of the main line, and what interrupts them *)

Lemma call_run {A} (h : H A) w a w1 :
  h w = Some (a, w1) →
  ∃ w2, call h w = Done a w2 ∧ interrupted w1 w2 ∧ errno (proc w2) = errno (proc w1).
Proof.
  intros Hh. destruct (call_any h w a w1 Hh) as (w2 & Hc & Hd & _ & He & _).
  exists w2. split_and!; [done | by apply deliver_interrupted | done].
Qed.

Lemma bind_call_run {A B} (h : H A) (f : A → M B) w a w1 :
  h w = Some (a, w1) →
  ∃ w2, (call h ≫= f) w = f a w2 ∧ interrupted w1 w2
        ∧ errno (proc w2) = errno (proc w1).
Proof.
  intros Hh. destruct (call_run h w a w1 Hh) as (w2 & Hc & Hi & He).
  exists w2. split_and!; [|done..]. by apply bind_Done.
Qed.

Lemma sigsuspend_run set w :
  blocks_all (sigmask (proc w)) →
  let w0 := with_proc (λ p, set_sigmask set (log (E_sigsuspend set) p)) w in
  match sigsuspend set w with
  | Done _ w' =>
      ∃ wa, interrupted w0 wa
            ∧ proc w' = set_errno EINTR (set_sigmask (sigmask (proc w)) (proc wa))
            ∧ os w' = os wa
  | Blocked w' => w' = w0
  | _ => False
  end.
Proof.
  intros Hb w0. unfold sigsuspend. fold w0.
  destruct (suspended (sched (kern w0)) w0) as [wa|] eqn:Es; [|done].
  apply suspended_interrupted in Es.
  edestruct (call_blocked (λ w2, Some (-1, with_proc (λ p, set_errno EINTR (set_sigmask (sigmask (proc w)) p)) w2)) wa)
    as (w2 & Hc & Hp & Ho); [done | done |].
  rewrite Hc. exists wa. done.
Qed.

Lemma wait_fg_run fuel prev_all pid w :
  blocks_all (sigmask (proc w)) →
  wait_run prev_all pid w (wait_fg fuel prev_all pid w).
Proof.
  revert w. induction fuel as [|fuel IH]; intros w Hb.
  { split_and!; [done | apply no_new_fg_refl | exists []; by rewrite app_nil_r | done]. }
  cbn [wait_fg].
  pose proof (eq_refl (proc w)) as Hp. pose proof (eq_refl (os w)) as Ho.
  step_blocked Hp Ho; [done|].
  destruct (bool_decide (JobTable.fg_job (job_list (proc w)) ≠ 0)) eqn:Efg.
  2:{ norm_bind. unfold wait_run, waiting. cbn. rewrite Hp. cbn.
      split_and!; [done | apply no_new_fg_refl | | done | by rewrite Efg].
      eexists. split; [done | solve_Forall]. }
  step_blocked Hp Ho; [done|]. step_blocked Hp Ho; [done|]. norm_bind.
  destruct (bool_decide (pid = _)) eqn:Epid.
  2:{ unfold wait_run, waiting. cbn. rewrite Hp. cbn.
      split_and!; [done | apply no_new_fg_refl | | done | by rewrite Efg, Epid].
      eexists. split; [by rewrite <- !app_assoc | solve_Forall]. }
  pose proof (sigsuspend_run prev_all w2) as Hs. rewrite Hp in Hs.
  specialize (Hs Hb). cbn zeta in Hs.
  destruct (sigsuspend prev_all w2) as [r wb| | |wb|] eqn:Es; try done.
  2:{ unfold mbind, M_bind. rewrite Es. subst wb. unfold wait_run. cbn. rewrite Hp. cbn.
      split_and!; [done | apply no_new_fg_refl | | done].
      eexists. split; [by rewrite <- !app_assoc | solve_Forall]. }
  rewrite (bind_Done _ _ _ _ _ Es).
  destruct Hs as (wa & (Hma & Hoa & Hja & sigs & Hta & Hsa) & Hpb & Hob).
  cbn [proc os with_proc] in Hma, Hoa, Hja, Hta. rewrite Hp in Hja, Hta. cbn in Hja, Hta.
  assert (blocks_all (sigmask (proc wb))) as Hbb by (by rewrite Hpb).
  destruct (IH wb Hbb) as (Ho' & Hj' & (new & Ht' & Hn') & Hend).
  rewrite Hpb in Hj', Ht'. cbn in Hj', Ht'. rewrite Hta in Ht'.
  split_and!.
  - congruence.
  - by eapply no_new_fg_trans.
  - exists ([E_job J_fg_job (sigmask (proc w)); E_job J_fg_job (sigmask (proc w));
             E_job (J_get_pid (JobTable.fg_job (job_list (proc w)))) (sigmask (proc w));
             E_sigsuspend prev_all] ++ sigs ++ new).
    split; [rewrite Ht'; by rewrite <- !app_assoc|].
    apply Forall_app_2; [solve_Forall|].
    apply Forall_app_2; [|done].
    eapply Forall_impl; [exact Hsa|]. by intros [].
  - destruct (wait_fg fuel prev_all pid wb); try done.
    destruct Hend as [Hm' Hw']. split; [|done]. rewrite Hm', Hpb. done.
Qed.

(** ** A logic of the main line: the events added, and the mask *)

Section Run.
Variable T : list event → Prop.
Hypothesis T_nil : T [].
Hypothesis T_app : ∀ tr1 tr2, T tr1 → T tr2 → T (tr1 ++ tr2).
Hypothesis T_signal : ∀ sigs, Forall handler_run sigs → T sigs.

(** The calls that [T] accepts one by one. *)
Variable ok : event → Prop.
Hypothesis T_ok : ∀ e, ok e → T [e].

Lemma appends_refl w : appends T w w.
Proof using T_nil. exists []. by rewrite app_nil_r. Qed.

Lemma appends_trans w1 w2 w3 : appends T w1 w2 → appends T w2 w3 → appends T w1 w3.
Proof using T_app.
  intros (n1 & H1 & Hn1) (n2 & H2 & Hn2). exists (n1 ++ n2).
  split; [by rewrite H2, H1, app_assoc | by apply T_app].
Qed.

Lemma appends_interrupted w w' : interrupted w w' → appends T w w'.
Proof using T_signal. intros (_ & _ & _ & sigs & Ht & Hs). exists sigs. auto. Qed.

Lemma run_ret {A} (P : sigset → Prop) (Q : A → sigset → Prop) a :
  (∀ m, P m → Q a m) → run T P (mret a) Q.
Proof using T_nil.
  intros HPQ w HP. split; [apply appends_refl|].
  intros a' w' [= <- <-]. by apply HPQ.
Qed.

Lemma run_exit {A} P (Q : A → sigset → Prop) s : run T P (_exit s) Q.
Proof using T_nil. intros w HP. split; [apply appends_refl | done]. Qed.

Lemma run_bind {A B} P (m : M A) Q (f : A → M B) R :
  run T P m Q → (∀ a, run T (Q a) (f a) R) → run T P (m ≫= f) R.
Proof using T_app.
  intros Hm Hf w HP. destruct (Hm w HP) as [Ht HQ].
  unfold mbind, M_bind. destruct (m w) as [a w1| | | |]; try (split; done).
  destruct (Hf a w1 (HQ a w1 eq_refl)) as [Ht' HR].
  split; [by eapply appends_trans | done].
Qed.

Lemma run_conseq {A} (P P' : sigset → Prop) (m : M A) (Q Q' : A → sigset → Prop) :
  run T P m Q → (∀ x, P' x → P x) → (∀ a x, Q a x → Q' a x) → run T P' m Q'.
Proof.
  intros Hm HP HQ w HP'. destruct (Hm w (HP _ HP')) as [Ht HQ1].
  split; [done|]. intros a w' Hd. by apply HQ, HQ1.
Qed.

Lemma run_assume {A} (φ : Prop) P (m : M A) Q :
  (φ → run T P m Q) → run T (λ x, φ ∧ P x) m Q.
Proof. intros Hm w [Hφ HP]. by apply Hm. Qed.

(** A call: what the primitive itself adds, then what interrupts. *)
Lemma run_call {A} P (h : H A) (Q : A → sigset → Prop) :
  (∀ w a w1, P (sigmask (proc w)) → h w = Some (a, w1) →
             Q a (sigmask (proc w1)) ∧ appends T w w1) →
  run T P (call h) Q.
Proof using T_nil T_app T_signal.
  intros Hh w HP. unfold call.
  destruct (h w) as [[a w1]|] eqn:Eh; [|split; [apply appends_refl | done]].
  destruct (Hh w a w1 HP Eh) as [HQ Ht].
  destruct (deliver_total w1) as (w2 & Hd & _). rewrite Hd.
  apply deliver_interrupted in Hd. pose proof Hd as (Hm & _).
  split; [eapply appends_trans; [done | by apply appends_interrupted]|].
  intros a' w' [= <- <-]. by rewrite Hm.
Qed.

Lemma run_read_errno P : run T P read_errno (λ _, P).
Proof using T_nil.
  intros w HP. split; [apply appends_refl|]. by intros a w' [= <- <-].
Qed.

(** The foreground wait keeps the mask, which blocks every signal. *)
Lemma run_wait_fg (P : sigset → Prop) fuel prev_all pid :
  (∀ x, P x → blocks_all x) →
  (∀ new, Forall (wait_step prev_all) new → T new) →
  run T P (wait_fg fuel prev_all pid) (λ _, P).
Proof.
  intros HP HT w Hw.
  destruct (wait_fg_run fuel prev_all pid w (HP _ Hw)) as (_ & _ & (new & Ht & Hn) & Hend).
  split; [exists new; auto|].
  intros a w' Hd. rewrite Hd in Hend. destruct Hend as [-> _]. done.
Qed.

(** [execve] returns only to fail. *)
Lemma run_execve P path args :
  (∀ r, ok (E_execve path args r)) →
  run T P (execve path args) (λ r x, r = -1 ∧ P x).
Proof using T_nil T_app T_signal T_ok.
  intros HT w HP. unfold execve. destruct (fs_execve (os w) path args) as [e|].
  - apply (run_call P _ (λ r x, r = -1 ∧ P x)); [|done].
    intros w0 a w1 HP0 [= <- <-]. split; [done|].
    eexists. split; [reflexivity | apply T_ok, HT].
  - split; [|done]. eexists. split; [reflexivity | apply T_ok, HT].
Qed.

Lemma appends_one w e : ok e → appends T w (with_proc (log e) w).
Proof using T_ok. intros He. exists [e]. split; [done | by apply T_ok]. Qed.

Lemma T_Forall (C : event → Prop) new :
  (∀ e, C e → ok e ∨ handler_run e) → Forall C new → T new.
Proof using T_nil T_app T_signal T_ok.
  intros HC. induction 1 as [|e new He _ IH]; [done|].
  apply (T_app [e] new); [|done].
  destruct (HC e He); [by apply T_ok | apply T_signal; by repeat constructor].
Qed.

Lemma run_emit P e : ok e → run T P (call (emit e)) (λ _, P).
Proof using T_nil T_app T_signal T_ok.
  intros He. apply run_call. intros w a w1 HP [= <- <-].
  split; [done | by apply appends_one].
Qed.

Lemma run_job_read {A} P op (f : list job → A) :
  (∀ x, P x → ok (E_job op x)) → run T P (call (job_read op f)) (λ _, P).
Proof using T_nil T_app T_signal T_ok.
  intros He. apply run_call. intros w a w1 HP [= <- <-].
  split; [done | by apply appends_one, He].
Qed.

Lemma run_job_write P op f :
  (∀ x, P x → ok (E_job op x)) → run T P (call (job_write op f)) (λ _, P).
Proof using T_nil T_app T_signal T_ok.
  intros He. apply run_call. intros w a w1 HP [= <- <-].
  split; [done|]. exists [E_job op (sigmask (proc w))]. split; [done | by apply T_ok, He].
Qed.

Lemma run_add_job P pid st cmd :
  (∀ x, P x → ok (E_job (J_add pid st cmd) x)) →
  run T P (call (add_job pid st cmd)) (λ _, P).
Proof using T_nil T_app T_signal T_ok.
  intros He. apply run_call. intros w a w1 HP [= <- <-].
  split; [done|]. exists [E_job (J_add pid st cmd) (sigmask (proc w))].
  split; [done | by apply T_ok, He].
Qed.

Lemma run_kill P pid sig : ok (E_kill pid sig) → run T P (call (kill pid sig)) (λ _, P).
Proof using T_nil T_app T_signal T_ok.
  intros He. apply run_call. intros w a w1 HP Hk.
  destruct (kill_run pid sig w) as (r & e & Hk'). rewrite Hk' in Hk.
  injection Hk as <- <-. split; [done|]. exists [E_kill pid sig]. split; [done | by apply T_ok].
Qed.

Lemma run_fork P : (∀ r, ok (E_fork r)) → run T P (call fork) (λ _, P).
Proof using T_nil T_app T_signal T_ok.
  intros He. apply run_call. intros w a w1 HP Hf. unfold fork in Hf.
  destruct (fork_ret (os w) =? 0); [|destruct (0 <? fork_ret (os w))];
    injection Hf as <- <-; (split; [done|]); eexists; (split; [reflexivity|]);
    apply T_ok, He.
Qed.

Lemma run_sys_open P path flags mode :
  (∀ r, ok (E_open path flags mode r)) →
  run T P (call (sys_open path flags mode)) (λ _, P).
Proof using T_nil T_app T_signal T_ok.
  intros He. apply run_call. intros w a w1 HP Ho. unfold sys_open in Ho.
  destruct (fs_open (os w) path flags mode);
    injection Ho as <- <-; (split; [done|]); eexists; (split; [reflexivity|]);
    apply T_ok, He.
Qed.

Lemma run_list_jobs P fd :
  (∀ x, P x → ok (E_job (J_list fd) x)) → (∀ s, ok (E_write fd s)) →
  run T P (call (list_jobs fd)) (λ _, P).
Proof using T_nil T_app T_signal T_ok.
  intros He Hw. apply run_call. intros w a w1 HP Hl. unfold list_jobs in Hl.
  destruct (fs_write (os w) fd); injection Hl as <- <-; (split; [done|]).
  - exists ([E_job (J_list fd) (sigmask (proc w))]
            ++ [E_write fd (JobTable.listing (job_list (proc w)))]).
    split; [cbn; by rewrite <- app_assoc|].
    apply T_app; apply T_ok; [by apply He | apply Hw].
  - exists [E_job (J_list fd) (sigmask (proc w))]. split; [done | by apply T_ok, He].
Qed.

(** [sigprocmask] returns the old mask and installs the new one. *)
Lemma run_sigprocmask P how set :
  (∀ x, ok (E_sigprocmask how set x)) →
  run T P (call (sigprocmask how set))
    (λ old x, P old
              ∧ x = if how =? SIG_BLOCK then Z.lor old set
                    else if how =? SIG_UNBLOCK then Z.land old (Z.lnot set)
                    else set).
Proof using T_nil T_app T_signal T_ok.
  intros He. apply run_call. intros w a w1 HP [= <- <-].
  split; [done|]. eexists. split; [reflexivity | apply T_ok, He].
Qed.

Lemma run_report_errno P name :
  (∀ s, ok (E_print s)) → run T P (report_errno name) (λ _, P).
Proof using T_nil T_app T_signal T_ok.
  intros He. unfold report_errno.
  eapply run_bind; [apply run_read_errno|]. intros e. cbv beta.
  destruct (e =? 2); [by apply run_emit|].
  destruct (e =? 13); [by apply run_emit | by apply run_ret].
Qed.

(** *** The paths of [eval] *)

Lemma run_wait P fuel prev_all pid :
  (∀ x, P x → blocks_all x) → (∀ e, table_call e → ok e) →
  run T P (wait_fg fuel prev_all pid) (λ _, P).
Proof using T_nil T_app T_signal T_ok.
  intros HP Hok. apply run_wait_fg; [done|].
  intros new. apply T_Forall. intros [] He; try done; try (left; by apply Hok).
  - left. apply Hok. by destruct op.
  - by right.
Qed.

Lemma run_resolve_job name token prev_all full :
  blocks_all full → (∀ e, table_call e → ok e) →
  run T (λ x, x = full) (resolve_job name token prev_all)
    (λ r x, match r with None => x = prev_all | Some _ => x = full end).
Proof using T_nil T_app T_signal T_ok.
  intros Hfull Hok. unfold resolve_job.
  assert (∀ msg, run T (λ x, x = full)
                   (call (sio_printf msg) ≫= λ _,
                    call (sigprocmask SIG_SETMASK prev_all) ≫= λ _, mret (@None (Z * Z)))
                   (λ r x, match r with None => x = prev_all | Some _ => x = full end))
    as Herr.
  { intros msg. eapply run_bind; [apply run_emit; by apply Hok|]. intros ?; cbv beta.
    eapply run_bind; [apply run_sigprocmask; intros; by apply Hok|]. intros old.
    apply run_ret. by intros x [_ ->]. }
  assert (∀ op x, x = full → ok (E_job op x)) as Hjob.
  { intros op x ->. by apply Hok. }
  destruct (argc token =? 1); [apply Herr|].
  destruct (negb _ && negb _); [apply Herr|].
  destruct (char_code _ =? 37).
  - eapply run_bind; [apply run_job_read, Hjob|]. intros found.
    destruct found; [|apply Herr].
    eapply run_bind; [apply run_job_read, Hjob|]. intros pid. by apply run_ret.
  - eapply run_bind; [apply run_job_read, Hjob|]. intros jid.
    eapply run_bind; [apply run_job_read, Hjob|]. intros found.
    destruct found; [by apply run_ret | apply Herr].
Qed.

Lemma run_eval_bg P token :
  (∀ e, table_call e → ok e) → run T P (eval_bg token) (λ _, P).
Proof using T_nil T_app T_signal T_ok.
  intros Hok. unfold eval_bg.
  eapply run_bind; [apply run_sigprocmask; intros; by apply Hok|]. intros prev_all.
  cbn [Z.eqb SIG_BLOCK]. apply run_assume. intros Hprev.
  pose proof (blocks_all_lor prev_all) as Hfull.
  eapply run_bind; [by apply run_resolve_job|]. intros [[jid pid]|].
  2:{ apply run_ret. by intros x ->. }
  assert (∀ op x, x = Z.lor prev_all mask_all → ok (E_job op x)) as Hjob.
  { intros op x ->. by apply Hok. }
  eapply run_bind; [apply run_job_read, Hjob|]. intros cmd.
  eapply run_bind; [apply run_emit; by apply Hok|]. intros ?; cbv beta.
  eapply run_bind; [apply run_kill; by apply Hok|]. intros ?; cbv beta.
  eapply run_bind; [apply run_job_write, Hjob|]. intros ?; cbv beta.
  eapply run_bind; [apply run_sigprocmask; intros; by apply Hok|]. intros old.
  apply run_ret. by intros x [_ ->].
Qed.

Lemma run_eval_fg P fuel token :
  (∀ e, table_call e → ok e) → run T P (eval_fg fuel token) (λ _, P).
Proof using T_nil T_app T_signal T_ok.
  intros Hok. unfold eval_fg.
  eapply run_bind; [apply run_sigprocmask; intros; by apply Hok|]. intros prev_all.
  cbn [Z.eqb SIG_BLOCK]. apply run_assume. intros Hprev.
  pose proof (blocks_all_lor prev_all) as Hfull.
  eapply run_bind; [by apply run_resolve_job|]. intros [[jid pid]|].
  2:{ apply run_ret. by intros x ->. }
  assert (∀ op x, x = Z.lor prev_all mask_all → ok (E_job op x)) as Hjob.
  { intros op x ->. by apply Hok. }
  eapply run_bind; [apply run_kill; by apply Hok|]. intros ?; cbv beta.
  eapply run_bind; [apply run_job_write, Hjob|]. intros ?; cbv beta.
  eapply run_bind; [apply run_wait; [by intros x -> | done]|]. intros ?; cbv beta.
  eapply run_bind; [apply run_sigprocmask; intros; by apply Hok|]. intros old.
  apply run_ret. by intros x [_ ->].
Qed.

Lemma run_eval_jobs P token :
  (∀ e, table_call e → ok e) → (∀ e, listing_call e → ok e) →
  run T P (eval_jobs token) (λ _, P).
Proof using T_nil T_app T_signal T_ok.
  intros Hok Hfile. unfold eval_jobs.
  eapply run_bind; [apply run_sigprocmask; intros; by apply Hok|]. intros prev_all.
  cbn [Z.eqb SIG_BLOCK]. apply run_assume. intros Hprev.
  pose proof (blocks_all_lor prev_all) as Hfull.
  assert (∀ op x, x = Z.lor prev_all mask_all → ok (E_job op x)) as Hjob.
  { intros op x ->. by apply Hok. }
  assert (∀ fd, run T (λ x, x = Z.lor prev_all mask_all)
                  (call (list_jobs fd) ≫= λ ok : bool,
                   if ok then mret tt
                   else call (sio_printf ("Fails to write into job list." +:+ nl)))
                  (λ _ x, x = Z.lor prev_all mask_all)) as Hlist.
  { intros fd.
    eapply run_bind; [apply run_list_jobs; [apply Hjob | intros; by apply Hfile]|].
    intros []; [by apply run_ret | apply run_emit; by apply Hok]. }
  eapply run_bind.
  - destruct (outfile token) as [name|]; [|apply Hlist].
    eapply run_bind; [apply run_sys_open; intros; by apply Hfile|]. intros fd.
    destruct (bool_decide (fd ≠ -1)).
    + eapply run_bind; [apply run_list_jobs; [apply Hjob | intros; by apply Hfile]|].
      intros listed.
      eapply run_bind; [|intros ?; cbv beta; apply run_emit; by apply Hfile].
      destruct listed; [by apply run_ret | apply run_emit; by apply Hok].
    + apply run_report_errno. intros; by apply Hok.
  - intros ?; cbv beta.
    eapply run_bind; [apply run_sigprocmask; intros; by apply Hok|]. intros old.
    apply run_ret. by intros x [_ ->].
Qed.

Lemma run_redirect P file flags mode target :
  (∀ e, table_call e → ok e) → (∀ e, file_call e → ok e) →
  run T P (redirect file flags mode target) (λ _, P).
Proof using T_nil T_app T_signal T_ok.
  intros Hok Hfile. unfold redirect. destruct file as [name|]; [|by apply run_ret].
  eapply run_bind; [apply run_sys_open; intros; by apply Hfile|]. intros fd.
  destruct (bool_decide (fd ≠ -1)).
  - eapply run_bind; [apply run_emit; by apply Hfile|]. intros ?; cbv beta.
    apply run_emit. by apply Hfile.
  - eapply run_bind; [apply run_report_errno; intros; by apply Hok|]. intros ?; cbv beta.
    apply run_exit.
Qed.

(** The child never returns from [eval_child]. *)
Lemma run_child_exec P token prev_all :
  (∀ e, table_call e → ok e) → (∀ e, exec_call e → ok e) →
  run T P (child_exec token prev_all) (λ _ _, False).
Proof using T_nil T_app T_signal T_ok.
  intros Hok Hfile. unfold child_exec.
  eapply run_bind; [apply run_sigprocmask; intros; by apply Hok|]. intros old.
  eapply run_bind; [apply run_emit; by apply Hfile|]. intros ?; cbv beta.
  eapply run_bind; [apply run_execve; intros; by apply Hfile|]. intros r.
  apply run_assume. intros ->. cbn [Z.ltb Z.compare].
  eapply run_bind; [apply run_report_errno; intros; by apply Hok|]. intros ?; cbv beta.
  apply run_exit.
Qed.

(** The child, given what its two redirections do. *)
Lemma run_eval_child_with P token prev_all :
  (∀ e, table_call e → ok e) → (∀ e, exec_call e → ok e) →
  (∀ file flags mode target, run T P (redirect file flags mode target) (λ _, P)) →
  run T P (eval_child token prev_all) (λ _ _, False).
Proof using T_nil T_app T_signal T_ok.
  intros Hok Hexec Hred. rewrite eval_child_redirects.
  eapply run_bind; [by apply Hred|]. intros ?; cbv beta.
  eapply run_bind; [by apply Hred|]. intros ?; cbv beta.
  by apply run_child_exec.
Qed.

Lemma run_eval_child P token prev_all :
  (∀ e, table_call e → ok e) → (∀ e, file_call e → ok e) →
  (∀ e, exec_call e → ok e) →
  run T P (eval_child token prev_all) (λ _ _, False).
Proof using T_nil T_app T_signal T_ok.
  intros Hok Hfile Hexec. apply run_eval_child_with; [done | done |].
  intros. by apply run_redirect.
Qed.

Lemma run_eval_external P fuel pr token cmdline :
  pr = PARSELINE_FG ∨ pr = PARSELINE_BG →
  (∀ e, table_call e → ok e) → (∀ r, ok (E_fork r)) →
  (∀ prev_all, run T (λ x, x = Z.lor prev_all mask_all) (eval_child token prev_all)
                 (λ _ _, False)) →
  run T P (eval_external fuel pr token cmdline) (λ _, P).
Proof using T_nil T_app T_signal T_ok.
  intros Hpr Hok Hfork Hchild. unfold eval_external.
  eapply run_bind; [apply run_sigprocmask; intros; by apply Hok|]. intros prev_all.
  cbn [Z.eqb SIG_BLOCK]. apply run_assume. intros Hprev.
  pose proof (blocks_all_lor prev_all) as Hfull.
  assert (∀ op x, x = Z.lor prev_all mask_all → ok (E_job op x)) as Hjob.
  { intros op x ->. by apply Hok. }
  eapply run_bind; [by apply run_fork|]. intros pid.
  eapply (run_bind _ _ (λ _ x, x = Z.lor prev_all mask_all)).
  { destruct (pid =? 0); [|by apply run_ret].
    eapply run_conseq; [apply Hchild | done | done]. }
  intros ?; cbv beta.
  destruct Hpr as [-> | ->].
  - eapply (run_bind _ _ (λ _, P)); [|intros ?; by apply run_ret].
    eapply run_bind; [apply run_add_job, Hjob|]. intros ?; cbv beta.
    eapply run_bind; [apply run_wait; [by intros x -> | done]|]. intros ?; cbv beta.
    eapply run_bind; [apply run_sigprocmask; intros; by apply Hok|]. intros old.
    apply run_ret. by intros x [_ ->].
  - eapply (run_bind _ _ (λ _ x, x = Z.lor prev_all mask_all)); [by apply run_ret|].
    intros ?; cbv beta.
    eapply run_bind; [apply run_sigprocmask; intros; by apply Hok|]. intros full.
    cbn [Z.eqb SIG_BLOCK]. apply run_assume. intros ->.
    assert (∀ op x, x = Z.lor (Z.lor prev_all mask_all) mask_all → ok (E_job op x))
      as Hjob2.
    { intros op x ->. apply Hok. apply blocks_all_lor. }
    eapply run_bind; [apply run_add_job, Hjob2|]. intros ?; cbv beta.
    eapply run_bind; [apply run_job_read, Hjob2|]. intros jid.
    eapply (run_bind _ _ (λ _, P)).
    { eapply run_conseq;
        [ apply (run_sigprocmask (λ x, x = Z.lor (Z.lor prev_all mask_all) mask_all));
          intros; by apply Hok
        | done | ].
      by intros old x [_ ->]. }
    intros ?; cbv beta. apply run_emit. by apply Hok.
Qed.

(** The whole of [eval], given what [jobs] and the child do. *)
Lemma run_eval_with P fuel pr token cmdline :
  (∀ e, table_call e → ok e) → (∀ r, ok (E_fork r)) →
  run T P (eval_jobs token) (λ _, P) →
  (∀ prev_all, run T (λ x, x = Z.lor prev_all mask_all) (eval_child token prev_all)
                 (λ _ _, False)) →
  run T P (eval fuel pr token cmdline) (λ _, P).
Proof using T_nil T_app T_signal T_ok.
  intros Hok Hfork Hjobs Hchild. unfold eval.
  destruct pr; try (by apply run_ret);
    (destruct (builtin token);
     [ apply run_eval_external; auto | apply run_exit | done
     | by apply run_eval_bg | by apply run_eval_fg ]).
Qed.

Lemma run_eval P fuel pr token cmdline :
  (∀ e, table_call e → ok e) → (∀ r, ok (E_fork r)) →
  (∀ e, listing_call e → ok e) → (∀ e, file_call e → ok e) →
  (∀ e, exec_call e → ok e) →
  run T P (eval fuel pr token cmdline) (λ _, P).
Proof using T_nil T_app T_signal T_ok.
  intros Hok Hfork Hlisting Hfile Hexec.
  apply run_eval_with; [done | done | by apply run_eval_jobs |].
  intros prev_all. by apply run_eval_child.
Qed.

(** The built-ins alone. *)
Lemma run_built_in P fuel pr token cmdline :
  builtin token ≠ BUILTIN_NONE →
  (∀ e, table_call e → ok e) → (∀ e, listing_call e → ok e) →
  run T P (eval fuel pr token cmdline) (λ _, P).
Proof using T_nil T_app T_signal T_ok.
  intros Hb Hok Hlisting. unfold eval.
  destruct pr; try (by apply run_ret);
    (destruct (builtin token);
     [ done | apply run_exit | by apply run_eval_jobs
     | by apply run_eval_bg | by apply run_eval_fg ]).
Qed.
End Run.

Lemma handler_event_access e : handler_event e → access_blocked e.
Proof. by destruct e. Qed.

Lemma handler_run_guarded e : handler_run e → guarded e.
Proof.
  destruct e; try done. cbn. intros H. eapply Forall_impl; [done|].
  apply handler_event_access.
Qed.

Lemma handler_run_in_process e : handler_run e → in_process e.
Proof. by destruct e. Qed.

(** ** The signal mask and the job list, over the whole of [eval] *)

(** Property X1.  When [eval] returns, the signal mask is the one it was
    called with, whichever command it ran and whatever signals were handled
    meanwhile. *)
Theorem eval_restores_signal_mask fuel pr token cmdline w w' :
  eval fuel pr token cmdline w = Done tt w' →
  sigmask (proc w') = sigmask (proc w).
Proof.
  intros Hd.
  assert (run (λ _, True) (λ x, x = sigmask (proc w)) (eval fuel pr token cmdline)
            (λ _ x, x = sigmask (proc w))) as Hrun.
  { by apply (run_eval (λ _, True) I (λ _ _ _ _, I) (λ _ _, I) (λ _, True)). }
  destruct (Hrun w eq_refl) as [_ Hm]. by apply (Hm tt).
Qed.

(** Property X2.  Every access to the job list that [eval] makes, on any
    path and however it ends, is made while the signal mask blocks all
    signals; so is every access made by a handler that interrupts it. *)
Theorem job_list_is_accessed_with_signals_blocked fuel pr token cmdline w :
  ∃ new,
    trace (proc (final (eval fuel pr token cmdline w))) = trace (proc w) ++ new
    ∧ Forall guarded new.
Proof.
  assert (run (Forall guarded) (λ _, True) (eval fuel pr token cmdline) (λ _ _, True))
    as Hrun.
  { apply (run_eval (Forall guarded) (Forall_nil_2 _)
             (λ tr1 tr2, Forall_app_2 _ tr1 tr2)) with (ok := guarded).
    - intros sigs Hs. eapply Forall_impl; [done | apply handler_run_guarded].
    - intros e He. by apply Forall_cons_2.
    - by intros [].
    - done.
    - by intros [].
    - by intros [].
    - by intros []. }
  destruct (Hrun w I) as [Ht _]. exact Ht.
Qed.

(** Property X8.  A built-in command runs in the shell process: [eval]
    neither forks nor executes a program for it, and it leaves the standard
    descriptors and the process group of the shell alone. *)
Theorem built_ins_run_in_the_shell fuel pr token cmdline w :
  builtin token ≠ BUILTIN_NONE →
  ∃ new,
    trace (proc (final (eval fuel pr token cmdline w))) = trace (proc w) ++ new
    ∧ Forall in_process new.
Proof.
  intros Hb.
  assert (run (Forall in_process) (λ _, True) (eval fuel pr token cmdline) (λ _ _, True))
    as Hrun.
  { apply (run_built_in (Forall in_process) (Forall_nil_2 _)
             (λ tr1 tr2, Forall_app_2 _ tr1 tr2)) with (ok := in_process).
    - intros sigs Hs. eapply Forall_impl; [done | apply handler_run_in_process].
    - intros e He. by apply Forall_cons_2.
    - done.
    - by intros [].
    - by intros []. }
  destruct (Hrun w I) as [Ht _]. exact Ht.
Qed.

(** ** No job is left in the foreground *)

Lemma calm_ret {A} (a : A) : calm (mret a).
Proof. intros w. apply no_new_fg_refl. Qed.

Lemma calm_exit {A} s : calm (@_exit A s).
Proof. intros w. apply no_new_fg_refl. Qed.

Lemma calm_read_errno : calm read_errno.
Proof. intros w. apply no_new_fg_refl. Qed.

Lemma calm_bind {A B} (m : M A) (f : A → M B) :
  calm m → (∀ a, calm (f a)) → calm (m ≫= f).
Proof.
  intros Hm Hf w. specialize (Hm w). unfold mbind, M_bind.
  destruct (m w) as [a w1| | | |]; try done.
  eapply no_new_fg_trans; [done | apply Hf].
Qed.

Lemma calm_call {A} (h : H A) :
  (∀ w a w1, h w = Some (a, w1) → no_new_fg (job_list (proc w)) (job_list (proc w1))) →
  calm (call h).
Proof.
  intros Hh w. unfold call.
  destruct (h w) as [[a w1]|] eqn:Eh; [|apply no_new_fg_refl].
  destruct (deliver_total w1) as (w2 & Hd & _). rewrite Hd.
  apply deliver_interrupted in Hd as (_ & _ & Hj & _).
  eapply no_new_fg_trans; [by eapply Hh | done].
Qed.

(** A call that leaves the job list as it is. *)
Lemma calm_same {A} (h : H A) :
  (∀ w a w1, h w = Some (a, w1) → job_list (proc w1) = job_list (proc w)) →
  calm (call h).
Proof. intros Hh. apply calm_call. intros w a w1 ->%Hh. apply no_new_fg_refl. Qed.

Ltac same_jobs :=
  let w := fresh "w" in
  let Hh := fresh "Hh" in
  intros w ? ? Hh;
  cbv beta zeta delta [emit sio_printf dup2 close setpgid sigprocmask job_read kill fork
                  sys_open list_jobs job_from_pid job_get_pid job_get_cmdline job_exists
                  fg_job] in Hh;
  repeat match type of Hh with
         | context [match ?x with _ => _ end] => destruct x
         | context [if ?x then _ else _] => destruct x
         end;
  injection Hh as <- <-; reflexivity.

Lemma calm_emit e : calm (call (emit e)).
Proof. apply calm_same. same_jobs. Qed.

Lemma calm_sigprocmask how set : calm (call (sigprocmask how set)).
Proof. apply calm_same. same_jobs. Qed.

Lemma calm_job_read {A} op (f : list job → A) : calm (call (job_read op f)).
Proof. apply calm_same. same_jobs. Qed.

Lemma calm_kill pid sig : calm (call (kill pid sig)).
Proof. apply calm_same. same_jobs. Qed.

Lemma calm_fork : calm (call fork).
Proof. apply calm_same. same_jobs. Qed.

Lemma calm_sys_open path flags mode : calm (call (sys_open path flags mode)).
Proof. apply calm_same. same_jobs. Qed.

Lemma calm_list_jobs fd : calm (call (list_jobs fd)).
Proof. apply calm_same. same_jobs. Qed.

Lemma calm_job_write op f :
  (∀ jl, no_new_fg jl (f jl)) → calm (call (job_write op f)).
Proof. intros Hf. apply calm_call. intros w a w1 [= <- <-]. apply Hf. Qed.

Lemma calm_add_job pid st cmd : st ≠ FG → calm (call (add_job pid st cmd)).
Proof.
  intros Hst. apply calm_call. intros w a w1 [= <- <-]. by apply no_new_fg_add.
Qed.

Lemma calm_execve path args : calm (execve path args).
Proof.
  intros w. unfold execve. destruct (fs_execve (os w) path args) as [e|].
  - apply (calm_same (λ w', Some (-1, with_proc (λ p, set_errno e (log (E_execve path args (-1)) p)) w'))).
    by intros w0 a w1 [= <- <-].
  - apply no_new_fg_refl.
Qed.

Create HintDb calm.
#[local] Hint Resolve calm_ret calm_exit calm_read_errno calm_emit calm_sigprocmask
  calm_job_read calm_kill calm_fork calm_sys_open calm_list_jobs calm_execve : calm.

Ltac solve_calm :=
  repeat first
    [ solve [auto with calm]
    | apply calm_bind; [|intros]
    | match goal with
      | |- calm (if ?c then _ else _) => destruct c
      | |- calm (match ?x with _ => _ end) => destruct x
      end ].

Lemma calm_report_errno name : calm (report_errno name).
Proof. unfold report_errno, sio_printf. solve_calm. Qed.

Lemma calm_resolve_job name token prev_all : calm (resolve_job name token prev_all).
Proof.
  unfold resolve_job, sio_printf, job_exists, job_get_pid, job_from_pid. solve_calm.
Qed.

Lemma calm_eval_child token prev_all : calm (eval_child token prev_all).
Proof.
  pose proof calm_report_errno.
  unfold eval_child, redirect_input, redirect_output, dup2, close, setpgid. solve_calm.
Qed.

Lemma calm_eval_jobs token : calm (eval_jobs token).
Proof.
  pose proof calm_report_errno.
  unfold eval_jobs, sio_printf, close. solve_calm.
Qed.

Lemma calm_eval_bg token : calm (eval_bg token).
Proof.
  pose proof calm_resolve_job.
  unfold eval_bg, sio_printf, job_get_cmdline, job_set_state. solve_calm.
  apply calm_job_write. intros jl. by apply no_new_fg_set_state.
Qed.

Lemma calm_background_launch fuel token cmdline :
  calm (eval_external fuel PARSELINE_BG token cmdline).
Proof.
  pose proof calm_eval_child.
  unfold eval_external, sio_printf, job_from_pid. solve_calm.
  by apply calm_add_job.
Qed.

Lemma no_new_fg_none jl jl' :
  no_new_fg jl jl' → JobTable.fg_job jl = 0 → JobTable.fg_job jl' = 0.
Proof.
  intros Hn H0%fg_job_none. unfold JobTable.fg_job.
  destruct (list_find _ jl') as [[i j]|] eqn:Ef; [|done].
  apply list_find_Some in Ef as (Hi & Hs & _).
  pose proof (Hn i j Hi Hs) as Hi0.
  eapply list_find_None in H0. rewrite Forall_forall in H0.
  exfalso. eapply H0; [|done]. by eapply list_elem_of_lookup_2.
Qed.

Lemma only_fg_add pid cmd jl :
  JobTable.fg_job jl = 0 → only_fg pid (JobTable.add_job pid FG cmd jl).2.
Proof.
  intros H0%fg_job_none. eapply list_find_None in H0. rewrite Forall_forall in H0.
  assert (only_fg pid jl) as Hjl.
  { intros k j Hk Hs. exfalso. eapply H0; [|done]. by eapply list_elem_of_lookup_2. }
  unfold JobTable.add_job. destruct (list_find _ jl) as [[i x]|]; [|done].
  intros k j Hk Hs. cbn in Hk.
  apply list_lookup_insert_Some in Hk as [(_ & <- & _) | (_ & Hk)]; [done | by eapply Hjl].
Qed.

Lemma only_fg_set_state jid jl :
  JobTable.fg_job jl = 0 →
  only_fg (JobTable.job_get_pid jid jl) (JobTable.job_set_state jid FG jl).
Proof.
  intros H0%fg_job_none. eapply list_find_None in H0. rewrite Forall_forall in H0.
  assert (∀ pid, only_fg pid jl) as Hjl.
  { intros pid k j Hk Hs. exfalso. eapply H0; [|done]. by eapply list_elem_of_lookup_2. }
  unfold JobTable.job_set_state, JobTable.job_get_pid.
  destruct (JobTable.slot jid jl) as [x|]; [|apply Hjl].
  destruct (bool_decide _); [|apply Hjl].
  intros k j Hk Hs.
  apply list_lookup_insert_Some in Hk as [(_ & <- & _) | (_ & Hk)]; [done | by eapply Hjl].
Qed.

(** Once the loop condition is false, the job that was waited for is not
    in the foreground, and no other job is. *)
Lemma only_fg_waiting pid jl0 jl1 :
  only_fg pid jl0 → no_new_fg jl0 jl1 → waiting pid jl1 = false →
  JobTable.fg_job jl1 = 0.
Proof.
  intros Ho Hn Hw. unfold JobTable.fg_job.
  destruct (list_find _ jl1) as [[i j]|] eqn:Ef; [|done].
  pose proof Ef as (Hi & Hs & _)%list_find_Some.
  assert (waiting pid jl1 = true) as Hw'; [|congruence].
  apply waiting_find. exists i, j. split; [done|]. eapply Ho; [by apply Hn | done].
Qed.

Lemma resolved_pid name token jl jid pid :
  resolved name token jl = inr (jid, pid) → JobTable.job_get_pid jid jl = pid.
Proof.
  unfold resolved. destruct (argc token =? 1); [done|].
  destruct (negb _ && negb _); [done|].
  destruct (char_code _ =? 37); cbn [fst].
  - destruct (JobTable.job_exists _ jl); [|done]. by intros [= <- <-].
  - destruct (JobTable.job_exists _ jl) eqn:Ex; [|done]. intros [= <- <-].
    destruct (from_pid_cases (int_of_long (strtol (argv_at token 1))) jl)
      as [H0 | (i & j & Hid & Hi & Hs & Hp)].
    + rewrite H0 in Ex. unfold JobTable.job_exists in Ex. by rewrite slot_zero in Ex.
    + rewrite Hid. unfold JobTable.job_get_pid. rewrite slot_id_of_slot, Hi.
      by rewrite bool_decide_eq_true_2.
Qed.

Lemma calm_done {A} (m : M A) w a w' :
  calm m → m w = Done a w' →
  JobTable.fg_job (job_list (proc w)) = 0 → JobTable.fg_job (job_list (proc w')) = 0.
Proof.
  intros Hm Hd. specialize (Hm w). rewrite Hd in Hm. by apply no_new_fg_none.
Qed.

(** When the foreground wait returns, no job is in the foreground. *)
Lemma wait_leaves_no_foreground {B} fuel prev_all pid (f : unit → M B) w b w' :
  blocks_all (sigmask (proc w)) →
  only_fg pid (job_list (proc w)) →
  (wait_fg fuel prev_all pid ≫= f) w = Done b w' →
  ∃ w1, f tt w1 = Done b w' ∧ JobTable.fg_job (job_list (proc w1)) = 0.
Proof.
  intros Hb Ho.
  destruct (wait_fg_run fuel prev_all pid w Hb) as (_ & Hn & _ & Hend).
  destruct (wait_fg fuel prev_all pid w) as [[] w1| | | |] eqn:Ew;
    try (unfold mbind, M_bind; rewrite Ew; done).
  rewrite (bind_Done _ _ _ _ _ Ew). destruct Hend as [_ Hw]. cbn in Hn.
  intros Hk. exists w1. split; [done | by eapply only_fg_waiting].
Qed.

Lemma foreground_launch_leaves_none fuel token cmdline w w' :
  builtin token = BUILTIN_NONE → fork_ret (os w) ≠ 0 →
  JobTable.fg_job (job_list (proc w)) = 0 →
  eval fuel PARSELINE_FG token cmdline w = Done tt w' →
  JobTable.fg_job (job_list (proc w')) = 0.
Proof.
  intros Hb Hr H0. unfold eval. rewrite Hb. unfold eval_external.
  pose proof (blocks_all_lor (sigmask (proc w))) as Hfull.
  pose proof (eq_refl (proc w)) as Hp. pose proof (eq_refl (os w)) as Ho.
  step_blocked Hp Ho. step_fork Hp Ho.
  rewrite (proj2 (Z.eqb_neq _ _)) by done.
  step_blocked Hp Ho. norm_bind. intros Hd.
  apply wait_leaves_no_foreground in Hd as (w3 & Hd & Hfg).
  - eapply calm_done; [|exact Hd|done]. solve_calm.
  - by rewrite Hp.
  - rewrite Hp. cbn. by apply only_fg_add.
Qed.

Lemma fg_leaves_none fuel token w w' :
  JobTable.fg_job (job_list (proc w)) = 0 →
  eval_fg fuel token w = Done tt w' →
  JobTable.fg_job (job_list (proc w')) = 0.
Proof.
  intros H0. unfold eval_fg.
  pose proof (blocks_all_lor (sigmask (proc w))) as Hfull.
  pose proof (eq_refl (proc w)) as Hp. pose proof (eq_refl (os w)) as Ho.
  step_blocked Hp Ho.
  destruct (resolve_job_run "fg" token (sigmask (proc w)) w0)
    as (w1 & new & Ht & Hj & Ho1 & Hn & Hk & Hres); [by rewrite Hp|].
  rewrite Hp in Hj, Hres. cbn in Hj, Hres.
  destruct (resolved "fg" token (job_list (proc w))) as [msg|[jid pid]] eqn:Er.
  - destruct Hres as (_ & _ & w2 & Hr & Hd).
    rewrite (bind_Done _ _ _ _ _ Hr). intros [= <-].
    apply deliver_interrupted in Hd as (_ & _ & Hjd & _).
    eapply no_new_fg_none; [exact Hjd | by rewrite Hj].
  - destruct Hres as (_ & Hm & Hr).
    rewrite (bind_Done _ _ _ _ _ Hr). clear Hp Ho.
    pose proof (eq_refl (proc w1)) as Hp. pose proof (eq_refl (os w1)) as Ho.
    step_kill Hp Ho; [by rewrite Hm|].
    step_blocked Hp Ho; [by rewrite Hm|].
    norm_bind. intros Hd.
    apply wait_leaves_no_foreground in Hd as (w4 & Hd & Hfg).
    + eapply calm_done; [|exact Hd|done]. solve_calm.
    + rewrite Hp. cbn. by rewrite Hm.
    + rewrite Hp. cbn. rewrite Hj. rewrite <- (resolved_pid _ _ _ _ _ Er).
      by apply only_fg_set_state.
Qed.

Lemma child_never_returns fuel pr token cmdline w :
  builtin token = BUILTIN_NONE →
  pr = PARSELINE_FG ∨ pr = PARSELINE_BG →
  fork_ret (os w) = 0 →
  ∀ w', eval fuel pr token cmdline w ≠ Done tt w'.
Proof.
  intros Hb Hpr Hr w' Hd.
  destruct (eval_in_child fuel pr token cmdline w Hb Hpr Hr) as (w1 & k & He & Hp & _).
  rewrite He in Hd.
  destruct (run_eval_child (λ _, True) I (λ _ _ _ _, I) (λ _ _, I) (λ _, True)
              (λ _ _, I) (λ _, True) token (sigmask (proc w))
              (λ _ _, I) (λ _ _, I) (λ _ _, I) w1 I) as [_ Hnever].
  unfold mbind, M_bind in Hd.
  destruct (eval_child token (sigmask (proc w)) w1) as [a w2| | | |] eqn:Ec; try done.
  by apply (Hnever a w2).
Qed.

(** Property X3.  If no job is in the foreground when [eval] is called,
    none is when it returns: the job that a foreground launch or [fg] waits
    for has left the foreground, and nothing else, in the main line or in a
    handler, puts a job there. *)
Theorem no_foreground_job_is_left fuel pr token cmdline w w' :
  JobTable.fg_job (job_list (proc w)) = 0 →
  eval fuel pr token cmdline w = Done tt w' →
  JobTable.fg_job (job_list (proc w')) = 0.
Proof.
  intros H0 Hd.
  destruct pr; try (unfold eval in Hd; by injection Hd as <-).
  - destruct (builtin token) eqn:Eb.
    + destruct (decide (fork_ret (os w) = 0)) as [Hr|Hr].
      * by destruct (child_never_returns fuel PARSELINE_FG token cmdline w Eb
                       (or_introl eq_refl) Hr w').
      * by eapply foreground_launch_leaves_none.
    + unfold eval in Hd. by rewrite Eb in Hd.
    + unfold eval in Hd. rewrite Eb in Hd.
      eapply calm_done; [apply calm_eval_jobs | done | done].
    + unfold eval in Hd. rewrite Eb in Hd.
      eapply calm_done; [apply calm_eval_bg | done | done].
    + unfold eval in Hd. rewrite Eb in Hd. by eapply fg_leaves_none.
  - destruct (builtin token) eqn:Eb; unfold eval in Hd; rewrite Eb in Hd.
    + eapply calm_done; [apply calm_background_launch | done | done].
    + done.
    + eapply calm_done; [apply calm_eval_jobs | done | done].
    + eapply calm_done; [apply calm_eval_bg | done | done].
    + by eapply fg_leaves_none.
Qed.

(** ** File descriptors *)

Lemma opened_app tr1 tr2 : opened (tr1 ++ tr2) = opened tr1 ++ opened tr2.
Proof. apply omap_app. Qed.

Lemma closed_app tr1 tr2 : closed (tr1 ++ tr2) = closed tr1 ++ closed tr2.
Proof. apply omap_app. Qed.

Lemma no_descriptor_app tr1 tr2 :
  no_descriptor tr1 → no_descriptor tr2 → no_descriptor (tr1 ++ tr2).
Proof.
  intros [Hc1 Ho1] [Hc2 Ho2]. unfold no_descriptor.
  by rewrite closed_app, opened_app, Hc1, Ho1, Hc2, Ho2.
Qed.

Lemma no_descriptor_signal sigs : Forall handler_run sigs → no_descriptor sigs.
Proof.
  induction 1 as [|e sigs He _ [Hc Ho]]; [done|].
  destruct e; try done.
Qed.

Lemma no_descriptor_other e : other_call e → no_descriptor [e].
Proof. by destruct e. Qed.

Lemma no_descriptor_balanced tr : no_descriptor tr → balanced tr.
Proof. intros [Hc Ho]. unfold balanced. congruence. Qed.

Lemma balanced_app tr1 tr2 : balanced tr1 → balanced tr2 → balanced (tr1 ++ tr2).
Proof. unfold balanced. intros H1 H2. by rewrite closed_app, opened_app, H1, H2. Qed.

(** [open], a body that always returns and touches no descriptor, then
    [close]; or, when [open] fails, a computation that is balanced. *)
Lemma run_bracket P path flags mode (body : Z → M unit) (fail : M unit)
    (Q : unit → sigset → Prop) :
  (∀ fd, run no_descriptor P (body fd) (λ _, P)) →
  (∀ fd w, ∃ w', body fd w = Done tt w') →
  run balanced P fail Q →
  (∀ x, P x → Q tt x) →
  run balanced P
    (call (sys_open path flags mode) ≫= λ fd,
     if bool_decide (fd ≠ -1) then body fd ≫= λ _, call (close fd) else fail) Q.
Proof.
  intros Hbody Htotal Hfail HPQ w HP.
  destruct (fs_open (os w) path flags mode) as [fd|e] eqn:Eo.
  - edestruct (bind_call_run (sys_open path flags mode)
                 (λ fd, if bool_decide (fd ≠ -1) then body fd ≫= λ _, call (close fd)
                        else fail) w)
      as (w2 & -> & (Hm2 & _ & _ & s1 & Ht2 & Hs1) & _);
      [unfold sys_open; rewrite Eo; reflexivity|].
    cbn in Hm2, Ht2. rewrite bool_decide_eq_true_2 by lia.
    destruct (Htotal (Z.of_N fd) w2) as (w3 & Hb3).
    destruct (Hbody (Z.of_N fd) w2) as [(nb & Ht3 & Hnb) HP3]; [by rewrite Hm2|].
    rewrite Hb3 in Ht3. cbn in Ht3. specialize (HP3 tt w3 Hb3). cbv beta in HP3.
    rewrite (bind_Done _ _ _ _ _ Hb3).
    destruct (call_run (close (Z.of_N fd)) w3 tt (with_proc (log (E_close (Z.of_N fd))) w3))
      as (w4 & -> & (Hm4 & _ & _ & s2 & Ht4 & Hs2) & _); [reflexivity|].
    cbn in Hm4, Ht4. split.
    + exists ([E_open path flags mode (Z.of_N fd)] ++ s1 ++ nb
              ++ [E_close (Z.of_N fd)] ++ s2).
      split; [cbn; rewrite Ht4, Ht3, Ht2; by rewrite <- !app_assoc|].
      destruct (no_descriptor_signal _ Hs1) as [Hc1 Ho1].
      destruct (no_descriptor_signal _ Hs2) as [Hc2 Ho2].
      destruct Hnb as [Hcb Hob]. unfold balanced.
      rewrite !closed_app, !opened_app, Hc1, Ho1, Hc2, Ho2, Hcb, Hob. cbn.
      by rewrite bool_decide_eq_false_2 by lia.
    + intros a w' [= <- <-]. apply HPQ. by rewrite Hm4.
  - edestruct (bind_call_run (sys_open path flags mode)
                 (λ fd, if bool_decide (fd ≠ -1) then body fd ≫= λ _, call (close fd)
                        else fail) w)
      as (w2 & -> & (Hm2 & _ & _ & s1 & Ht2 & Hs1) & _);
      [unfold sys_open; rewrite Eo; reflexivity|].
    cbn in Hm2, Ht2. rewrite bool_decide_eq_false_2 by lia.
    destruct (Hfail w2) as [(nf & Htf & Hnf) HQ]; [by rewrite Hm2|].
    split; [|done].
    exists ([E_open path flags mode (-1)] ++ s1 ++ nf).
    split; [rewrite Htf, Ht2; by rewrite <- !app_assoc|].
    apply (balanced_app [_]); [done|].
    apply balanced_app; [|done]. by apply no_descriptor_balanced, no_descriptor_signal.
Qed.

Lemma bind_ext {A B} (m : M A) (f g : A → M B) w :
  (∀ a w', f a w' = g a w') → (m ≫= f) w = (m ≫= g) w.
Proof. intros Hfg. unfold mbind, M_bind. destruct (m w); auto. Qed.

Lemma run_ext {A} T P (m m' : M A) Q :
  (∀ w, m w = m' w) → run T P m Q → run T P m' Q.
Proof. intros He Hm w HP. rewrite <- He. by apply Hm. Qed.

Lemma call_returns {A} (h : H A) :
  (∀ w, ∃ a w1, h w = Some (a, w1)) → ∀ w, ∃ a w', call h w = Done a w'.
Proof.
  intros Hh w. destruct (Hh w) as (a & w1 & Hw).
  destruct (call_run h w a w1 Hw) as (w2 & Hc & _). eauto.
Qed.

Lemma no_descriptor_nil : no_descriptor [].
Proof. done. Qed.

Lemma balanced_nil : balanced [].
Proof. done. Qed.

Lemma balanced_signal sigs : Forall handler_run sigs → balanced sigs.
Proof. intros Hs. by apply no_descriptor_balanced, no_descriptor_signal. Qed.

Lemma balanced_other e : other_call e → balanced [e].
Proof. intros He. by apply no_descriptor_balanced, no_descriptor_other. Qed.

Lemma balanced_redirect P file flags mode target :
  run balanced P (redirect file flags mode target) (λ _, P).
Proof.
  unfold redirect. destruct file as [name|].
  2:{ by apply (run_ret balanced balanced_nil). }
  apply run_bracket.
  - intros fd.
    by apply (run_emit no_descriptor no_descriptor_nil no_descriptor_app
                no_descriptor_signal other_call no_descriptor_other).
  - intros fd w. destruct (call_returns (dup2 fd target)) with (w := w) as ([] & w' & Hc);
      [intros w0; by eexists _, _|]. eauto.
  - eapply (run_bind balanced balanced_app).
    + by apply (run_report_errno balanced balanced_nil balanced_app balanced_signal
                  other_call balanced_other).
    + intros ?. by apply (run_exit balanced balanced_nil).
  - done.
Qed.

Lemma balanced_eval_jobs P token : run balanced P (eval_jobs token) (λ _, P).
Proof.
  unfold eval_jobs.
  eapply (run_bind balanced balanced_app).
  { by apply (run_sigprocmask balanced balanced_nil balanced_app balanced_signal
                other_call balanced_other). }
  intros prev_all. cbn [Z.eqb SIG_BLOCK]. apply run_assume. intros Hprev.
  set (Pb := λ x : sigset, x = Z.lor prev_all mask_all).
  set (listing := λ fd : Z,
         call (list_jobs fd) ≫= λ listed : bool,
         if listed then mret tt
         else call (sio_printf ("Fails to write into job list." +:+ nl))).
  assert (∀ T, T [] → (∀ tr1 tr2, T tr1 → T tr2 → T (tr1 ++ tr2)) →
               (∀ sigs, Forall handler_run sigs → T sigs) →
               (∀ e, other_call e → T [e]) →
               ∀ fd, run T Pb (listing fd) (λ _, Pb)) as Hlist.
  { intros T T_nil T_app T_signal T_ok fd. unfold listing.
    eapply (run_bind T T_app).
    - by apply (run_list_jobs T T_nil T_app T_signal other_call T_ok).
    - intros []; [by apply (run_ret T T_nil)|].
      by apply (run_emit T T_nil T_app T_signal other_call T_ok). }
  eapply (run_bind balanced balanced_app _ _ (λ _, Pb)).
  - destruct (outfile token) as [name|].
    + eapply (run_ext _ _
                (call (sys_open name (Z.lor (Z.lor O_CREAT O_TRUNC) O_WRONLY) MODE)
                 ≫= λ fd, if bool_decide (fd ≠ -1)
                          then listing fd ≫= λ _, call (close fd)
                          else report_errno name)).
      { intros w. apply bind_ext. intros fd w'.
        destruct (bool_decide (fd ≠ -1)); [|done]. unfold listing. by rewrite bind_assoc. }
      apply run_bracket.
      * intros fd. by apply Hlist; auto using no_descriptor_nil, no_descriptor_app,
          no_descriptor_signal, no_descriptor_other.
      * intros fd w. unfold listing.
        destruct (call_returns (list_jobs fd)) with (w := w) as (listed & w1 & Hc).
        { intros w0. unfold list_jobs. destruct (fs_write (os w0) fd); by eexists _, _. }
        rewrite (bind_Done _ _ _ _ _ Hc). destruct listed; [by eexists|].
        destruct (call_returns (sio_printf ("Fails to write into job list." +:+ nl)))
          with (w := w1) as ([] & w2 & Hc2); [intros w0; by eexists _, _|]. eauto.
      * by apply (run_report_errno balanced balanced_nil balanced_app balanced_signal
                    other_call balanced_other).
      * done.
    + by apply Hlist; auto using balanced_nil, balanced_app, balanced_signal, balanced_other.
  - intros ?; cbv beta.
    eapply (run_bind balanced balanced_app).
    { by apply (run_sigprocmask balanced balanced_nil balanced_app balanced_signal
                  other_call balanced_other). }
    intros old. apply (run_ret balanced balanced_nil). by intros x [_ ->].
Qed.

(** Property X4.  Whatever command [eval] runs and however it ends, every
    file descriptor that it opened has been closed again: the shell keeps
    none after [jobs], and the child hands none but the standard ones to
    the program. *)
Theorem every_descriptor_is_closed fuel pr token cmdline w :
  ∃ new,
    trace (proc (final (eval fuel pr token cmdline w))) = trace (proc w) ++ new
    ∧ closed new = opened new.
Proof.
  assert (run balanced (λ _, True) (eval fuel pr token cmdline) (λ _ _, True)) as Hrun.
  { apply (run_eval_with balanced balanced_nil balanced_app balanced_signal
             other_call balanced_other).
    - by intros [].
    - done.
    - apply balanced_eval_jobs.
    - intros prev_all.
      apply (run_eval_child_with balanced balanced_nil balanced_app balanced_signal
               other_call balanced_other).
      + by intros [].
      + by intros [].
      + intros. apply balanced_redirect. }
  destruct (Hrun w I) as [Ht _]. exact Ht.
Qed.

(** ** A background launch *)

Lemma handler_run_signal e : handler_run e → is_signal e.
Proof. by destruct e. Qed.

Lemma printed_handler_runs sigs : Forall handler_run sigs → printed sigs = [].
Proof.
  intros Hs. apply printed_signals. eapply Forall_impl; [done | apply handler_run_signal].
Qed.

(** A call that handlers may interrupt: [w2] is the world after them. *)
Ltac step_run Hi :=
  norm_bind;
  lazymatch goal with
  | |- context [(call ?h ≫= ?f) ?w] =>
      let w2 := fresh "w" in
      let Hc := fresh "Hc" in
      edestruct (bind_call_run h f w) as (w2 & Hc & Hi & _);
      [ reflexivity | rewrite Hc; clear Hc; cbv beta ]
  end.

Ltac step_last Hi :=
  lazymatch goal with
  | |- context [call ?h ?w] =>
      let w2 := fresh "w" in
      let Hc := fresh "Hc" in
      edestruct (call_run h w) as (w2 & Hc & Hi & _);
      [ reflexivity | rewrite Hc; clear Hc ]
  end.

(** Property X5.  A background launch does not wait for the child: the
    parent registers the job, prints its job id, process id and command
    line once, and returns to the prompt without ever suspending, whatever
    fuel the foreground wait would have been given. *)
Theorem background_launch_returns_at_once fuel token cmdline w :
  builtin token = BUILTIN_NONE →
  fork_ret (os w) ≠ 0 →
  let pid := fork_ret (os w) in
  let jl := (JobTable.add_job pid BG cmdline (job_list (proc w))).2 in
  ∃ w' new,
    eval fuel PARSELINE_BG token cmdline w = Done tt w'
    ∧ trace (proc w') = trace (proc w) ++ new
    ∧ printed new = [job_line (JobTable.job_from_pid pid jl) pid cmdline]
    ∧ Forall (λ e, ¬ is_suspend e) new.
Proof.
  intros Hb Hr pid jl. unfold eval. rewrite Hb. unfold eval_external.
  pose proof (blocks_all_lor (sigmask (proc w))) as Hfull.
  pose proof (eq_refl (proc w)) as Hp. pose proof (eq_refl (os w)) as Ho.
  step_blocked Hp Ho. step_fork Hp Ho.
  rewrite (proj2 (Z.eqb_neq _ _)) by done.
  step_blocked Hp Ho. step_blocked Hp Ho. step_blocked Hp Ho. norm_bind.
  step_run Hi1. destruct Hi1 as (_ & _ & _ & s1 & Ht5 & Hs1).
  cbn in Ht5. rewrite Hp in Ht5. cbn in Ht5.
  step_last Hi2. destruct Hi2 as (_ & _ & _ & s2 & Ht6 & Hs2).
  cbn in Ht6. rewrite Ht5 in Ht6.
  exists w6. eexists. split; [done|].
  split; [rewrite Ht6; rewrite <- !app_assoc; reflexivity|].
  split.
  - rewrite !printed_app, (printed_handler_runs _ Hs1), (printed_handler_runs _ Hs2). done.
  - rewrite !Forall_app, !Forall_singleton.
    split_and!;
      first [ by intros []
            | eapply Forall_impl; [eassumption|];
              intros [] H1 H2; first [exact H1 | exact H2] ].
Qed.

(** ** The child, up to the program *)

Lemma redirect_done file flags mode target w w1 :
  blocks_all (sigmask (proc w)) →
  redirect file flags mode target w = Done tt w1 →
  proc w1 = add_events (redirected (os w) file flags mode target) (proc w)
  ∧ os w1 = os w.
Proof.
  intros Hb. unfold redirect, redirected. destruct file as [name|].
  2:{ intros [= <-]. split; [|done]. unfold add_events. rewrite app_nil_r.
      by destruct (proc w). }
  pose proof (eq_refl (proc w)) as Hp. pose proof (eq_refl (os w)) as Ho.
  destruct (fs_open (os w) name flags mode) as [fd|e] eqn:Eo.
  - step_blocked_by ltac:(unfold sys_open; rewrite Eo; reflexivity) Hp Ho; [done|].
    rewrite bool_decide_eq_true_2 by lia.
    step_blocked Hp Ho; [done|].
    edestruct (call_blocked (close (Z.of_N fd)) w2) as (w3 & Hc & Hp3 & Ho3);
      [reflexivity | cbn; by rewrite Hp |].
    rewrite Hc. intros [= <-]. rewrite Hp3. cbn. rewrite Hp. cbn.
    split; [|cbn in Ho3; congruence].
    unfold add_events, log, set_trace. cbn. by rewrite <- !app_assoc.
  - step_blocked_by ltac:(unfold sys_open; rewrite Eo; reflexivity) Hp Ho; [done|].
    rewrite bool_decide_eq_false_2 by lia.
    destruct (report_errno_run name w0) as (w2 & new & Hr & _).
    by rewrite (bind_Done _ _ _ _ _ Hr).
Qed.

Lemma redirect_never_execs file flags mode target w path args w' :
  redirect file flags mode target w ≠ Execed path args w'.
Proof.
  unfold redirect. destruct file as [name|]; [|done].
  destruct (call_returns (sys_open name flags mode)) with (w := w) as (fd & w1 & Hc).
  { intros w0. unfold sys_open. destruct (fs_open _ _ _ _); by eexists _, _. }
  rewrite (bind_Done _ _ _ _ _ Hc). destruct (bool_decide _).
  - destruct (call_returns (dup2 fd target)) with (w := w1) as ([] & w2 & Hc2);
      [intros w0; by eexists _, _|].
    rewrite (bind_Done _ _ _ _ _ Hc2).
    destruct (call_returns (close fd)) with (w := w2) as ([] & w3 & Hc3);
      [intros w0; by eexists _, _|].
    by rewrite Hc3.
  - destruct (report_errno_run name w1) as (w2 & new & Hr & _).
    by rewrite (bind_Done _ _ _ _ _ Hr).
Qed.

Lemma child_exec_execs token prev_all w path args w' :
  child_exec token prev_all w = Execed path args w' →
  path = argv_at token 0 ∧ args = argv token
  ∧ sigmask (proc w') = prev_all
  ∧ ∃ sigs1 sigs2,
      trace (proc w')
      = trace (proc w) ++ [E_sigprocmask SIG_SETMASK prev_all prev_all] ++ sigs1
        ++ [E_setpgid 0 0] ++ sigs2 ++ [E_execve path args 0]
      ∧ Forall handler_run sigs1 ∧ Forall handler_run sigs2.
Proof.
  unfold child_exec.
  step_run Hi1. destruct Hi1 as (Hm1 & Ho1 & _ & s1 & Ht1 & Hs1).
  step_run Hi2. destruct Hi2 as (Hm2 & Ho2 & _ & s2 & Ht2 & Hs2).
  cbn in Hm1, Ht1, Hm2, Ht2.
  destruct (fs_execve (os w1) (argv_at token 0) (argv token)) as [e|] eqn:Ex.
  - destruct (bind_execve_fails (argv_at token 0) (argv token)
                (λ r, if r <? 0 then report_errno (argv_at token 0) ≫= λ _, _exit 0 else mret ())
                w1 e Ex) as (w3 & s3 & -> & _).
    cbn [Z.ltb Z.compare].
    destruct (report_errno_run (argv_at token 0) w3) as (w4 & new & Hr & _).
    by rewrite (bind_Done _ _ _ _ _ Hr).
  - unfold mbind at 1, M_bind, execve. rewrite Ex. intros [= <- <- <-].
    split_and!; [done | done | cbn; congruence |].
    exists s1, s2. split_and!; [|done|done].
    cbn. rewrite Ht2, Ht1. by rewrite <- !app_assoc.
Qed.

(** Property X6.  When the child gets to run the program, it has made its
    redirections while every signal was still blocked, each as [open],
    [dup2] onto the standard descriptor, [close]; only then has it put back
    the signal mask that the shell had before the launch, moved into a
    process group of its own, and called [execve] on the first argument. *)
Theorem program_starts_unblocked_in_its_own_group fuel pr token cmdline w path args w' :
  builtin token = BUILTIN_NONE →
  pr = PARSELINE_FG ∨ pr = PARSELINE_BG →
  fork_ret (os w) = 0 →
  eval fuel pr token cmdline w = Execed path args w' →
  let prev_all := sigmask (proc w) in
  path = argv_at token 0 ∧ args = argv token
  ∧ sigmask (proc w') = prev_all
  ∧ ∃ sigs1 sigs2,
      trace (proc w')
      = trace (proc w)
        ++ [E_sigprocmask SIG_BLOCK mask_all (Z.lor prev_all mask_all); E_fork 0]
        ++ redirected (os w) (infile token) O_RDONLY 0 STDIN_FILENO
        ++ redirected (os w) (outfile token) output_flags MODE STDOUT_FILENO
        ++ [E_sigprocmask SIG_SETMASK prev_all prev_all] ++ sigs1
        ++ [E_setpgid 0 0] ++ sigs2 ++ [E_execve path args 0]
      ∧ Forall handler_run sigs1 ∧ Forall handler_run sigs2.
Proof.
  intros Hb Hpr Hr He prev_all.
  destruct (eval_in_child fuel pr token cmdline w Hb Hpr Hr) as (w1 & k & Hk & Hp1 & Ho1).
  rewrite Hk, eval_child_redirects in He. fold prev_all in He, Hp1.
  pose proof (blocks_all_lor prev_all) as Hfull.
  assert (blocks_all (sigmask (proc w1))) as Hb1 by (by rewrite Hp1).
  unfold mbind at 1, M_bind at 1 in He.
  destruct ((redirect (infile token) O_RDONLY 0 STDIN_FILENO ≫= _) w1)
    as [a wc| |p a wc| |] eqn:Ec; try done.
  { exfalso. clear He.
    destruct (run_eval_child (λ _, True) I (λ _ _ _ _, I) (λ _ _, I) (λ _, True)
                (λ _ _, I) (λ _, True) token prev_all
                (λ _ _, I) (λ _ _, I) (λ _ _, I) w1 I) as [_ Hnever].
    rewrite eval_child_redirects in Hnever. by apply (Hnever a wc). }
  injection He as -> -> ->.
  unfold mbind at 1, M_bind at 1 in Ec.
  destruct (redirect (infile token) O_RDONLY 0 STDIN_FILENO w1) as [[] w2| |p1 a1 w2| |] eqn:E1;
    try done.
  2:{ by destruct (redirect_never_execs _ _ _ _ _ _ _ _ E1). }
  apply redirect_done in E1 as [Hp2 Ho2]; [|done].
  unfold mbind at 1, M_bind at 1 in Ec.
  destruct (redirect (outfile token) output_flags MODE STDOUT_FILENO w2)
    as [[] w3| |p2 a2 w3| |] eqn:E2; try done.
  2:{ by destruct (redirect_never_execs _ _ _ _ _ _ _ _ E2). }
  apply redirect_done in E2 as [Hp3 Ho3]; [|by rewrite Hp2].
  apply child_exec_execs in Ec as (-> & -> & Hm & s1 & s2 & Ht & Hs1 & Hs2).
  split_and!; [done | done | done |].
  exists s1, s2. split_and!; [|done|done].
  rewrite Ht, Hp3, Hp2, Hp1, Ho2, Ho1. cbn. by rewrite <- !app_assoc.
Qed.

(** ** The [jobs] built-in *)

Lemma written_app tr1 tr2 : written (tr1 ++ tr2) = written tr1 ++ written tr2.
Proof. apply omap_app. Qed.

(** The end of [jobs]: the mask is put back, from the world [w1]. *)
Ltac jobs_end Hp :=
  norm_bind;
  lazymatch goal with
  | |- context [(call ?h ≫= λ _, mret tt) ?w3] =>
      let w' := fresh "w'" in
      let Hc := fresh "Hc" in
      let Hd := fresh "Hd" in
      edestruct (last_call h tt w3) as (w' & Hc & Hd); [reflexivity|];
      rewrite Hc;
      lazymatch type of Hd with deliver ?w6 = _ => exists w6 end;
      exists w'; eexists; cbn; rewrite Hp; cbn;
      split_and!; [done | done | rewrite <- !app_assoc; reflexivity | ..]; try done;
      rewrite !Forall_app, !Forall_singleton; split_and!; by intros []
  end.

(** Property X7.  [jobs] writes the listing of the job list, as it is when
    the command starts, to the redirection file when there is one and to the
    standard output otherwise, and to one of them only; when the file
    cannot be opened nothing is listed and the error is reported as for a
    launch; when the write fails it says so.  From the first call to the
    one that puts the mask back no handler runs, the job list is not
    changed, and the mask is then the one [jobs] was called with. *)
Theorem jobs_lists_the_table_once token w :
  let jl := job_list (proc w) in
  ∃ w1 w' new,
    eval_jobs token w = Done tt w'
    ∧ deliver w1 = Some w'
    ∧ trace (proc w1) = trace (proc w) ++ new
    ∧ Forall (λ e, ¬ is_signal e) new
    ∧ job_list (proc w1) = jl
    ∧ sigmask (proc w1) = sigmask (proc w)
    ∧ written new = (jobs_output (os w) token jl).1
    ∧ printed new = (jobs_output (os w) token jl).2.
Proof.
  intros jl. unfold eval_jobs, jobs_output, write_failure.
  pose proof (blocks_all_lor (sigmask (proc w))) as Hfull.
  pose proof (eq_refl (proc w)) as Hp. pose proof (eq_refl (os w)) as Ho.
  step_blocked Hp Ho.
  destruct (outfile token) as [name|].
  - destruct (fs_open (os w) name output_flags MODE) as [fd|e] eqn:Eo.
    + step_blocked_by ltac:(unfold sys_open; rewrite Ho; unfold output_flags in Eo;
                            rewrite Eo; reflexivity) Hp Ho.
      rewrite bool_decide_eq_true_2 by lia.
      destruct (fs_write (os w) (Z.of_N fd)) eqn:Ew.
      * step_blocked_by ltac:(unfold list_jobs; rewrite Ho, Ew; reflexivity) Hp Ho.
        step_blocked Hp Ho. jobs_end Hp.
      * step_blocked_by ltac:(unfold list_jobs; rewrite Ho, Ew; reflexivity) Hp Ho.
        step_blocked Hp Ho. step_blocked Hp Ho. jobs_end Hp.
    + step_blocked_by ltac:(unfold sys_open; rewrite Ho; unfold output_flags in Eo;
                            rewrite Eo; reflexivity) Hp Ho.
      rewrite bool_decide_eq_false_2 by lia.
      unfold report_errno. norm_bind.
      rewrite (bind_Done read_errno _ w1 (errno (proc w1)) w1 eq_refl).
      rewrite Hp. cbn [errno set_errno]. unfold diagnostic.
      destruct (e =? 2); [|destruct (e =? 13)].
      * step_blocked Hp Ho. jobs_end Hp.
      * step_blocked Hp Ho. jobs_end Hp.
      * jobs_end Hp.
  - destruct (fs_write (os w) STDOUT_FILENO) eqn:Ew.
    + step_blocked_by ltac:(unfold list_jobs; rewrite Ho, Ew; reflexivity) Hp Ho.
      jobs_end Hp.
    + step_blocked_by ltac:(unfold list_jobs; rewrite Ho, Ew; reflexivity) Hp Ho.
      step_blocked Hp Ho. jobs_end Hp.
Qed.

(** * The read/eval loop of [main] *)

Lemma append_cons c (l r : string) : String c l +:+ r = String c (l +:+ r).
Proof. reflexivity. Qed.

Lemma append_assoc (a b c : string) : (a +:+ b) +:+ c = a +:+ (b +:+ c).
Proof. induction a as [|x a IH]; [done|]. by rewrite !append_cons, IH. Qed.

Lemma take_line_line l rest n :
  has_newline l = false → (String.length l + 1 ≤ n)%nat →
  take_line n (l +:+ nl +:+ rest) = (l +:+ nl, rest, false).
Proof.
  revert n. induction l as [|c l IH]; intros n Hl Hn.
  - destruct n as [|n]; [cbn in Hn; lia | done].
  - cbn in Hl. apply orb_false_iff in Hl as [Hc Hl].
    destruct n as [|n]; [cbn in Hn; lia|]. rewrite !append_cons. cbn [take_line].
    rewrite Hc. rewrite IH; [done | done | cbn in Hn; lia].
Qed.

Lemma take_line_last last n :
  has_newline last = false → (String.length last < n)%nat →
  take_line n last = (last, EmptyString, true).
Proof.
  revert n. induction last as [|c l IH]; intros n Hl Hn.
  - destruct n as [|n]; [cbn in Hn; lia | done].
  - cbn in Hl. apply orb_false_iff in Hl as [Hc Hl].
    destruct n as [|n]; [cbn in Hn; lia|]. cbn [take_line].
    rewrite Hc. rewrite IH; [done | done | cbn in Hn; lia].
Qed.

Lemma take_line_chunk chunk rest :
  has_newline chunk = false →
  take_line (String.length chunk) (chunk +:+ rest) = (chunk, rest, false).
Proof.
  induction chunk as [|c l IH]; intros Hl; [done|].
  cbn in Hl. apply orb_false_iff in Hl as [Hc Hl].
  rewrite append_cons. cbn [take_line String.length]. rewrite Hc. by rewrite IH.
Qed.

Lemma remove_newline_none l : has_newline l = false → remove_newline l = l.
Proof.
  induction l as [|c l IH]; intros Hl; [done|].
  cbn in Hl. apply orb_false_iff in Hl as [Hc Hl].
  cbn [remove_newline]. rewrite Hc. rewrite IH by done. by destruct (is_nul c).
Qed.

(** With its newline taken off, a line is the C string that it was. *)
Lemma c_string_line l :
  has_newline l = false → c_string (remove_newline (l +:+ nl)) = c_string l.
Proof.
  induction l as [|c l IH]; intros Hl; [done|].
  cbn in Hl. apply orb_false_iff in Hl as [Hc Hl].
  rewrite append_cons. cbn [remove_newline c_string].
  destruct (is_nul c) eqn:En.
  - cbn [c_string]. by rewrite En.
  - rewrite Hc. cbn [c_string]. rewrite En. by rewrite IH.
Qed.

(** A read that returns is a window in which handlers may run, and
    nothing else. *)
Lemma bind_fgets {B} cmdline size f (k : bool * string * stream → M B) r w :
  (∀ w0, fgets cmdline size f w0 = Some (r, w0)) →
  (call (fgets cmdline size f) ≫= k) w = (call pause ≫= λ _, k r) w.
Proof.
  intros Hf. unfold mbind, M_bind, call, pause. rewrite Hf. cbn.
  by destruct (deliver w).
Qed.

Lemma append_nil_r (s : string) : s +:+ EmptyString = s.
Proof. induction s as [|c s IH]; [done|]. by rewrite append_cons, IH. Qed.

Lemma length_append (a b : string) :
  String.length (a +:+ b) = (String.length a + String.length b)%nat.
Proof. induction a as [|c a IH]; [done|]. rewrite append_cons. cbn. by rewrite IH. Qed.

Lemma has_newline_app (a b : string) :
  has_newline (a +:+ b) = has_newline a || has_newline b.
Proof.
  induction a as [|c a IH]; [done|]. rewrite append_cons. cbn. rewrite IH.
  by rewrite orb_assoc.
Qed.

(** ** Input that ends with a newline, and what follows it *)

Lemma lines_text_ends ls :
  lines_text ls = EmptyString ∨ ∃ t, lines_text ls = t +:+ nl.
Proof.
  induction ls as [|l ls IH]; [by left|]. right. cbn [lines_text].
  destruct IH as [-> | (t & ->)].
  - exists l. by rewrite append_nil_r.
  - exists (l +:+ nl +:+ t). by rewrite !append_assoc.
Qed.

(** A read within text that ends with a newline is the same whatever
    follows the text, and leaves text that ends with a newline. *)
Lemma take_line_within k t x :
  ∃ a t', take_line k (t +:+ nl) = (a, t', false)
          ∧ take_line k ((t +:+ nl) +:+ x) = (a, t' +:+ x, false)
          ∧ (t' = EmptyString ∨ ∃ t0, t' = t0 +:+ nl).
Proof.
  revert t. induction k as [|k IH]; intros t.
  - exists EmptyString, (t +:+ nl). split; [done|]. split; [done|]. right. by exists t.
  - destruct t as [|c t].
    + exists nl, EmptyString. split; [done|]. split; [done|]. by left.
    + rewrite !append_cons. cbn [take_line].
      destruct (is_newline c).
      * exists (String c EmptyString), (t +:+ nl). split; [done|]. split; [done|].
        right. by exists t.
      * destruct (IH t) as (a & t' & -> & -> & Ht'). by exists (String c a), t'.
Qed.

Lemma split_chunk k (s : string) :
  (k ≤ String.length s)%nat →
  ∃ chunk rest, s = chunk +:+ rest ∧ String.length chunk = k.
Proof.
  revert s. induction k as [|k IH]; intros s Hk.
  - by exists EmptyString, s.
  - destruct s as [|c s]; [cbn in Hk; lia|].
    destruct (IH s) as (chunk & rest & -> & Hlen); [cbn in Hk; lia|].
    exists (String c chunk), rest. split; [done|]. cbn. by rewrite Hlen.
Qed.

Lemma substring_0_0 (s : string) : String.substring 0 0 s = EmptyString.
Proof. by destruct s. Qed.

Lemma substring_0_app (chunk rest : string) j :
  String.substring 0 (String.length chunk + j) (chunk +:+ rest)
  = chunk +:+ String.substring 0 j rest.
Proof.
  induction chunk as [|c chunk IH]; [done|].
  rewrite append_cons. cbn. by rewrite IH.
Qed.

Lemma whole_chunks_short k (s : string) :
  (String.length s < k)%nat → whole_chunks k s = EmptyString.
Proof.
  intros Hk. unfold whole_chunks. rewrite Nat.div_small by done.
  rewrite Nat.mul_0_r. apply substring_0_0.
Qed.

Lemma whole_chunks_app (chunk rest : string) :
  whole_chunks (String.length chunk) (chunk +:+ rest)
  = chunk +:+ whole_chunks (String.length chunk) rest.
Proof.
  unfold whole_chunks. rewrite length_append.
  destruct (String.length chunk) as [|k] eqn:Ek.
  - destruct chunk; [|done]. cbn. by rewrite !substring_0_0.
  - replace (S k + String.length rest)%nat with (1 * S k + String.length rest)%nat by lia.
    rewrite Nat.div_add_l by done.
    replace (S k * (1 + Nat.div (String.length rest) (S k)))%nat
      with (String.length chunk + S k * Nat.div (String.length rest) (S k))%nat by lia.
    apply substring_0_app.
Qed.

Section Loop.
Variable parseline : string → parseline_return * cmdline_tokens.
Variable prompt : string.
Variable MAXLINE_TSH : nat.
Variable strerror : Z → string.

(** The loop on an input made of whole lines that fit in the buffer,
    followed by [last], a rest without newline that fits too. *)
Lemma loop_on_lines ls last n fuel emit_prompt cmdline w :
  Forall (λ l, has_newline l = false ∧ fits MAXLINE_TSH l) ls →
  has_newline last = false → fits MAXLINE_TSH last →
  (length ls < n)%nat →
  read_eval_loop parseline prompt MAXLINE_TSH strerror n fuel emit_prompt cmdline
    (stream_of (lines_text ls +:+ last)) w
  = run_lines parseline prompt fuel emit_prompt (c_string <$> ls) w.
Proof.
  intros Hls Hlast Hfit. revert n cmdline w.
  induction Hls as [|l ls [Hl Hlf] _ IH]; intros n cmdline w Hn.
  - destruct n as [|n]; [cbn in Hn; lia|]. cbn [read_eval_loop run_lines lines_text].
    apply bind_ext. intros _ w1. unfold fits in Hfit.
    destruct last as [|c last'].
    + rewrite (bind_fgets _ _ _ _
                 (false, cmdline,
                  {| unread := EmptyString; breaks := None; at_eof := true;
                     in_error := false |})); [done|].
      intros w0. unfold fgets. cbn [unread stream_of].
      change (EmptyString +:+ EmptyString) with EmptyString.
      rewrite take_line_last; [done | done | cbn; lia].
    + rewrite (bind_fgets _ _ _ _
                 (true, String c last',
                  {| unread := EmptyString; breaks := None; at_eof := true;
                     in_error := false |})); [done|].
      intros w0. unfold fgets. cbn [unread stream_of].
      change (EmptyString +:+ String c last') with (String c last').
      rewrite take_line_last; [done | done | lia].
  - destruct n as [|n]; [cbn in Hn; lia|]. rewrite fmap_cons.
    cbn [read_eval_loop run_lines lines_text].
    apply bind_ext. intros _ w1. unfold fits in Hlf.
    rewrite (bind_fgets _ _ _ _ (true, l +:+ nl, stream_of (lines_text ls +:+ last))).
    2:{ intros w0. unfold fgets. cbn [stream_of unread].
        rewrite !append_assoc.
        rewrite take_line_line; [reflexivity | done | lia]. }
    apply bind_ext. intros _ w2. cbn [fst snd negb andb ferror feof in_error at_eof stream_of].
    rewrite c_string_line by done.
    apply bind_ext. intros _ w3.
    apply IH. cbn in Hn. lia.
Qed.

(** What follows the last newline of the input is read in whole buffers;
    the rest of it meets the end of the input and is dropped. *)
Lemma loop_drops_rest n fuel emit_prompt t last cmdline w :
  t = EmptyString ∨ (∃ t0, t = t0 +:+ nl) →
  has_newline last = false →
  read_eval_loop parseline prompt MAXLINE_TSH strerror n fuel emit_prompt cmdline
    (stream_of (t +:+ last)) w
  = read_eval_loop parseline prompt MAXLINE_TSH strerror n fuel emit_prompt cmdline
      (stream_of (t +:+ whole_chunks (MAXLINE_TSH - 1) last)) w.
Proof.
  revert t last cmdline w. induction n as [|n IH]; intros t last cmdline w Ht Hlast; [done|].
  cbn [read_eval_loop]. apply bind_ext. intros _ w1.
  destruct Ht as [-> | (t0 & ->)].
  - change (EmptyString +:+ last) with last.
    change (EmptyString +:+ whole_chunks (MAXLINE_TSH - 1) last)
      with (whole_chunks (MAXLINE_TSH - 1) last).
    destruct (decide (String.length last < MAXLINE_TSH - 1)%nat) as [Hshort | Hlong].
    + rewrite whole_chunks_short by done.
      rewrite (bind_fgets _ _ (stream_of EmptyString) _
                 (false, cmdline,
                  {| unread := EmptyString; breaks := None; at_eof := true;
                     in_error := false |})).
      2:{ intros w0. unfold fgets. cbn [stream_of unread].
          rewrite take_line_last; [done | done | cbn [String.length]; lia]. }
      destruct last as [|c last'].
      * rewrite (bind_fgets _ _ _ _
                   (false, cmdline,
                    {| unread := EmptyString; breaks := None; at_eof := true;
                       in_error := false |})); [done|].
        intros w0. unfold fgets. cbn [stream_of unread].
        rewrite take_line_last; [done | done | lia].
      * rewrite (bind_fgets _ _ _ _
                   (true, String c last',
                    {| unread := EmptyString; breaks := None; at_eof := true;
                       in_error := false |})); [done|].
        intros w0. unfold fgets. cbn [stream_of unread].
        rewrite take_line_last; [done | done | done].
    + destruct (split_chunk (MAXLINE_TSH - 1) last) as (chunk & rest & -> & Hlen); [lia|].
      rewrite has_newline_app in Hlast. apply orb_false_iff in Hlast as [Hc Hr].
      rewrite <- Hlen. rewrite whole_chunks_app.
      rewrite (bind_fgets _ _ (stream_of (chunk +:+ rest)) _ (true, chunk, stream_of rest)).
      2:{ intros w0. unfold fgets. cbn [stream_of unread]. rewrite <- Hlen.
          by rewrite take_line_chunk. }
      rewrite (bind_fgets _ _ (stream_of (chunk +:+ _)) _
                 (true, chunk, stream_of (whole_chunks (String.length chunk) rest))).
      2:{ intros w0. unfold fgets. cbn [stream_of unread]. rewrite <- Hlen.
          by rewrite take_line_chunk. }
      apply bind_ext. intros _ w2.
      cbn [fst snd negb andb ferror feof in_error at_eof stream_of].
      apply bind_ext. intros _ w3. rewrite Hlen.
      apply (IH EmptyString rest); [by left | done].
  - destruct (take_line_within (MAXLINE_TSH - 1) t0 last) as (a & t' & Ha & Hal & Ht').
    destruct (take_line_within (MAXLINE_TSH - 1) t0 (whole_chunks (MAXLINE_TSH - 1) last))
      as (a2 & t2 & Ha2 & Hal2 & _).
    rewrite Ha in Ha2. injection Ha2 as <- <-.
    rewrite (bind_fgets _ _ (stream_of ((t0 +:+ nl) +:+ last)) _
               (true, a, stream_of (t' +:+ last))).
    2:{ intros w0. unfold fgets. cbn [stream_of unread]. by rewrite Hal. }
    rewrite (bind_fgets _ _ (stream_of ((t0 +:+ nl) +:+ _)) _
               (true, a, stream_of (t' +:+ whole_chunks (MAXLINE_TSH - 1) last))).
    2:{ intros w0. unfold fgets. cbn [stream_of unread]. by rewrite Hal2. }
    apply bind_ext. intros _ w2.
    cbn [fst snd negb andb ferror feof in_error at_eof stream_of].
    apply bind_ext. intros _ w3. by apply IH.
Qed.
End Loop.

(** Property X9.  On an input made of lines that each end with a newline
    and fit in the buffer, the loop of [main] evaluates the lines in order,
    each without its newline and as the C string that it is (up to its
    first zero byte, if it has one), printing the prompt before each read
    unless prompting is off; at the end of the input it prints a newline
    and returns 0.  A command that does not return (as [quit]) ends the
    loop where it stands. *)
Theorem lines_are_evaluated_in_order parseline prompt MAXLINE_TSH strerror
    ls n fuel emit_prompt cmdline w :
  Forall (λ l, has_newline l = false ∧ fits MAXLINE_TSH l) ls →
  (2 ≤ MAXLINE_TSH)%nat →
  (length ls < n)%nat →
  read_eval_loop parseline prompt MAXLINE_TSH strerror n fuel emit_prompt cmdline
    (stream_of (lines_text ls)) w
  = run_lines parseline prompt fuel emit_prompt (c_string <$> ls) w.
Proof.
  intros Hls Hmax Hn.
  rewrite <- (append_nil_r (lines_text ls)).
  by apply loop_on_lines.
Qed.

(** Property X10.  What follows the last newline of the input, a last
    line that was not ended, is evaluated only as far as it fills whole
    buffers of [MAXLINE_TSH - 1] characters: the rest of it (all of it,
    when it is shorter than that) is read but never evaluated, because
    [fgets] meets the end of the file while reading it and the loop tests
    [feof] before it looks at the line.  The run is the one on the input
    without that rest, whatever the lines before are.  ([MAXLINE_TSH] is
    the size of an array, at least 1.) *)
Theorem unterminated_last_line_is_not_evaluated parseline prompt MAXLINE_TSH strerror
    ls last n fuel emit_prompt cmdline w :
  (1 ≤ MAXLINE_TSH)%nat →
  has_newline last = false →
  read_eval_loop parseline prompt MAXLINE_TSH strerror n fuel emit_prompt cmdline
    (stream_of (lines_text ls +:+ last)) w
  = read_eval_loop parseline prompt MAXLINE_TSH strerror n fuel emit_prompt cmdline
      (stream_of (lines_text ls +:+ whole_chunks (MAXLINE_TSH - 1) last)) w.
Proof.
  intros _ Hlast. apply loop_drops_rest; [apply lines_text_ends | done].
Qed.

(** Property X11.  A line that does not fit in the buffer is not read as
    one line: the [MAXLINE_TSH - 1] characters that [fgets] stores are
    evaluated as a command of their own (the C string that they are), and
    the loop goes on with what follows them. *)
Theorem long_line_is_evaluated_in_pieces parseline prompt MAXLINE_TSH strerror
    chunk rest n fuel emit_prompt cmdline w :
  has_newline chunk = false →
  S (String.length chunk) = MAXLINE_TSH →
  read_eval_loop parseline prompt MAXLINE_TSH strerror (S n) fuel emit_prompt cmdline
    (stream_of (chunk +:+ rest)) w
  = ((if emit_prompt then call (printf prompt) else mret tt) ≫= λ _,
     call pause ≫= λ _,
     eval fuel (parseline (c_string chunk)).1 (parseline (c_string chunk)).2
       (c_string chunk) ≫= λ _,
     read_eval_loop parseline prompt MAXLINE_TSH strerror n fuel emit_prompt chunk
       (stream_of rest)) w.
Proof.
  intros Hc Hlen. cbn [read_eval_loop].
  apply bind_ext. intros _ w1.
  rewrite (bind_fgets _ _ _ _ (true, chunk, stream_of rest)).
  2:{ intros w0. unfold fgets. cbn [stream_of unread]. rewrite <- Hlen.
      replace (S (String.length chunk) - 1)%nat with (String.length chunk) by lia.
      by rewrite take_line_chunk. }
  apply bind_ext. intros _ w2. cbn [fst snd negb andb ferror feof in_error at_eof stream_of].
  by rewrite remove_newline_none.
Qed.

Ltac step_run_by tac Hi He :=
  norm_bind;
  lazymatch goal with
  | |- context [(call ?h ≫= ?f) ?w] =>
      let w2 := fresh "w" in
      let Hc := fresh "Hc" in
      edestruct (bind_call_run h f w) as (w2 & Hc & Hi & He);
      [ tac | rewrite Hc; clear Hc; cbv beta ]
  end.

Lemma written_handler_runs sigs : Forall handler_run sigs → written sigs = [].
Proof.
  induction 1 as [|e sigs He _ IH]; [done|]. destruct e; try done.
Qed.

(** Property X12.  When reading the input fails, the loop evaluates
    nothing more, not even the characters read before the failure: it
    reports the error of [fgets] on the standard error and the shell exits
    with status 1. *)
Theorem read_error_ends_the_shell parseline prompt MAXLINE_TSH strerror
    last e n fuel emit_prompt cmdline w :
  has_newline last = false → fits MAXLINE_TSH last →
  ∃ w' new,
    read_eval_loop parseline prompt MAXLINE_TSH strerror (S n) fuel emit_prompt cmdline
      {| unread := last; breaks := Some e; at_eof := false; in_error := false |} w
    = Exited 1 w'
    ∧ trace (proc w') = trace (proc w) ++ new
    ∧ printed new = (if emit_prompt then [prompt] else [])
    ∧ written new = [(STDERR_FILENO, "fgets error: " +:+ strerror e +:+ nl)].
Proof.
  intros Hlast Hfit. unfold fits in Hfit. cbn [read_eval_loop].
  assert (∀ w0, ∃ w' new,
            (call (fgets cmdline MAXLINE_TSH
                     {| unread := last; breaks := Some e; at_eof := false;
                        in_error := false |}) ≫= λ r,
             if negb r.1.1 && ferror r.2
             then call (perror strerror "fgets error") ≫= λ _, exit 1
             else if feof r.2 then call (printf nl) ≫= λ _, mret 0
             else eval fuel (parseline (c_string (remove_newline r.1.2))).1
                    (parseline (c_string (remove_newline r.1.2))).2
                    (c_string (remove_newline r.1.2)) ≫= λ _,
                  read_eval_loop parseline prompt MAXLINE_TSH strerror n fuel emit_prompt
                    (remove_newline r.1.2) r.2) w0
            = Exited 1 w'
            ∧ trace (proc w') = trace (proc w0) ++ new
            ∧ printed new = []
            ∧ written new = [(STDERR_FILENO, "fgets error: " +:+ strerror e +:+ nl)])
    as Hread.
  { intros w0.
    step_run_by ltac:(unfold fgets; cbn [unread breaks];
                      rewrite take_line_last; [reflexivity | done | lia]) Hi1 He1.
    destruct Hi1 as (_ & _ & _ & s1 & Ht1 & Hs1).
    cbn [fst snd negb andb ferror in_error]. cbn in Ht1, He1.
    step_run_by ltac:(reflexivity) Hi2 He2.
    destruct Hi2 as (_ & _ & _ & s2 & Ht2 & Hs2).
    cbn in Ht2. rewrite He1, Ht1 in Ht2.
    eexists _, _. split; [reflexivity|].
    split; [rewrite Ht2; rewrite <- !app_assoc; reflexivity|].
    rewrite !printed_app, !written_app, !(printed_handler_runs _ Hs1),
      !(printed_handler_runs _ Hs2), !(written_handler_runs _ Hs1),
      !(written_handler_runs _ Hs2). done. }
  destruct emit_prompt.
  - step_run_by ltac:(reflexivity) Hi1 He1.
    destruct Hi1 as (_ & _ & _ & s1 & Ht1 & Hs1).
    cbn in Ht1. destruct (Hread w0) as (w' & new & -> & Ht & Hp & Hw).
    exists w'. eexists. split; [done|].
    split; [rewrite Ht, Ht1; rewrite <- !app_assoc; reflexivity|].
    rewrite !printed_app, !written_app, (printed_handler_runs _ Hs1),
      (written_handler_runs _ Hs1), Hp, Hw. done.
  - rewrite bind_ret. destruct (Hread w) as (w' & new & -> & Ht & Hp & Hw).
    by exists w', new.
Qed.

(** ** The properties at work on sample runs, continued *)

Lemma eval_restores_signal_mask_witness :
  ∃ w',
    eval 3 PARSELINE_FG sleep_tokens "sleep 5" launch_world = Done tt w'
    ∧ sigmask (proc w') = sigmask (proc launch_world).
Proof.
  eexists. split; [vm_compute; reflexivity|].
  apply (eval_restores_signal_mask 3 PARSELINE_FG sleep_tokens "sleep 5" launch_world).
  vm_compute. reflexivity.
Defined.

Lemma no_foreground_job_is_left_witness :
  ∃ w',
    eval 3 PARSELINE_FG sleep_tokens "sleep 5" launch_world = Done tt w'
    ∧ JobTable.fg_job (job_list (proc w')) = 0.
Proof.
  eexists. split; [vm_compute; reflexivity|].
  apply (no_foreground_job_is_left 3 PARSELINE_FG sleep_tokens "sleep 5" launch_world);
    [reflexivity | vm_compute; reflexivity].
Defined.

Lemma background_launch_returns_at_once_witness :
  ∃ w' new,
    eval 0 PARSELINE_BG sleep_tokens "sleep 5 &" (idle_world quiet_oracle []) = Done tt w'
    ∧ trace (proc w') = trace (proc (idle_world quiet_oracle [])) ++ new
    ∧ printed new = [job_line 1 100 "sleep 5 &"]
    ∧ Forall (λ e, ¬ is_suspend e) new.
Proof.
  apply (background_launch_returns_at_once 0 sleep_tokens "sleep 5 &"
           (idle_world quiet_oracle []));
    [reflexivity | cbn; lia].
Defined.

Lemma program_starts_unblocked_in_its_own_group_witness :
  ∃ w',
    eval 1 PARSELINE_FG cat_tokens "/bin/cat < in > out" child_world
    = Execed "/bin/cat" ["/bin/cat"] w'
    ∧ sigmask (proc w') = 5.
Proof.
  eexists. split; [vm_compute; reflexivity|].
  eapply (program_starts_unblocked_in_its_own_group 1 PARSELINE_FG cat_tokens
            "/bin/cat < in > out" child_world "/bin/cat" ["/bin/cat"]);
    [reflexivity | left; reflexivity | reflexivity | vm_compute; reflexivity].
Defined.

Lemma built_ins_run_in_the_shell_witness :
  ∃ new,
    trace (proc (final (eval 0 PARSELINE_FG (make_tokens BUILTIN_JOBS ["jobs"] None None)
                          "jobs" (idle_world quiet_oracle []))))
    = trace (proc (idle_world quiet_oracle [])) ++ new
    ∧ Forall in_process new.
Proof.
  apply (built_ins_run_in_the_shell 0 PARSELINE_FG
           (make_tokens BUILTIN_JOBS ["jobs"] None None) "jobs" (idle_world quiet_oracle [])).
  cbn. discriminate.
Defined.

Lemma lines_are_evaluated_in_order_witness :
  read_eval_loop sample_parseline "tsh> " 1024 sample_strerror 3 0 true EmptyString
    (stream_of (lines_text ["jobs"; "quit" +:+ String Ascii.zero "x"]))
    (idle_world quiet_oracle [])
  = run_lines sample_parseline "tsh> " 0 true ["jobs"; "quit"] (idle_world quiet_oracle []).
Proof.
  apply (lines_are_evaluated_in_order sample_parseline "tsh> " 1024 sample_strerror
           ["jobs"; "quit" +:+ String Ascii.zero "x"] 3 0 true EmptyString
           (idle_world quiet_oracle []));
    [ repeat (apply Forall_cons_2; [split; [reflexivity | unfold fits; vm_compute; lia]|]);
      apply Forall_nil_2
    | lia | cbn; lia ].
Defined.

Lemma unterminated_last_line_is_not_evaluated_witness :
  read_eval_loop sample_parseline "tsh> " 5 sample_strerror 4 0 true EmptyString
    (stream_of (lines_text ["jobs"] +:+ "quitab")) (idle_world quiet_oracle [])
  = read_eval_loop sample_parseline "tsh> " 5 sample_strerror 4 0 true EmptyString
      (stream_of (lines_text ["jobs"] +:+ "quit")) (idle_world quiet_oracle []).
Proof.
  apply (unterminated_last_line_is_not_evaluated sample_parseline "tsh> " 5
           sample_strerror ["jobs"] "quitab" 4 0 true EmptyString
           (idle_world quiet_oracle [])); [lia | reflexivity].
Defined.

Lemma long_line_is_evaluated_in_pieces_witness :
  read_eval_loop sample_parseline "tsh> " 5 sample_strerror 3 0 true EmptyString
    (stream_of ("jobs" +:+ "quit" +:+ nl)) (idle_world quiet_oracle [])
  = (call (printf "tsh> ") ≫= λ _,
     call pause ≫= λ _,
     eval 0 (sample_parseline "jobs").1 (sample_parseline "jobs").2 "jobs" ≫= λ _,
     read_eval_loop sample_parseline "tsh> " 5 sample_strerror 2 0 true "jobs"
       (stream_of ("quit" +:+ nl))) (idle_world quiet_oracle []).
Proof.
  apply (long_line_is_evaluated_in_pieces sample_parseline "tsh> " 5 sample_strerror
           "jobs" ("quit" +:+ nl) 2 0 true EmptyString (idle_world quiet_oracle []));
    reflexivity.
Defined.

Lemma read_error_ends_the_shell_witness :
  ∃ w' new,
    read_eval_loop sample_parseline "tsh> " 1024 sample_strerror 1 0 true EmptyString
      {| unread := "jobs"; breaks := Some 5; at_eof := false; in_error := false |}
      (idle_world quiet_oracle [])
    = Exited 1 w'
    ∧ trace (proc w') = trace (proc (idle_world quiet_oracle [])) ++ new
    ∧ printed new = ["tsh> "]
    ∧ written new = [(STDERR_FILENO, "fgets error: " +:+ sample_strerror 5 +:+ nl)].
Proof.
  apply (read_error_ends_the_shell sample_parseline "tsh> " 1024 sample_strerror
           "jobs" 5 0 0 true EmptyString (idle_world quiet_oracle []));
    [reflexivity | unfold fits; cbn; lia].
Defined.

(** * A status change that is already queued ends the foreground wait *)

Lemma kern_grows_refl k : kern_grows k k.
Proof. by split. Qed.

Lemma kern_grows_trans k1 k2 k3 : kern_grows k1 k2 → kern_grows k2 k3 → kern_grows k1 k3.
Proof. intros [H1 H1'] [H2 H2']. split; auto. Qed.

Lemma env_apply_grows e k : kern_grows k (env_apply e k).
Proof.
  destruct e as [p st|sig|]; cbn.
  - destruct (bool_decide _); [|apply kern_grows_refl]. split; cbn.
    + intros sig Hs. unfold sigismember in *. rewrite testbit_setbit, Hs. done.
    + intros x Hx. apply in_or_app. by left.
  - split; cbn; [|done].
    intros s Hs. unfold sigismember in *. rewrite testbit_setbit, Hs. done.
  - apply kern_grows_refl.
Qed.

Lemma window_blocked_kern s w :
  blocks_all (sigmask (proc w)) →
  ∃ w', window s w = Some w' ∧ proc w' = proc w ∧ os w' = os w
        ∧ kern_grows (kern w) (kern w').
Proof.
  revert w. induction s as [|e s IH]; intros w Hb; cbn.
  - eexists. split; [done|]. split; [done|]. split; [done|]. by split.
  - assert (∃ w', (dispatch (with_kern (env_apply e) w) ≫= window s) = Some w'
                  ∧ proc w' = proc w ∧ os w' = os w
                  ∧ kern_grows (kern w) (kern w')) as Hgo.
    { rewrite dispatch_blocked by done. cbn.
      destruct (IH (with_kern (env_apply e) w) Hb) as (w' & -> & Hp & Ho & Hk).
      eexists. split; [done|]. split; [done|]. split; [done|].
      eapply kern_grows_trans; [apply env_apply_grows | exact Hk]. }
    destruct e; try done.
    eexists. split; [done|]. split; [done|]. split; [done|]. by split.
Qed.

Lemma bind_job_read_kern {A B} op (g : list job → A) (f : A → M B) w :
  blocks_all (sigmask (proc w)) →
  ∃ w2, (call (job_read op g) ≫= f) w = f (g (job_list (proc w))) w2
        ∧ proc w2 = log (E_job op (sigmask (proc w))) (proc w)
        ∧ kern_grows (kern w) (kern w2).
Proof.
  intros Hb. unfold mbind, M_bind, call, job_read, deliver.
  rewrite dispatch_blocked by done. cbn.
  edestruct (window_blocked_kern (sched (kern w))
               (with_proc (λ p, log (E_job op (sigmask p)) p) w))
    as (w2 & Hw & Hp & _ & Hk); [done|].
  cbn in Hw. rewrite Hw. exists w2. done.
Qed.

Lemma suspended_now s w :
  any_deliverable w = true →
  suspended s w = (w' ← dispatch w; Some (with_kern (set_sched s) w')).
Proof. intros Ha. destruct s; cbn; by rewrite Ha. Qed.

(** The handlers of [SIGINT] and [SIGTSTP] leave the job list, the queue
    of status changes and a pending [SIGCHLD] alone. *)
Lemma deliver_one_forward sig h w w' :
  sig = SIGINT ∨ sig = SIGTSTP →
  (∀ s w0, h s w0 = Some (tt, with_proc (λ p, add_events (forward_events sig p) p) w0)) →
  deliver_one sig h w = Some w' →
  job_list (proc w') = job_list (proc w)
  ∧ sigmask (proc w') = sigmask (proc w)
  ∧ wait_queue (kern w') = wait_queue (kern w)
  ∧ sigismember (sigpend (kern w')) SIGCHLD = sigismember (sigpend (kern w)) SIGCHLD.
Proof.
  intros Hsig Hh. unfold deliver_one. destruct (deliverable sig w); [|by intros [= <-]].
  unfold run_handler. rewrite Hh. intros [= <-]. cbn. split_and!; try done.
  unfold sigismember. rewrite Z.clearbit_neq; [done|].
  destruct Hsig as [-> | ->]; done.
Qed.

Lemma dispatch_reaps w w' :
  deliverable SIGCHLD w = true →
  dispatch w = Some w' →
  job_list (proc w')
  = reap_all_jobs (reported (wait_queue (kern w))) (job_list (proc w))
  ∧ sigmask (proc w') = sigmask (proc w).
Proof.
  intros Hd. unfold dispatch.
  destruct (deliver_one SIGINT sigint_handler w) as [w1|] eqn:E1; [|done]. cbn.
  destruct (deliver_one_forward SIGINT _ _ _ (or_introl eq_refl) sigint_handler_run E1)
    as (Hj1 & Hm1 & Hq1 & Hp1).
  destruct (deliver_one SIGCHLD sigchld_handler w1) as [w2|] eqn:E2; [|done]. cbn.
  intros E3.
  destruct (deliver_one_forward SIGTSTP _ _ _ (or_intror eq_refl) sigtstp_handler_run E3)
    as (Hj3 & Hm3 & _).
  unfold deliver_one in E2.
  assert (deliverable SIGCHLD w1 = true) as Hd1.
  { unfold deliverable in *. by rewrite Hp1, Hm1. }
  rewrite Hd1 in E2. unfold run_handler in E2. rewrite sigchld_handler_run in E2.
  injection E2 as <-. rewrite Hj3, Hm3. cbn.
  lazymatch goal with
  | |- job_list (last_wait ?c ?p) = _ ∧ _ =>
      destruct (last_wait_spec c p) as (_ & Hj' & _); rewrite Hj'
  end.
  lazymatch goal with
  | |- job_list (reap_all ?rs ?p0) = _ ∧ _ =>
      destruct (reap_all_spec rs p0) as (_ & _ & Hj & _); rewrite Hj
  end.
  cbn. unfold reported. by rewrite Hq1, Hj1.
Qed.

Lemma from_pid_insert_other (jl : list job) pid i j i' x :
  list_find (λ j, j_state j ≠ UNDEF ∧ j_pid j = pid) jl = Some (i, j) →
  i' ≠ i → ¬ (j_state x ≠ UNDEF ∧ j_pid x = pid) →
  list_find (λ j, j_state j ≠ UNDEF ∧ j_pid j = pid) (<[i' := x]> jl) = Some (i, j).
Proof.
  intros (Hi & Hs & Hlt)%list_find_Some Hne Hx. apply list_find_Some.
  split_and!; [by rewrite list_lookup_insert_ne | by destruct Hs | by destruct Hs |].
  intros k y Hk Hki. destruct (decide (k = i')) as [->|Hk'].
  - apply list_lookup_insert_Some in Hk as [(_ & <- & _) | (? & _)]; [exact Hx | done].
  - rewrite list_lookup_insert_ne in Hk by done. by eapply Hlt.
Qed.

Lemma sole_foreground_insert pid i (jl : list job) i' x :
  sole_foreground pid i jl → i' ≠ i → j_state x ≠ FG →
  ¬ (j_state x ≠ UNDEF ∧ j_pid x = pid) →
  sole_foreground pid i (<[i' := x]> jl).
Proof.
  intros ((j & Hi & Hs & Hp) & Hfrom & Honly) Hne Hx Hxp. split_and!.
  - exists j. by rewrite list_lookup_insert_ne.
  - unfold JobTable.job_from_pid in *.
    destruct (list_find _ jl) as [[k y]|] eqn:Ef.
    + assert (k = i) as -> by (unfold JobTable.id_of_slot in Hfrom; lia).
      by erewrite from_pid_insert_other.
    + by destruct (id_of_slot_pos i).
  - intros k y Hk Hy.
    apply list_lookup_insert_Some in Hk as [(_ & <- & _) | (_ & Hk)]; [done | eauto].
Qed.

(** Handling the status change of another process leaves the foreground
    job as it is. *)
Lemma sole_foreground_reap_other pid i jl p st :
  sole_foreground pid i jl → p ≠ pid → WIFCONTINUED st = false →
  sole_foreground pid i (reap_jobs p st jl).
Proof.
  intros Hsole Hne Hst. pose proof Hsole as ((j & Hi & Hs & Hp) & _).
  unfold reap_jobs.
  destruct (from_pid_cases p jl) as [-> | (i' & j' & -> & Hi' & Hs' & Hp')].
  { unfold JobTable.job_set_state, JobTable.delete_job, JobTable.job_exists.
    rewrite slot_zero. by destruct st. }
  assert (i' ≠ i) by (intros ->; congruence).
  unfold JobTable.job_set_state, JobTable.delete_job, JobTable.job_exists.
  rewrite slot_id_of_slot, Hi', index_of_id.
  rewrite (bool_decide_eq_true_2 (j_state j' ≠ UNDEF)) by done.
  destruct st; try done; apply sole_foreground_insert; try done; cbn; intros [? ?]; congruence.
Qed.

(** Handling the status change of the foreground job leaves no job in the
    foreground. *)
Lemma sole_foreground_reap pid i jl st :
  sole_foreground pid i jl → WIFCONTINUED st = false →
  JobTable.fg_job (reap_jobs pid st jl) = 0.
Proof.
  intros ((j & Hi & Hs & Hp) & Hfrom & Honly) Hst.
  assert (∀ x, j_state x ≠ FG →
               JobTable.fg_job (<[i := x]> jl) = 0) as Hnone.
  { intros x Hx. unfold JobTable.fg_job.
    destruct (list_find _ (<[i := x]> jl)) as [[k y]|] eqn:Ef; [|done].
    apply list_find_Some in Ef as (Hk & Hy & _).
    apply list_lookup_insert_Some in Hk as [(_ & <- & _) | (Hki & Hk)]; [done|].
    by destruct Hki, (Honly k y Hk Hy). }
  unfold reap_jobs. rewrite Hfrom.
  unfold JobTable.job_set_state, JobTable.delete_job, JobTable.job_exists.
  rewrite slot_id_of_slot, Hi, index_of_id.
  rewrite (bool_decide_eq_true_2 (j_state j ≠ UNDEF)) by congruence.
  destruct st; try done; by apply Hnone.
Qed.

Lemma sole_foreground_reap_all pid i jl rs p st :
  sole_foreground (Z.pos p) i jl →
  pid = Z.pos p →
  In (p, st) rs →
  Forall (λ r, WIFCONTINUED r.2 = false) rs →
  JobTable.fg_job (reap_all_jobs rs jl) = 0.
Proof.
  intros Hsole -> Hin Hrs. revert jl Hsole.
  induction rs as [|[q st'] rs IH]; intros jl Hsole; [done|].
  apply Forall_cons in Hrs as [Hst' Hrs]. cbn [reap_all_jobs].
  destruct (decide (q = p)) as [->|Hq].
  - eapply no_new_fg_none; [by apply no_new_fg_reap_all|].
    by eapply sole_foreground_reap.
  - apply IH; [|done|].
    + destruct Hin as [[= -> _]|Hin]; done.
    + apply sole_foreground_reap_other; [done | | done]. intros [= ->]. done.
Qed.

Lemma sole_foreground_waiting pid i jl : sole_foreground pid i jl → waiting pid jl = true.
Proof.
  intros ((j & Hi & Hs & Hp) & _ & Honly). apply waiting_find. exists i, j.
  split; [|done]. apply list_find_Some. split_and!; [done | done |].
  intros k y Hk Hlt Hy. pose proof (Honly k y Hk Hy). lia.
Qed.

Ltac step_kern Hp Hk :=
  norm_bind;
  lazymatch goal with
  | |- context [(call (job_read ?op ?g) ≫= ?f) ?w] =>
      let w2 := fresh "w" in
      let Hc := fresh "Hc" in
      destruct (bind_job_read_kern op g f w) as (w2 & Hc & Hp & Hk);
      [ | rewrite Hc; clear Hc; cbv beta ]
  end.

(** Property X13.  The foreground wait does not miss a status change that
    came while the signals were still blocked.  If the child that is the
    only foreground job has stopped or ended before the shell reaches
    [sigsuspend], so that its status is queued and [SIGCHLD] is pending,
    then, whatever else happens meanwhile, the first [sigsuspend] lets the
    signal through at once, the handler takes the job out of the
    foreground, and the loop ends at its next test with the mask as it was
    on entry. *)
Theorem queued_status_change_ends_the_wait fuel prev_all p st i w :
  blocks_all (sigmask (proc w)) →
  sigismember prev_all SIGCHLD = false →
  sole_foreground (Z.pos p) i (job_list (proc w)) →
  sigismember (sigpend (kern w)) SIGCHLD = true →
  In (p, st) (wait_queue (kern w)) →
  WIFCONTINUED st = false →
  ∃ w',
    wait_fg (S (S fuel)) prev_all (Z.pos p) w = Done tt w'
    ∧ JobTable.fg_job (job_list (proc w')) = 0
    ∧ sigmask (proc w') = sigmask (proc w).
Proof.
  intros Hb Hprev Hsole Hpend Hq Hst.
  pose proof (sole_foreground_waiting _ _ _ Hsole) as Hw.
  unfold waiting in Hw. apply andb_true_iff in Hw as [Hfg Hpid].
  cbn [wait_fg]. unfold fg_job, job_get_pid.
  step_kern Hp1 Hk1; [done|]. rewrite Hfg.
  step_kern Hp2 Hk2; [by rewrite Hp1|].
  step_kern Hp3 Hk3; [by rewrite Hp2, Hp1|]. norm_bind.
  rewrite Hp2, Hp1. cbn [job_list log set_trace]. rewrite Hpid.
  pose proof (kern_grows_trans _ _ _ (kern_grows_trans _ _ _ Hk1 Hk2) Hk3) as [Hkp Hkq].
  unfold mbind at 1, M_bind at 1, sigsuspend at 1. cbv beta zeta.
  set (ws := with_proc (λ p0, set_sigmask prev_all (log (E_sigsuspend prev_all) p0)) w2).
  assert (deliverable SIGCHLD ws = true) as Hd.
  { unfold deliverable. cbn [ws kern proc with_proc sigmask set_sigmask].
    by rewrite (Hkp _ Hpend), Hprev. }
  rewrite suspended_now by (unfold any_deliverable; rewrite Hd; by rewrite orb_true_r).
  destruct (dispatch_total ws) as (wd & Hdis & _). rewrite Hdis. cbn [mbind option_bind].
  destruct (dispatch_reaps ws wd Hd Hdis) as [Hj3 Hm3].
  cbn in Hj3, Hm3. rewrite Hp3, Hp2, Hp1 in Hj3. cbn in Hj3.
  edestruct (call_blocked
               (λ wx, Some (-1, with_proc (λ p0, set_errno EINTR
                                             (set_sigmask (sigmask (proc w2)) p0)) wx))
               (with_kern (set_sched (sched (kern ws))) wd))
    as (wb & Hc & Hp5 & _); [reflexivity | cbn; by rewrite Hp3, Hp2, Hp1 |].
  rewrite Hc. cbn in Hp5.
  assert (JobTable.fg_job (job_list (proc wb)) = 0) as Hnone.
  { rewrite Hp5. cbn. rewrite Hj3.
    eapply sole_foreground_reap_all; [exact Hsole | done | | apply reported_not_continued].
    unfold reported. apply filter_In. split; [by apply Hkq|].
    cbn. rewrite reportable_not_continued. by rewrite Hst. }
  assert (blocks_all (sigmask (proc wb))) as Hb5.
  { rewrite Hp5. cbn. by rewrite Hp3, Hp2, Hp1. }
  cbn [wait_fg]. unfold fg_job.
  step_kern Hp6 Hk6; [done|]. rewrite Hnone.
  rewrite bool_decide_eq_false_2 by (intros H; by apply H). norm_bind.
  eexists. split; [reflexivity|]. rewrite Hp6. cbn.
  split; [done|]. rewrite Hp5. cbn. by rewrite Hp3, Hp2, Hp1.
Qed.

Lemma queued_status_change_ends_the_wait_witness :
  ∃ w',
    wait_fg 2 0 100 exited_world = Done tt w'
    ∧ JobTable.fg_job (job_list (proc w')) = 0
    ∧ sigmask (proc w') = sigmask (proc exited_world).
Proof.
  apply (queued_status_change_ends_the_wait 0 0 100%positive (W_EXITED 0) 0%nat
           exited_world);
    [ vm_compute; reflexivity | reflexivity | | reflexivity | left; reflexivity
    | reflexivity ].
  split_and!; [by eexists | reflexivity |].
  intros [|[|[|[|k]]]] j Hk Hs; try done; cbn in Hk; injection Hk as <-; done.
Defined.

(** * A signal from the keyboard while a foreground job runs *)

Lemma bind_job_read_idle {A B} op (g : list job → A) (f : A → M B) w :
  blocks_all (sigmask (proc w)) →
  sched (kern w) = [] →
  ∃ w2, (call (job_read op g) ≫= f) w = f (g (job_list (proc w))) w2
        ∧ proc w2 = log (E_job op (sigmask (proc w))) (proc w)
        ∧ kern w2 = kern w.
Proof.
  intros Hb Hs. unfold mbind, M_bind, call, job_read, deliver.
  rewrite dispatch_blocked by done. cbn. rewrite Hs. cbn.
  eexists. split; [reflexivity|]. split; [done|].
  unfold set_sched. cbn. rewrite <- Hs. by destruct (kern w).
Qed.

Lemma deliver_one_skip sig h w :
  sigismember (sigpend (kern w)) sig = false → deliver_one sig h w = Some w.
Proof. intros Hs. unfold deliver_one, deliverable. by rewrite Hs. Qed.

Lemma deliver_one_run sig h w :
  sigismember (sigpend (kern w)) sig = true →
  sigismember (sigmask (proc w)) sig = false →
  deliver_one sig h w = run_handler sig h w.
Proof. intros Hs Hm. unfold deliver_one, deliverable. by rewrite Hs, Hm. Qed.

(** One of [SIGINT] and [SIGTSTP] is pending, nothing else: its handler
    runs, and forwards it to the foreground job. *)
Lemma dispatch_forwards sig pid w :
  sig = SIGINT ∨ sig = SIGTSTP →
  sigpend (kern w) = Z.setbit 0 (sig - 1) →
  sigismember (sigmask (proc w)) sig = false →
  waiting pid (job_list (proc w)) = true →
  ∃ wd body,
    dispatch w = Some wd
    ∧ proc wd = set_trace (trace (proc w) ++ [E_signal sig body]) (proc w)
    ∧ killed body = [(- pid, sig)]
    ∧ kern wd = set_sigpend 0 (kern w)
    ∧ os wd = os w
    ∧ any_deliverable w = true.
Proof.
  intros Hsig Hpend Hmask Hw.
  unfold waiting in Hw. apply andb_true_iff in Hw as [Hfg Hpid].
  apply bool_decide_eq_true in Hfg. apply bool_decide_eq_true in Hpid.
  assert (∀ s, killed (forward_events s (set_trace [] (set_sigmask (Z.setbit (sigmask (proc w)) (s - 1)) (proc w))))
               = [(- pid, s)]) as Hkill.
  { intros s. unfold forward_events. cbn [job_list set_trace set_sigmask].
    rewrite bool_decide_eq_true_2 by done. cbn. by rewrite <- Hpid. }
  unfold dispatch.
  destruct Hsig as [-> | ->].
  - rewrite deliver_one_run by (done || by rewrite Hpend).
    unfold run_handler. rewrite sigint_handler_run. cbn [mbind option_bind].
    rewrite deliver_one_skip by (cbn; by rewrite Hpend). cbn [mbind option_bind].
    rewrite deliver_one_skip by (cbn; by rewrite Hpend).
    eexists _, _. split; [reflexivity|]. cbn.
    split; [reflexivity|]. split; [apply Hkill|].
    split; [by rewrite Hpend|]. split; [done|].
    unfold any_deliverable, deliverable. by rewrite Hpend, Hmask.
  - rewrite deliver_one_skip by (by rewrite Hpend). cbn [mbind option_bind].
    rewrite deliver_one_skip by (by rewrite Hpend). cbn [mbind option_bind].
    rewrite deliver_one_run by (done || by rewrite Hpend).
    unfold run_handler. rewrite sigtstp_handler_run.
    eexists _, _. split; [reflexivity|]. cbn.
    split; [reflexivity|]. split; [apply Hkill|].
    split; [by rewrite Hpend|]. split; [done|].
    unfold any_deliverable, deliverable. rewrite Hpend, Hmask.
    by rewrite !orb_true_r.
Qed.

Ltac step_idle Hp Hk :=
  norm_bind;
  lazymatch goal with
  | |- context [(call (job_read ?op ?g) ≫= ?f) ?w] =>
      let w2 := fresh "w" in
      let Hc := fresh "Hc" in
      destruct (bind_job_read_idle op g f w) as (w2 & Hc & Hp & Hk);
      [ | | rewrite Hc; clear Hc; cbv beta ]
  end.

Lemma call_idle {A} (h : H A) w a w1 :
  h w = Some (a, w1) → blocks_all (sigmask (proc w1)) → sched (kern w1) = [] →
  call h w = Done a (with_kern (set_sched []) w1).
Proof.
  intros Hh Hb Hs. unfold call, deliver. rewrite Hh.
  rewrite dispatch_blocked by done. cbn. by rewrite Hs.
Qed.

(** Property X14.  A [SIGINT] or [SIGTSTP] that reaches the shell while it
    waits for a foreground job does not end the wait.  The signal, held
    back while the shell has every signal blocked, is let through by
    [sigsuspend]; its handler sends it on to the process group of the
    foreground job and changes nothing in the job list; and the loop, its
    condition unchanged, goes round again. *)
Theorem keyboard_signal_is_forwarded_and_the_wait_goes_on fuel prev_all pid sig w :
  blocks_all (sigmask (proc w)) →
  waiting pid (job_list (proc w)) = true →
  sig = SIGINT ∨ sig = SIGTSTP →
  sigpend (kern w) = Z.setbit 0 (sig - 1) →
  sigismember prev_all sig = false →
  sched (kern w) = [] →
  ∃ w' before body,
    wait_fg (S fuel) prev_all pid w = wait_fg fuel prev_all pid w'
    ∧ trace (proc w') = before ++ [E_sigsuspend prev_all; E_signal sig body]
    ∧ killed body = [(- pid, sig)]
    ∧ job_list (proc w') = job_list (proc w)
    ∧ sigmask (proc w') = sigmask (proc w)
    ∧ sigpend (kern w') = 0.
Proof.
  intros Hb Hw Hsig Hpend Hprev Hsched.
  pose proof Hw as Hw'. unfold waiting in Hw'. apply andb_true_iff in Hw' as [Hfg Hpid].
  cbn [wait_fg]. unfold fg_job, job_get_pid.
  step_idle Hp1 Hk1; [done | done |]. rewrite Hfg.
  step_idle Hp2 Hk2; [by rewrite Hp1 | congruence |].
  step_idle Hp3 Hk3; [by rewrite Hp2, Hp1 | congruence |]. norm_bind.
  rewrite Hp2, Hp1. cbn [job_list log set_trace]. rewrite Hpid.
  unfold mbind at 1, M_bind at 1, sigsuspend at 1. cbv beta zeta.
  set (ws := with_proc (λ p0, set_sigmask prev_all (log (E_sigsuspend prev_all) p0)) w2).
  assert (kern ws = kern w) as Hkw by (cbn; congruence).
  assert (sigmask (proc ws) = prev_all) as Hmw by done.
  destruct (dispatch_forwards sig pid ws Hsig) as (wd & body & Hdis & Hpd & Hkill & Hkd & Hod & Hany);
    [congruence | by rewrite Hmw | cbn; by rewrite Hp3, Hp2, Hp1 |].
  rewrite suspended_now by done. rewrite Hdis. cbn [mbind option_bind].
  erewrite call_idle; [|reflexivity | cbn; by rewrite Hp3, Hp2, Hp1 | cbn; congruence].
  eexists _, (trace (proc w2)), body. split; [reflexivity|]. cbn.
  rewrite Hpd, Hkd. cbn. rewrite Hp3, Hp2, Hp1. cbn.
  split_and!; try done. by rewrite <- app_assoc.
Qed.

Lemma keyboard_signal_is_forwarded_and_the_wait_goes_on_witness :
  ∃ w' before body,
    wait_fg 3 0 100 interrupted_world = wait_fg 2 0 100 w'
    ∧ trace (proc w') = before ++ [E_sigsuspend 0; E_signal SIGINT body]
    ∧ killed body = [(- 100, SIGINT)]
    ∧ job_list (proc w') = job_list (proc interrupted_world)
    ∧ sigmask (proc w') = sigmask (proc interrupted_world)
    ∧ sigpend (kern w') = 0.
Proof.
  apply (keyboard_signal_is_forwarded_and_the_wait_goes_on 2 0 100 SIGINT
           interrupted_world);
    [ vm_compute; reflexivity | reflexivity | left; reflexivity | reflexivity
    | reflexivity | reflexivity ].
Defined.
